(** * django-encrypted-fields: the encrypted model fields, embedded in Rocq

    Shallow embedding of [src/django_encrypted_fields/models.py]:
    the key ring of [BaseEncryptedField] ([_encrypt], [_decrypt]), the
    [EncryptedTextField] and the [EncryptedJSONField] with its recursive
    selective traversal.  Python values are a tagged tree; exceptions are
    an error result; the Fernet primitive, the UTF-8 codec and the [json]
    module are an interface ([Runtime]); what a theorem assumes of them is
    among its premises, and holds of the reference instance the theorems
    are applied to at the end.  The traversal is given twice: on trees,
    and on a heap of dict and list objects, with a proof that the two
    agree. *)

From Stdlib Require Import ZArith Strings.Byte Strings.Ascii.
From stdpp Require Import base option list strings gmap countable.

Local Open Scope string_scope.
Local Open Scope list_scope.

(** ** Python values *)

(** The JSON-like values the field receives.  A [dict] is kept as its
    list of items in insertion order (the order [dict.items()] and
    [json.dumps] follow); a well-formed dict has no repeated key
    ([wf_value]).  A float is carried by its IEEE-754 bits: the code never
    computes with it. *)
Unset Elimination Schemes.
Inductive value : Type :=
  | VNone
  | VBool (b : bool)
  | VInt (z : Z)
  | VFloat (bits : Z)
  | VStr (s : string)
  | VList (elems : list value)
  | VDict (items : list (string * value)).
Set Elimination Schemes.

Definition bytes : Type := list byte.

(** [isinstance(value, str)], [isinstance(value, dict)],
    [isinstance(value, list)]. *)
Definition isinstance_str (v : value) : bool :=
  match v with VStr _ => true | _ => false end.

Definition isinstance_dict (v : value) : bool :=
  match v with VDict _ => true | _ => false end.

Definition isinstance_list (v : value) : bool :=
  match v with VList _ => true | _ => false end.

Definition is_None (v : value) : bool :=
  match v with VNone => true | _ => false end.

(** A scalar is a value that is neither a mapping nor a sequence. *)
Definition is_scalar (v : value) : bool :=
  negb (isinstance_dict v || isinstance_list v).

(** What [_encrypt] and [_decrypt] can be handed: a value, or a [str]
    that has no UTF-8 encoding because it holds a lone surrogate (a [str]
    such as ["\ud800"]).  The strings of [value] are the ones UTF-8
    encodes. *)
Inductive argument : Type :=
  | Json (v : value)
  | StrLoneSurrogate.

Coercion Json : value >-> argument.

(** No key occurs twice in a dict, at any depth. *)
Fixpoint wf_value (v : value) : bool :=
  match v with
  | VList elems => forallb wf_value elems
  | VDict items =>
      bool_decide (NoDup (map fst items))
      && (fix wf_items (l : list (string * value)) : bool :=
            match l with
            | [] => true
            | (_, field) :: rest => wf_value field && wf_items rest
            end) items
  | _ => true
  end.

(** The nesting depth of a value. *)
Fixpoint depth (v : value) : nat :=
  match v with
  | VList elems => S (foldr (fun x d => depth x `max` d) 0 elems)
  | VDict items =>
      S ((fix go (l : list (string * value)) : nat :=
            match l with
            | [] => 0
            | (_, field) :: rest => depth field `max` go rest
            end) items)
  | _ => 0
  end.

(** ** Exceptions *)

(** The exception classes the code can raise.  [JSONDecodeError],
    [UnicodeDecodeError] and [UnicodeEncodeError] are subclasses of
    [ValueError] in Python; they are kept apart here, as the kinds they
    are reported as. *)
Inductive exn : Type :=
  | ValueError (msg : string)
  | TypeError
  | IndexError
  | UnicodeDecodeError
  | UnicodeEncodeError
  | JSONDecodeError
  | RecursionError.

Inductive result (A : Type) : Type :=
  | Ok (a : A)
  | Raise (e : exn).
Arguments Ok {A} a.
Arguments Raise {A} e.

(** The three error kinds of the specification, as the code raises them. *)
Definition DecryptionFailed : exn :=
  ValueError "Decryption failed for all provided keys.".

Definition InvalidPolicy_both : exn :=
  ValueError "Cannot specify both `target_fields` and `encrypt_all`.".

Definition InvalidPolicy_neither : exn :=
  ValueError "Must specify either `target_fields` or `encrypt_all`.".

Definition is_InvalidPolicy (e : exn) : Prop :=
  e = InvalidPolicy_both \/ e = InvalidPolicy_neither.

Definition DeserializationError : exn := JSONDecodeError.

Definition specified_error (e : exn) : Prop :=
  is_InvalidPolicy e \/ e = DecryptionFailed \/ e = DeserializationError.

(** ** The runtime the fields call into *)

(** [cryptography.fernet.Fernet], [bytes(s, "utf-8")] / [.decode("utf-8")]
    and [json.dumps] / [json.loads].  A Fernet token depends on the clock
    and on a fresh IV: [fernet_encrypt k n] is the token the [n]-th call to
    [encrypt] of the process produces.  [fernet_decrypt] answers [None]
    for [InvalidToken], [bytes_decode] for [UnicodeDecodeError],
    [json_loads] for [JSONDecodeError]. *)
Class Runtime : Type := {
  Key : Type;
  fernet_encrypt : Key -> nat -> bytes -> bytes;
  fernet_decrypt : Key -> bytes -> option bytes;
  str_encode : string -> bytes;
  bytes_decode : bytes -> option string;
  json_dumps : value -> string;
  json_loads : string -> option value
}.

(** ** Effects: the calls made, in order *)

Inductive event `{Runtime} : Type :=
  | EvEncrypt (k : Key) (plaintext : bytes)
  | EvDecrypt (k : Key) (token : bytes)
  | EvDumps (v : value)
  | EvLoads (s : string).

(** The world a call runs in: how many tokens were issued so far, and the
    runtime calls made so far, oldest first. *)
Record world `{Runtime} : Type := World {
  clock : nat;
  trace : list event
}.

(** Computations over a state [S] that return or raise. *)
Definition ST (S A : Type) : Type := S -> result A * S.

Definition ret {S A} (a : A) : ST S A := fun st => (Ok a, st).

Definition raise {S A} (e : exn) : ST S A := fun st => (Raise e, st).

Definition bind {S A B} (m : ST S A) (f : A -> ST S B) : ST S B :=
  fun st =>
    match m st with
    | (Ok a, st') => f a st'
    | (Raise e, st') => (Raise e, st')
    end.

Definition M `{Runtime} (A : Type) : Type := ST world A.

Notation "'let!' x ':=' m 'in' k" := (bind m (fun x => k))
  (at level 10, x name, m at level 100, k at level 200).

Definition emit `{Runtime} (ev : event) : M unit :=
  fun w => (Ok tt, World _ (clock w) (trace w ++ [ev])).

Definition draw `{Runtime} : M nat :=
  fun w => (Ok (clock w), World _ (S (clock w)) (trace w)).

Section Calls.
Context `{Runtime}.

(** [fernet.encrypt(data)] *)
Definition call_encrypt (k : Key) (data : bytes) : M bytes :=
  let! n := draw in
  let! _ := emit (EvEncrypt k data) in
  ret (fernet_encrypt k n data).

(** [fernet.decrypt(token)], [None] when it raises [InvalidToken] *)
Definition call_decrypt (k : Key) (token : bytes) : M (option bytes) :=
  let! _ := emit (EvDecrypt k token) in
  ret (fernet_decrypt k token).

(** [json.dumps(value)] *)
Definition call_dumps (v : value) : M string :=
  let! _ := emit (EvDumps v) in
  ret (json_dumps v).

(** [json.loads(s)] *)
Definition call_loads (s : string) : M value :=
  let! _ := emit (EvLoads s) in
  match json_loads s with
  | Some v => ret v
  | None => raise JSONDecodeError
  end.

(** [bytes(value, "utf-8")]: a [TypeError] unless [value] is a [str],
    a [UnicodeEncodeError] on a [str] that UTF-8 does not encode. *)
Definition bytes_utf8 (v : argument) : M bytes :=
  match v with
  | Json (VStr s) => ret (str_encode s)
  | Json _ => raise TypeError
  | StrLoneSurrogate => raise UnicodeEncodeError
  end.

(** [data.decode("utf-8")] *)
Definition decode_utf8 (data : bytes) : M string :=
  match bytes_decode data with
  | Some s => ret s
  | None => raise UnicodeDecodeError
  end.
End Calls.

(** ** BaseEncryptedField *)

Module BaseEncryptedField.
Section Base.
Context `{Runtime}.

(** [self.fernet_keys], the cached list of Fernet objects built from
    [settings.MODEL_ENCRYPTION_KEYS]. *)
Definition key_ring : Type := list Key.

Definition _encrypt (fernet_keys : key_ring) (v : argument) : M string :=
  match fernet_keys with
  | [] => raise IndexError
  | fernet :: _ =>
      let! data := bytes_utf8 v in
      let! token := call_encrypt fernet data in
      decode_utf8 token
  end.

Fixpoint _decrypt (fernet_keys : key_ring) (v : argument) : M string :=
  match fernet_keys with
  | [] => raise DecryptionFailed
  | fernet :: rest =>
      let! data := bytes_utf8 v in
      let! r := call_decrypt fernet data in
      match r with
      | Some plaintext => decode_utf8 plaintext
      | None => _decrypt rest v
      end
  end.
End Base.
End BaseEncryptedField.

(** ** EncryptedTextField *)

Module EncryptedTextField.
Section Text.
Context `{Runtime}.

(** The field object: its key ring, and whether the attribute
    [_already_decrypted] is set ([hasattr(self, "_already_decrypted")]). *)
Record t : Type := Field {
  fernet_keys : BaseEncryptedField.key_ring;
  _already_decrypted : bool
}.

Definition get_prep_value (self : t) (v : value) : M value :=
  let! token := BaseEncryptedField._encrypt (fernet_keys self) v in
  ret (VStr token).

Definition to_python (self : t) (v : value) : M value :=
  if is_None v || negb (isinstance_str v) || _already_decrypted self
  then ret v
  else
    let! plaintext := BaseEncryptedField._decrypt (fernet_keys self) v in
    ret (VStr plaintext).

Definition from_db_value (self : t) (v : value) : M value :=
  to_python self v.
End Text.
End EncryptedTextField.

(** ** EncryptedJSONField *)

Module EncryptedJSONField.
Section Json.
Context `{Runtime}.

(** The field object.  [target_fields] is [None] or a list of names. *)
Record t : Type := Field {
  fernet_keys : BaseEncryptedField.key_ring;
  encrypt_all : bool;
  target_fields : option (list string);
  _already_decrypted : bool
}.

(** Truth value of the [target_fields] argument: [None] and the empty
    list are false. *)
Definition truthy (target_fields : option (list string)) : bool :=
  match target_fields with
  | Some (_ :: _) => true
  | _ => false
  end.

(** [EncryptedJSONField(encrypt_all, target_fields)]; the key ring is the
    one of the settings. *)
Definition __init__ (keys : BaseEncryptedField.key_ring)
    (encrypt_all : bool) (target_fields : option (list string)) : result t :=
  if truthy target_fields && encrypt_all then Raise InvalidPolicy_both
  else if negb (truthy target_fields) && negb encrypt_all
  then Raise InvalidPolicy_neither
  else Ok (Field keys encrypt_all target_fields false).

Definition _encrypt_or_decrypt_all (self : t) (v : value) (encrypt : bool)
    : M value :=
  if encrypt then
    let! s := call_dumps v in
    let! token := BaseEncryptedField._encrypt (fernet_keys self) (VStr s) in
    ret (VStr token)
  else
    let! s := BaseEncryptedField._decrypt (fernet_keys self) v in
    call_loads s.

Definition _encrypt_or_decrypt_target_field (self : t) (v : value)
    (encrypt : bool) : M value :=
  if isinstance_dict v || isinstance_list v
  then _encrypt_or_decrypt_all self v encrypt
  else if encrypt then
    let! token := BaseEncryptedField._encrypt (fernet_keys self) v in
    ret (VStr token)
  else
    let! plaintext := BaseEncryptedField._decrypt (fernet_keys self) v in
    ret (VStr plaintext).

(** [target_key in self.target_fields]; a [TypeError] when
    [target_fields] is [None]. *)
Definition is_target (self : t) (target_key : string) : M bool :=
  match target_fields self with
  | Some names => ret (bool_decide (target_key ∈ names))
  | None => raise TypeError
  end.

(** The traversal.  [_encrypt_or_decrypt_dict] and
    [_encrypt_or_decrypt_list] are the two local loops; they are given
    their own names below. *)
Fixpoint _encrypt_or_decrypt_value (self : t) (v : value) (encrypt : bool)
    {struct v} : M value :=
  match v with
  | VDict items =>
      let! return_value :=
        (fix dict_loop (l : list (string * value))
            : M (list (string * value)) :=
           match l with
           | [] => ret []
           | (target_key, field) :: rest =>
               let! hit := is_target self target_key in
               let! new :=
                 (if hit
                  then _encrypt_or_decrypt_target_field self field encrypt
                  else _encrypt_or_decrypt_value self field encrypt) in
               let! rest' := dict_loop rest in
               ret ((target_key, new) :: rest')
           end) items in
      ret (VDict return_value)
  | VList elems =>
      let! return_value :=
        (fix list_loop (l : list value) : M (list value) :=
           match l with
           | [] => ret []
           | item :: rest =>
               let! new := _encrypt_or_decrypt_value self item encrypt in
               let! rest' := list_loop rest in
               ret (new :: rest')
           end) elems in
      ret (VList return_value)
  | _ => ret v
  end.

(** The loop of [_encrypt_or_decrypt_dict] over the items of the copy. *)
Fixpoint dict_items_loop (self : t) (l : list (string * value))
    (encrypt : bool) : M (list (string * value)) :=
  match l with
  | [] => ret []
  | (target_key, field) :: rest =>
      let! hit := is_target self target_key in
      let! new :=
        (if hit
         then _encrypt_or_decrypt_target_field self field encrypt
         else _encrypt_or_decrypt_value self field encrypt) in
      let! rest' := dict_items_loop self rest encrypt in
      ret ((target_key, new) :: rest')
  end.

Definition _encrypt_or_decrypt_dict (self : t) (items : list (string * value))
    (encrypt : bool) : M value :=
  let! return_value := dict_items_loop self items encrypt in
  ret (VDict return_value).

Fixpoint list_items_loop (self : t) (l : list value) (encrypt : bool)
    : M (list value) :=
  match l with
  | [] => ret []
  | item :: rest =>
      let! new := _encrypt_or_decrypt_value self item encrypt in
      let! rest' := list_items_loop self rest encrypt in
      ret (new :: rest')
  end.

Definition _encrypt_or_decrypt_list (self : t) (elems : list value)
    (encrypt : bool) : M value :=
  let! return_value := list_items_loop self elems encrypt in
  ret (VList return_value).

Definition get_internal_type (self : t) : string :=
  if encrypt_all self then "TextField" else "JSONField".

Definition get_prep_value (self : t) (v : value) : M value :=
  if encrypt_all self
  then _encrypt_or_decrypt_all self v true
  else _encrypt_or_decrypt_value self v true.

Definition to_python (self : t) (v : value) : M value :=
  if is_None v || negb (isinstance_str v) || _already_decrypted self
  then ret v
  else
    if encrypt_all self
    then _encrypt_or_decrypt_all self v false
    else
      match v with
      | VStr s =>
          let! parsed := call_loads s in
          _encrypt_or_decrypt_value self parsed false
      | _ => raise TypeError
      end.

Definition from_db_value (self : t) (v : value) : M value :=
  to_python self v.
End Json.
End EncryptedJSONField.

(** ** The storage boundary *)

Section Storage.
Context `{Runtime}.

(** Modelled from the spec: the step between [get_prep_value] and the
    column, which Django's database layer performs and which is not under
    [src/].  Section 6 of the specification: under [EncryptAll] the token
    is the whole column string; under [TargetFields] the prepared structure
    is stored as a JSON string. *)
Definition seal (self : EncryptedJSONField.t) (v : value) : M string :=
  let! prepared := EncryptedJSONField.get_prep_value self v in
  if EncryptedJSONField.encrypt_all self
  then match prepared with
       | VStr token => ret token
       | _ => raise TypeError
       end
  else call_dumps prepared.

(** Reading the column back: [from_db_value] on the stored string. *)
Definition unseal (self : EncryptedJSONField.t) (stored : string) : M value :=
  EncryptedJSONField.from_db_value self (VStr stored).
End Storage.

(** The outcome of a computation, without the final world. *)
Definition outcome `{Runtime} {A} (m : M A) (w : world) : result A := fst (m w).

(** ** What the walk is asked to encrypt *)

(** Under [TargetFields names], the entries the walk hands to
    [_encrypt_or_decrypt_target_field] are those of a dict reached through
    lists and through entries whose key is not in [names].
    [targets_all names P v] holds when each of these values satisfies [P]. *)
Fixpoint targets_all (names : list string) (P : value -> bool) (v : value)
    : bool :=
  match v with
  | VList elems => forallb (targets_all names P) elems
  | VDict items =>
      (fix go (l : list (string * value)) : bool :=
         match l with
         | [] => true
         | (k, field) :: rest =>
             (if bool_decide (k ∈ names) then P field
              else targets_all names P field) && go rest
         end) items
  | _ => true
  end.


(** ** What is assumed of the runtime *)

Section Laws.
Context `{Runtime}.

(** A key decrypts its own tokens. *)
Definition fernet_correct : Prop :=
  forall k n data, fernet_decrypt k (fernet_encrypt k n data) = Some data.

(** A key that accepts a token recovers the data that was encrypted: the
    token is authenticated, so another key rejects it. *)
Definition fernet_authentic : Prop :=
  forall k k' n data data',
    fernet_decrypt k' (fernet_encrypt k n data) = Some data' -> data' = data.

(** A token is base64 text: decoding it succeeds and encoding the text
    gives the token back. *)
Definition token_is_text : Prop :=
  forall k n data, exists t,
    bytes_decode (fernet_encrypt k n data) = Some t
    /\ str_encode t = fernet_encrypt k n data.

(** A token is longer than the data it carries. *)
Definition token_expands : Prop :=
  forall k n data, length data < length (fernet_encrypt k n data).

(** Decoding the UTF-8 encoding of a string gives the string. *)
Definition codec_roundtrip : Prop :=
  forall s, bytes_decode (str_encode s) = Some s.

(** [json.loads(json.dumps(v)) == v] on well-formed values. *)
Definition json_roundtrip : Prop :=
  forall v, wf_value v = true -> json_loads (json_dumps v) = Some v.

(** The key rejects the text as a token ([InvalidToken]). *)
Definition rejects (k : Key) (token : string) : Prop :=
  fernet_decrypt k (str_encode token) = None.

(** The decryption attempts on [token], one per key, in ring order. *)
Definition attempts (ks : list Key) (token : string) : list event :=
  map (fun k => EvDecrypt k (str_encode token)) ks.

(** The world after the given calls, the last of them issuing [issued]
    tokens in all. *)
Definition after (w : world) (issued : nat) (evs : list event) : world :=
  World _ (issued + clock w) (trace w ++ evs).
End Laws.

(** The exceptions [_encrypt] can raise: none of them is one of the three
    error kinds of the specification. *)
Definition seal_error (e : exn) : Prop :=
  e = TypeError \/ e = IndexError \/ e = UnicodeDecodeError.


(** Sealing [v] succeeds, keeps the value well formed, and the walk in the
    other direction gives [v] back. *)
Definition walk_roundtrips `{Runtime} (self : EncryptedJSONField.t)
    (v : value) : Prop :=
  forall w, exists v' w',
    EncryptedJSONField._encrypt_or_decrypt_value self v true w = (Ok v', w')
    /\ (wf_value v = true -> wf_value v' = true)
    /\ forall w2, exists w2',
         EncryptedJSONField._encrypt_or_decrypt_value self v' false w2
         = (Ok v, w2').


(** * The traversal on the object heap *)

(** The same methods with dicts and lists as objects of a heap, which a
    value refers to and which a statement can change in place; this is
    where "the input is not modified" is a statement. *)
Module Objects.

(** A Python value: a scalar, or a reference to a dict or list object. *)
Inductive pyval : Type :=
  | PNone
  | PBool (b : bool)
  | PInt (z : Z)
  | PFloat (bits : Z)
  | PStr (s : string)
  | PRef (l : nat).

Inductive obj : Type :=
  | ODict (items : list (string * pyval))
  | OList (elems : list pyval).

(** The state: the objects, the key ring of the field
    ([self.fernet_keys]) and the world of runtime calls. *)
Record store `{Runtime} : Type := Store {
  objects : gmap nat obj;
  fernet_keys : list Key;
  the_world : world
}.

Definition HM `{Runtime} (A : Type) : Type := ST store A.

Section Heap.
Context `{Runtime}.

(** A new object, at an address no object has. *)
Definition h_alloc (o : obj) : HM nat :=
  fun st =>
    let l := fresh (dom (objects st)) in
    (Ok l, Store _ (<[l := o]> (objects st)) (fernet_keys st) (the_world st)).

Definition h_lookup (l : nat) : HM (option obj) :=
  fun st => (Ok (objects st !! l), st).

(** [d[key] = new] on the items of a dict. *)
Definition dict_set (key : string) (new : pyval)
    (items : list (string * pyval)) : list (string * pyval) :=
  map (fun kv => if bool_decide (fst kv = key) then (fst kv, new) else kv)
      items.

(** [return_value[target_key] = new], in place, on the dict at [l]. *)
Definition h_setitem (l : nat) (key : string) (new : pyval) : HM unit :=
  fun st =>
    (Ok tt,
     Store _
       (alter (fun o =>
                 match o with
                 | ODict items => ODict (dict_set key new items)
                 | OList elems => OList elems
                 end) l (objects st))
       (fernet_keys st) (the_world st)).

(** [result.append(new)], in place, on the list at [l]. *)
Definition h_append (l : nat) (new : pyval) : HM unit :=
  fun st =>
    (Ok tt,
     Store _
       (alter (fun o =>
                 match o with
                 | OList elems => OList (elems ++ [new])
                 | ODict items => ODict items
                 end) l (objects st))
       (fernet_keys st) (the_world st)).

(** A computation on the world alone, run in the store. *)
Definition lift {A} (m : M A) : HM A :=
  fun st =>
    let '(r, w) := m (the_world st) in
    (r, Store _ (objects st) (fernet_keys st) w).

Definition h_keys : HM (list Key) := fun st => (Ok (fernet_keys st), st).

(** What [bytes(value, "utf-8")] sees of a value: the string, or that it
    is none. *)
Definition shallow (v : pyval) : value :=
  match v with
  | PStr s => VStr s
  | PBool b => VBool b
  | PInt z => VInt z
  | PFloat z => VFloat z
  | PNone => VNone
  | PRef _ => VList []
  end.

(** The tree a value denotes in a heap; [None] past the depth [fuel]. *)
Fixpoint reify (fuel : nat) (h : gmap nat obj) (v : pyval) : option value :=
  match fuel with
  | 0 => None
  | S fuel' =>
      match v with
      | PNone => Some VNone
      | PBool b => Some (VBool b)
      | PInt z => Some (VInt z)
      | PFloat z => Some (VFloat z)
      | PStr s => Some (VStr s)
      | PRef l =>
          match h !! l with
          | Some (OList elems) => VList <$> mapM (reify fuel' h) elems
          | Some (ODict items) =>
              VDict <$> mapM (fun kv =>
                                pair (fst kv) <$> reify fuel' h (snd kv))
                             items
          | None => None
          end
      end
  end.

(** The objects [json.loads] builds for a parsed value. *)
Fixpoint h_embed (v : value) : HM pyval :=
  match v with
  | VNone => ret PNone
  | VBool b => ret (PBool b)
  | VInt z => ret (PInt z)
  | VFloat z => ret (PFloat z)
  | VStr s => ret (PStr s)
  | VList elems =>
      let! elems' :=
        (fix go (l : list value) : HM (list pyval) :=
           match l with
           | [] => ret []
           | x :: r =>
               let! x' := h_embed x in
               let! r' := go r in
               ret (x' :: r')
           end) elems in
      let! l := h_alloc (OList elems') in
      ret (PRef l)
  | VDict items =>
      let! items' :=
        (fix go (l : list (string * value)) : HM (list (string * pyval)) :=
           match l with
           | [] => ret []
           | (key, x) :: r =>
               let! x' := h_embed x in
               let! r' := go r in
               ret ((key, x') :: r')
           end) items in
      let! l := h_alloc (ODict items') in
      ret (PRef l)
  end.

(** [for x in l: body(x)] *)
Fixpoint h_for {A} (l : list A) (body : A -> HM unit) : HM unit :=
  match l with
  | [] => ret tt
  | x :: r =>
      let! _ := body x in
      h_for r body
  end.

Definition _encrypt (v : pyval) : HM pyval :=
  let! keys := h_keys in
  let! token := lift (BaseEncryptedField._encrypt keys (shallow v)) in
  ret (PStr token).

Definition _decrypt (v : pyval) : HM string :=
  let! keys := h_keys in
  lift (BaseEncryptedField._decrypt keys (shallow v)).

(** The results of a loop, up to the first exception. *)
Fixpoint collect {A} (l : list (result A)) : result (list A) :=
  match l with
  | [] => Ok []
  | Ok a :: rest =>
      match collect rest with
      | Ok r => Ok (a :: r)
      | Raise e => Raise e
      end
  | Raise e :: _ => Raise e
  end.

(** The tree [json.dumps] reads below a value.  The encoder keeps the
    dicts and lists it is inside of ([markers]) and raises [ValueError] on
    meeting one of them again; past the depth [fuel] it raises
    [RecursionError]; what is neither a scalar nor a dict or list is not
    serializable, a [TypeError]. *)
Fixpoint json_tree (fuel : nat) (h : gmap nat obj) (markers : list nat)
    (v : pyval) : result value :=
  match v with
  | PNone => Ok VNone
  | PBool b => Ok (VBool b)
  | PInt z => Ok (VInt z)
  | PFloat z => Ok (VFloat z)
  | PStr s => Ok (VStr s)
  | PRef l =>
      match fuel with
      | 0 => Raise RecursionError
      | S fuel' =>
          if bool_decide (l ∈ markers)
          then Raise (ValueError "Circular reference detected")
          else
            match h !! l with
            | Some (OList elems) =>
                match collect (map (json_tree fuel' h (l :: markers)) elems) with
                | Ok ts => Ok (VList ts)
                | Raise e => Raise e
                end
            | Some (ODict items) =>
                match collect
                        (map (fun kv =>
                                match json_tree fuel' h (l :: markers) (snd kv)
                                with
                                | Ok t => Ok (fst kv, t)
                                | Raise e => Raise e
                                end) items) with
                | Ok its => Ok (VDict its)
                | Raise e => Raise e
                end
            | None => Raise TypeError
            end
      end
  end.

(** [json.dumps(value)] *)
Definition h_dumps (fuel : nat) (v : pyval) : HM string :=
  fun st =>
    match json_tree fuel (objects st) [] v with
    | Ok t => lift (call_dumps t) st
    | Raise e => (Raise e, st)
    end.

Definition h_loads (s : string) : HM pyval :=
  let! t := lift (call_loads s) in
  h_embed t.

Definition _encrypt_or_decrypt_all (fuel : nat) (v : pyval) (encrypt : bool)
    : HM pyval :=
  if encrypt then
    let! s := h_dumps fuel v in
    _encrypt (PStr s)
  else
    let! s := _decrypt v in
    h_loads s.

(** [isinstance(value, (dict, list))]: the value refers to an object. *)
Definition is_structure (v : pyval) : HM bool :=
  match v with
  | PRef l =>
      let! o := h_lookup l in
      ret (bool_decide (is_Some o))
  | _ => ret false
  end.

Definition _encrypt_or_decrypt_target_field (fuel : nat) (v : pyval)
    (encrypt : bool) : HM pyval :=
  let! structured := is_structure v in
  if structured then _encrypt_or_decrypt_all fuel v encrypt
  else if encrypt then _encrypt v
  else
    let! plaintext := _decrypt v in
    ret (PStr plaintext).

(** The traversal; [fuel] bounds the depth of the recursion, past which
    Python raises [RecursionError].  [value.copy()] is a new dict with the
    items of [value]; the loop reads each item of the copy once and then
    assigns to its key, so it meets the items of [value] in order.  The
    list comprehension appends to a new list. *)
Fixpoint _encrypt_or_decrypt_value (fuel : nat)
    (target_fields : option (list string)) (v : pyval) (encrypt : bool)
    : HM pyval :=
  match fuel with
  | 0 => raise RecursionError
  | S fuel' =>
      match v with
      | PRef l =>
          let! o := h_lookup l in
          match o with
          | Some (ODict items) =>
              (* _encrypt_or_decrypt_dict *)
              let! return_value := h_alloc (ODict items) in
              let! _ :=
                h_for items (fun kv =>
                  let! hit :=
                    match target_fields with
                    | Some names => ret (bool_decide (fst kv ∈ names))
                    | None => raise TypeError
                    end in
                  let! new :=
                    (if hit
                     then _encrypt_or_decrypt_target_field fuel' (snd kv)
                            encrypt
                     else _encrypt_or_decrypt_value fuel' target_fields
                            (snd kv) encrypt) in
                  h_setitem return_value (fst kv) new) in
              ret (PRef return_value)
          | Some (OList elems) =>
              (* _encrypt_or_decrypt_list *)
              let! return_value := h_alloc (OList []) in
              let! _ :=
                h_for elems (fun item =>
                  let! new :=
                    _encrypt_or_decrypt_value fuel' target_fields item
                      encrypt in
                  h_append return_value new) in
              ret (PRef return_value)
          | None => ret v
          end
      | _ => ret v
      end
  end.

Definition get_prep_value (fuel : nat) (self : EncryptedJSONField.t)
    (v : pyval) : HM pyval :=
  if EncryptedJSONField.encrypt_all self
  then _encrypt_or_decrypt_all fuel v true
  else _encrypt_or_decrypt_value fuel
         (EncryptedJSONField.target_fields self) v true.

Definition to_python (fuel : nat) (self : EncryptedJSONField.t) (v : pyval)
    : HM pyval :=
  match v with
  | PStr s =>
      if EncryptedJSONField._already_decrypted self then ret v
      else if EncryptedJSONField.encrypt_all self
      then _encrypt_or_decrypt_all fuel v false
      else
        let! parsed := h_loads s in
        _encrypt_or_decrypt_value fuel
          (EncryptedJSONField.target_fields self) parsed false
  | _ => ret v
  end.

(** A value that refers to an object of [h0] is answered by a reference
    to an object that is not one of [h0]: a copy. *)
Definition rebuilt (h0 : gmap nat obj) (v v' : pyval) : Prop :=
  forall l, v = PRef l -> is_Some (h0 !! l) ->
            exists l', v' = PRef l' /\ h0 !! l' = None.

(** Every object of [h0] is in the store, as it is in [h0]. *)
Definition keeps (h0 : gmap nat obj) (st : store) : Prop :=
  h0 ⊆ objects st.

(** [m] changes no object of [h0], whatever it returns or raises, leaves
    the key ring as it is, and its result satisfies [Q]. *)
Definition frames {A} (h0 : gmap nat obj) (m : HM A) (Q : A -> Prop) : Prop :=
  forall st r st',
    keeps h0 st ->
    m st = (r, st') ->
    keeps h0 st'
    /\ fernet_keys st' = fernet_keys st
    /\ forall a, r = Ok a -> Q a.
End Heap.
End Objects.


(** ** The heap walk and the tree walk *)

(** What it means for the traversal on the heap to compute what the
    traversal on trees computes. *)
Module Simulation.
Section Defs.
Context `{Runtime}.
Import Objects.

Variable self : EncryptedJSONField.t.

(** The store holds the key ring of the field. *)
Definition agrees (st : store) : Prop :=
  fernet_keys st = EncryptedJSONField.fernet_keys self.

(** [v'] denotes [t'] in a part of [h'] that shares no address with
    [h]. *)
Definition denotes_new (h h' : gmap nat obj) (v' : pyval) (t' : value) : Prop :=
  exists hnew n',
    hnew ⊆ h' /\ dom hnew ## dom h /\ reify n' hnew v' = Some t'.

(** The heap walk answers as the tree walk does. *)
Definition sim_result (h h' : gmap nat obj) (r : result value)
    (r' : result pyval) : Prop :=
  match r with
  | Ok t' => exists v', r' = Ok v' /\ denotes_new h h' v' t'
  | Raise e => r' = Raise e
  end.

(** The simulation at depth [f]. *)
Definition sim_at (f : nat) : Prop :=
  forall v t encrypt st,
    agrees st ->
    reify f (objects st) v = Some t ->
    wf_value t = true ->
    exists r' st',
      Objects._encrypt_or_decrypt_value f (EncryptedJSONField.target_fields self) v encrypt st = (r', st')
      /\ the_world st'
         = snd (EncryptedJSONField._encrypt_or_decrypt_value self t encrypt
                  (the_world st))
      /\ objects st ⊆ objects st'
      /\ fernet_keys st' = fernet_keys st
      /\ sim_result (objects st) (objects st')
           (fst (EncryptedJSONField._encrypt_or_decrypt_value self t encrypt
                   (the_world st))) r'.

(** The body of the loop over the items of the copy. *)
Definition dict_body (f : nat) (encrypt : bool) (l' : nat)
    (kv : string * pyval) : HM unit :=
  let! hit :=
    match (EncryptedJSONField.target_fields self) with
    | Some names => ret (bool_decide (fst kv ∈ names))
    | None => raise TypeError
    end in
  let! new :=
    (if hit
     then Objects._encrypt_or_decrypt_target_field f (snd kv) encrypt
     else Objects._encrypt_or_decrypt_value f (EncryptedJSONField.target_fields self) (snd kv) encrypt) in
  h_setitem l' (fst kv) new.

(** The body of the list comprehension. *)
Definition list_body (f : nat) (encrypt : bool) (l' : nat) (item : pyval)
    : HM unit :=
  let! new := Objects._encrypt_or_decrypt_value f (EncryptedJSONField.target_fields self) item encrypt in
  h_append l' new.

(** What an entry becomes, on trees and on the heap. *)
Definition pure_step (hit : bool) (tfield : value) (encrypt : bool) : M value :=
  if hit
  then EncryptedJSONField._encrypt_or_decrypt_target_field self tfield encrypt
  else EncryptedJSONField._encrypt_or_decrypt_value self tfield encrypt.

Definition heap_step (f : nat) (hit : bool) (field : pyval) (encrypt : bool)
    : HM pyval :=
  if hit then Objects._encrypt_or_decrypt_target_field f field encrypt
  else Objects._encrypt_or_decrypt_value f (EncryptedJSONField.target_fields self) field encrypt.

End Defs.
End Simulation.

(** * The other methods of the fields *)

(** ** The keys of the settings *)

(** [BaseEncryptedField.keys] and [BaseEncryptedField.fernet_keys] are
    cached properties: the first access computes the value from
    [settings.MODEL_ENCRYPTION_KEYS] and stores it in the instance; later
    accesses read the stored value.  [Fernet(key)] raises on a malformed
    key. *)
Module Settings.
Section Keys.
Context `{Runtime}.

(** [Fernet(key)]: the Fernet object, or the exception of a malformed
    key. *)
Variable fernet_new : bytes -> result Key.

(** The two entries of the instance [__dict__] the properties fill. *)
Record cache : Type := Cache {
  keys_cached : option (list bytes);
  fernet_keys_cached : option (list Key)
}.

Definition empty_cache : cache := Cache None None.

(** [self.keys] *)
Definition keys (MODEL_ENCRYPTION_KEYS : list string) : ST cache (list bytes) :=
  fun c =>
    match keys_cached c with
    | Some ks => (Ok ks, c)
    | None =>
        let ks := map str_encode MODEL_ENCRYPTION_KEYS in
        (Ok ks, Cache (Some ks) (fernet_keys_cached c))
    end.

(** [[Fernet(key) for key in ks]]: the first malformed key raises. *)
Fixpoint fernet_all (ks : list bytes) : result (list Key) :=
  match ks with
  | [] => Ok []
  | key :: rest =>
      match fernet_new key with
      | Raise e => Raise e
      | Ok fernet =>
          match fernet_all rest with
          | Raise e => Raise e
          | Ok fernets => Ok (fernet :: fernets)
          end
      end
  end.

(** [self.fernet_keys] *)
Definition fernet_keys (MODEL_ENCRYPTION_KEYS : list string)
    : ST cache (list Key) :=
  fun c =>
    match fernet_keys_cached c with
    | Some fernets => (Ok fernets, c)
    | None =>
        (let! ks := keys MODEL_ENCRYPTION_KEYS in
         (fun c1 =>
            match fernet_all ks with
            | Ok fernets => (Ok fernets, Cache (keys_cached c1) (Some fernets))
            | Raise e => (Raise e, c1)
            end)) c
    end.

(** [_encrypt] and [_decrypt] as the methods of an instance whose key
    ring is still to be read from the settings. *)
Definition _encrypt (MODEL_ENCRYPTION_KEYS : list string) (v : value)
    : ST (cache * world) string :=
  fun '(c, w) =>
    match fernet_keys MODEL_ENCRYPTION_KEYS c with
    | (Ok ring, c') =>
        let '(r, w') := BaseEncryptedField._encrypt ring v w in (r, (c', w'))
    | (Raise e, c') => (Raise e, (c', w))
    end.

Definition _decrypt (MODEL_ENCRYPTION_KEYS : list string) (v : value)
    : ST (cache * world) string :=
  fun '(c, w) =>
    match fernet_keys MODEL_ENCRYPTION_KEYS c with
    | (Ok ring, c') =>
        let '(r, w') := BaseEncryptedField._decrypt ring v w in (r, (c', w'))
    | (Raise e, c') => (Raise e, (c', w))
    end.
End Keys.
End Settings.

(** ** [clean] and [deconstruct] *)

(** [clean] sets the attribute [_already_decrypted] on the field, calls
    the [clean] of the base class and deletes the attribute.  The base
    class is Django's; its [clean] is the parameter [super_clean], which
    receives the field as it is during the call. *)
Module TextFieldHooks.
Section Clean.
Context `{Runtime}.

Definition with_flag (self : EncryptedTextField.t) (flag : bool)
    : EncryptedTextField.t :=
  EncryptedTextField.Field (EncryptedTextField.fernet_keys self) flag.

Variable super_clean : EncryptedTextField.t -> value -> M value.

Definition clean (v : value) : ST (EncryptedTextField.t * world) value :=
  fun '(self, w) =>
    let self1 := with_flag self true in
    match super_clean self1 v w with
    | (Ok return_value, w') => (Ok return_value, (with_flag self1 false, w'))
    | (Raise e, w') => (Raise e, (self1, w'))
    end.

(** Django's [Field.clean]: [to_python], then the validators, here
    [validate]; it returns the converted value. *)
Definition field_clean (validate : value -> M unit)
    (self : EncryptedTextField.t) (v : value) : M value :=
  let! converted := EncryptedTextField.to_python self v in
  let! _ := validate converted in
  ret converted.
End Clean.
End TextFieldHooks.

Module JSONFieldHooks.
Section Clean.
Context `{Runtime}.

Definition with_flag (self : EncryptedJSONField.t) (flag : bool)
    : EncryptedJSONField.t :=
  EncryptedJSONField.Field (EncryptedJSONField.fernet_keys self)
    (EncryptedJSONField.encrypt_all self)
    (EncryptedJSONField.target_fields self) flag.

Variable super_clean : EncryptedJSONField.t -> value -> M value.

Definition clean (v : value) : ST (EncryptedJSONField.t * world) value :=
  fun '(self, w) =>
    let self1 := with_flag self true in
    match super_clean self1 v w with
    | (Ok return_value, w') => (Ok return_value, (with_flag self1 false, w'))
    | (Raise e, w') => (Raise e, (self1, w'))
    end.

(** Django's [Field.clean]: [to_python], then the validators, here
    [validate]; it returns the converted value. *)
Definition field_clean (validate : value -> M unit)
    (self : EncryptedJSONField.t) (v : value) : M value :=
  let! converted := EncryptedJSONField.to_python self v in
  let! _ := validate converted in
  ret converted.

(** A keyword argument of a field. *)
Inductive kwarg : Type :=
  | KBool (b : bool)
  | KNames (names : list string)
  | KOther (v : value).

(** The keyword arguments [deconstruct] returns, from those of the base
    class. *)
Definition deconstruct (self : EncryptedJSONField.t)
    (kwargs : gmap string kwarg) : gmap string kwarg :=
  let kwargs1 :=
    if EncryptedJSONField.encrypt_all self
    then <["encrypt_all" := KBool (EncryptedJSONField.encrypt_all self)]> kwargs
    else kwargs in
  if EncryptedJSONField.truthy (EncryptedJSONField.target_fields self)
  then match EncryptedJSONField.target_fields self with
       | Some names => <["target_fields" := KNames names]> kwargs1
       | None => kwargs1
       end
  else kwargs1.

(** The constructor called with keyword arguments: an argument that is
    not given takes its default, [False] and [None]. *)
Definition init_from_kwargs (keys : BaseEncryptedField.key_ring)
    (kwargs : gmap string kwarg) : result EncryptedJSONField.t :=
  EncryptedJSONField.__init__ keys
    (match kwargs !! "encrypt_all" with
     | Some (KBool b) => b
     | _ => false
     end)
    (match kwargs !! "target_fields" with
     | Some (KNames names) => Some names
     | _ => None
     end).
End Clean.
End JSONFieldHooks.

(** ** What a call adds to the world *)

Section Emits.
Context `{Runtime}.

Definition is_encrypt_event (ev : event) : bool :=
  match ev with EvEncrypt _ _ => true | _ => false end.

(** The calls of the sealing direction, and those of the other. *)
Definition seal_event (ev : event) : bool :=
  match ev with EvEncrypt _ _ | EvDumps _ => true | _ => false end.

Definition unseal_event (ev : event) : bool :=
  match ev with EvDecrypt _ _ | EvLoads _ => true | _ => false end.

Definition direction_event (encrypt : bool) : event -> bool :=
  if encrypt then seal_event else unseal_event.

(** Whatever [m] returns or raises, it appends calls that all satisfy
    [allowed], and issues as many tokens as it makes [encrypt] calls. *)
Definition emits {A} (allowed : event -> bool) (m : M A) : Prop :=
  forall w r w',
    m w = (r, w') ->
    exists evs,
      w' = after w (length (filter (fun ev => is_encrypt_event ev = true) evs))
             evs
      /\ forallb allowed evs = true.
End Emits.

(** ** What the walk leaves as it is *)

(** Equality of scalars. *)
Definition scalar_eqb (v v' : value) : bool :=
  match v, v' with
  | VNone, VNone => true
  | VBool b, VBool b' => bool_decide (b = b')
  | VInt z, VInt z' => bool_decide (z = z')
  | VFloat z, VFloat z' => bool_decide (z = z')
  | VStr s, VStr s' => bool_decide (s = s')
  | _, _ => false
  end.

(** [v'] is [v] but for the values of the target entries the walk meets:
    a list has become a list of the same length, a dict a dict with the
    same keys in the same order, and every scalar that is not the value of
    a target entry is where it was. *)
Fixpoint same_outside_targets (names : list string) (v v' : value) : bool :=
  match v, v' with
  | VList elems, VList elems' =>
      (fix go (l l' : list value) : bool :=
         match l, l' with
         | [], [] => true
         | x :: r, x' :: r' => same_outside_targets names x x' && go r r'
         | _, _ => false
         end) elems elems'
  | VDict items, VDict items' =>
      (fix go (l l' : list (string * value)) : bool :=
         match l, l' with
         | [], [] => true
         | (k, x) :: r, (k', x') :: r' =>
             bool_decide (k = k')
             && (if bool_decide (k ∈ names) then true
                 else same_outside_targets names x x')
             && go r r'
         | _, _ => false
         end) items items'
  | VList _, _ | VDict _, _ => false
  | _, _ => scalar_eqb v v'
  end.

(** Sealing [v] with the field [self] succeeds, keeps the value well
    formed, and the walk of the field [self'] in the other direction gives
    [v] back. *)
Definition walk_roundtrips_between `{Runtime}
    (self self' : EncryptedJSONField.t) (v : value) : Prop :=
  forall w, exists v' w',
    EncryptedJSONField._encrypt_or_decrypt_value self v true w = (Ok v', w')
    /\ (wf_value v = true -> wf_value v' = true)
    /\ forall w2, exists w2',
         EncryptedJSONField._encrypt_or_decrypt_value self' v' false w2
         = (Ok v, w2').

(** ** What a target entry becomes, and what comes back for it *)

(** A value [_encrypt_or_decrypt_target_field] encrypts: a string, a dict
    or a list. *)
Definition sealable (v : value) : bool :=
  isinstance_str v || isinstance_dict v || isinstance_list v.




(** What the code reads back for [v] under [TargetFields names]: the
    value of a target entry that was a dict or a list comes back as its
    JSON text, a string; everything else comes back as it was. *)
Fixpoint read_back `{Runtime} (names : list string) (v : value) : value :=
  match v with
  | VList elems => VList (map (read_back names) elems)
  | VDict items =>
      VDict ((fix go (l : list (string * value)) : list (string * value) :=
                match l with
                | [] => []
                | (key, x) :: rest =>
                    (key,
                     if bool_decide (key ∈ names)
                     then (if isinstance_dict x || isinstance_list x
                           then VStr (json_dumps x)
                           else x)
                     else read_back names x) :: go rest
                end) items)
  | _ => v
  end.

(** Sealing [v] with the field [self] succeeds, keeps the value well
    formed, and the walk of the field [self'] in the other direction gives
    [read_back names v]. *)
Definition walk_reads_back `{Runtime} (self self' : EncryptedJSONField.t)
    (names : list string) (v : value) : Prop :=
  forall w, exists v' w',
    EncryptedJSONField._encrypt_or_decrypt_value self v true w = (Ok v', w')
    /\ (wf_value v = true -> wf_value v' = true)
    /\ forall w2, exists w2',
         EncryptedJSONField._encrypt_or_decrypt_value self' v' false w2
         = (Ok (read_back names v), w2').

(** ** A reference runtime *)

(** An instance of [Runtime] on which the laws assumed of Fernet, of the
    codec and of [json] all hold; the theorems below are applied to it.
    A key is one byte; a token is a marker, the key, the low byte of the
    call number as a digit and the data; text is read one byte per character; a
    value is serialised through its numbering as a tree. *)
Module Reference.

Definition nonce (n : nat) : byte := default x30 (Byte.of_nat (48 + n mod 10)).

Definition encrypt (k : byte) (n : nat) (data : bytes) : bytes :=
  x47 :: k :: nonce n :: data.

Definition decrypt (k : byte) (token : bytes) : option bytes :=
  match token with
  | m :: k' :: _ :: data =>
      if Byte.eqb m x47 && Byte.eqb k' k then Some data else None
  | _ => None
  end.

Definition leaf : Type := (bool + Z) + (Z + string).

Fixpoint value_to_tree (v : value) : gen_tree leaf :=
  match v with
  | VNone => GenNode 0 []
  | VBool b => GenLeaf (inl (inl b))
  | VInt z => GenLeaf (inl (inr z))
  | VFloat z => GenLeaf (inr (inl z))
  | VStr s => GenLeaf (inr (inr s))
  | VList elems => GenNode 1 (map value_to_tree elems)
  | VDict items =>
      GenNode 2
        (map (fun kv =>
                GenNode 3 [GenLeaf (inr (inr (fst kv))); value_to_tree (snd kv)])
             items)
  end.

Fixpoint tree_to_value (t : gen_tree leaf) : value :=
  match t with
  | GenLeaf (inl (inl b)) => VBool b
  | GenLeaf (inl (inr z)) => VInt z
  | GenLeaf (inr (inl z)) => VFloat z
  | GenLeaf (inr (inr s)) => VStr s
  | GenNode 1 ts => VList (map tree_to_value ts)
  | GenNode 2 ts =>
      VDict (map (fun c =>
                    match c with
                    | GenNode 3 [GenLeaf (inr (inr k)); t'] =>
                        (k, tree_to_value t')
                    | _ => ("", VNone)
                    end) ts)
  | GenNode _ _ => VNone
  end.

Fixpoint pos_dump (p : positive) : string :=
  match p with
  | xI q => String "1"%char (pos_dump q)
  | xO q => String "0"%char (pos_dump q)
  | xH => String "."%char EmptyString
  end.

Fixpoint pos_load (s : string) : option positive :=
  match s with
  | String "1"%char r => xI <$> pos_load r
  | String "0"%char r => xO <$> pos_load r
  | String "."%char EmptyString => Some xH
  | _ => None
  end.

Definition dumps (v : value) : string := pos_dump (encode (value_to_tree v)).

Definition loads (s : string) : option value :=
  p ← pos_load s; tree_to_value <$> decode p.

#[export] Instance runtime : Runtime := {|
  Key := byte;
  fernet_encrypt := encrypt;
  fernet_decrypt := decrypt;
  str_encode := String.list_byte_of_string;
  bytes_decode := fun data => Some (String.string_of_list_byte data);
  json_dumps := dumps;
  json_loads := loads
|}.

Definition w0 : world := World runtime 0 [].

Definition old_key : byte := x6f.
Definition new_key : byte := x6e.

(** A field with [target_fields=["secret"]]. *)
Definition secret_field (keys : list byte) : EncryptedJSONField.t :=
  EncryptedJSONField.Field keys false (Some ["secret"]) false.

(** A field with [encrypt_all=True]. *)
Definition blob_field (keys : list byte) : EncryptedJSONField.t :=
  EncryptedJSONField.Field keys true None false.

(** *** A second runtime, with UTF-8 and tokens that are text

    Here a character is a code point below 256 and the codec is UTF-8 on
    these: one byte below 128, two bytes from 128 on, and [utf8_decode]
    refuses every byte sequence that is not such an encoding.  A token
    carries the key and the data as hexadecimal digits, so that, like a
    Fernet token, it is ASCII text whatever bytes were encrypted.  The
    laws hold of this runtime too.  It is not an instance: it is named
    where it is used. *)

Definition hex_digit (n : N) : byte :=
  default x30 (Byte.of_N (if (n <? 10)%N then 48 + n else 87 + n)).

Definition hex_value (b : byte) : option N :=
  let n := Byte.to_N b in
  if (48 <=? n)%N && (n <? 58)%N then Some (n - 48)%N
  else if (97 <=? n)%N && (n <? 103)%N then Some (n - 87)%N
  else None.

Definition hex_byte (b : byte) : bytes :=
  [hex_digit (Byte.to_N b / 16); hex_digit (Byte.to_N b mod 16)].

Definition hex (data : bytes) : bytes := flat_map hex_byte data.

Fixpoint unhex (text : bytes) : option bytes :=
  match text with
  | [] => Some []
  | h :: l :: rest =>
      match hex_value h, hex_value l, unhex rest with
      | Some a, Some b, Some r =>
          match Byte.of_N (16 * a + b) with
          | Some x => Some (x :: r)
          | None => None
          end
      | _, _, _ => None
      end
  | [_] => None
  end.

Definition utf8_char (c : ascii) : bytes :=
  let n := N_of_ascii c in
  if (n <? 128)%N then [byte_of_ascii c]
  else [default x00 (Byte.of_N (192 + n / 64));
        default x00 (Byte.of_N (128 + n mod 64))].

Fixpoint utf8_encode (s : string) : bytes :=
  match s with
  | EmptyString => []
  | String c r => utf8_char c ++ utf8_encode r
  end.

Fixpoint utf8_decode (data : bytes) : option string :=
  match data with
  | [] => Some EmptyString
  | b :: rest =>
      let n := Byte.to_N b in
      if (n <? 128)%N then
        match utf8_decode rest with
        | Some s => Some (String (ascii_of_byte b) s)
        | None => None
        end
      else if (n =? 194)%N || (n =? 195)%N then
        match rest with
        | b2 :: rest' =>
            let m := Byte.to_N b2 in
            if (128 <=? m)%N && (m <? 192)%N
            then match utf8_decode rest' with
                 | Some s =>
                     Some (String (ascii_of_N ((n - 192) * 64 + (m - 128))) s)
                 | None => None
                 end
            else None
        | [] => None
        end
      else None
  end.

Definition is_ascii (b : byte) : bool := (Byte.to_N b <? 128)%N.

Definition text_encrypt (k : byte) (n : nat) (data : bytes) : bytes :=
  x47 :: hex_byte k ++ nonce n :: hex data.

Definition text_decrypt (k : byte) (token : bytes) : option bytes :=
  match token with
  | m :: k1 :: k2 :: _ :: payload =>
      match unhex [k1; k2] with
      | Some [k'] =>
          if Byte.eqb m x47 && Byte.eqb k' k then unhex payload else None
      | _ => None
      end
  | _ => None
  end.

Definition utf8_runtime : Runtime := {|
  Key := byte;
  fernet_encrypt := text_encrypt;
  fernet_decrypt := text_decrypt;
  str_encode := utf8_encode;
  bytes_decode := utf8_decode;
  json_dumps := dumps;
  json_loads := loads
|}.

(** The token of the one byte 0xff under [old_key], first of the
    process: the marker, the key [6f], the call number and the data
    [ff]. *)
Definition token_of_xff : string := "G6f0ff".

End Reference.

(** [Fernet(key)] for the reference runtime: a key is one byte. *)
Definition reference_fernet_new (key : bytes) : result byte :=
  match key with
  | [b] => Ok b
  | _ => Raise (ValueError "Fernet key must be 32 url-safe base64-encoded bytes.")
  end.

(** A heap with the dict [{"secret": "x", "tags": ["a"]}] at address 0. *)
Definition heap0 : gmap nat Objects.obj :=
  <[0 := Objects.ODict [("secret", Objects.PStr "x");
                        ("tags", Objects.PRef 1)]]>
    (<[1 := Objects.OList [Objects.PStr "a"]]> ∅).

Definition store0 : @Objects.store Reference.runtime :=
  Objects.Store Reference.runtime heap0 [Reference.old_key] Reference.w0.

(** A heap with a list at address 0 that holds itself: [l = []] followed
    by [l.append(l)]. *)
Definition heap_cycle : gmap nat Objects.obj :=
  <[0 := Objects.OList [Objects.PRef 0]]> ∅.



(** * Properties *)

(** ** Induction on values *)

Lemma value_ind (P : value -> Prop) :
  P VNone ->
  (forall b, P (VBool b)) ->
  (forall z, P (VInt z)) ->
  (forall z, P (VFloat z)) ->
  (forall s, P (VStr s)) ->
  (forall elems, Forall P elems -> P (VList elems)) ->
  (forall items, Forall (fun kv => P (snd kv)) items -> P (VDict items)) ->
  forall v, P v.
Proof.
  intros HN HB HI HF HS HL HD.
  fix IH 1. intros [|b|z|z|s|elems|items].
  - exact HN.
  - exact (HB b).
  - exact (HI z).
  - exact (HF z).
  - exact (HS s).
  - apply HL. induction elems as [|x r IHr]; constructor; [apply IH | exact IHr].
  - apply HD. induction items as [|[k x] r IHr]; constructor;
      [apply IH | exact IHr].
Qed.

(** ** Running computations *)

Section Monad.
Context `{Runtime}.

Lemma after_0_nil (w : world) : after w 0 [] = w.
Proof. destruct w as [c t]. unfold after. simpl. by rewrite app_nil_r. Qed.

Lemma after_after (w : world) n1 n2 evs1 evs2 :
  after (after w n1 evs1) n2 evs2 = after w (n2 + n1) (evs1 ++ evs2).
Proof.
  unfold after. simpl. f_equal; [lia | by rewrite <- app_assoc].
Qed.

Lemma bind_ok {S A B} (m : ST S A) (f : A -> ST S B) w a w1 :
  m w = (Ok a, w1) -> bind m f w = f a w1.
Proof. unfold bind. by intros ->. Qed.

Lemma bind_raise {S A B} (m : ST S A) (f : A -> ST S B) w e w1 :
  m w = (Raise e, w1) -> bind m f w = (Raise e, w1).
Proof. unfold bind. by intros ->. Qed.

Lemma bind_inv_ok {S A B} (m : ST S A) (f : A -> ST S B) w b w2 :
  bind m f w = (Ok b, w2) ->
  exists a w1, m w = (Ok a, w1) /\ f a w1 = (Ok b, w2).
Proof.
  unfold bind. destruct (m w) as [[a|e] w1]; [eauto | discriminate].
Qed.

Lemma bind_inv_raise {S A B} (m : ST S A) (f : A -> ST S B) w e w2 :
  bind m f w = (Raise e, w2) ->
  m w = (Raise e, w2)
  \/ exists a w1, m w = (Ok a, w1) /\ f a w1 = (Raise e, w2).
Proof.
  unfold bind. destruct (m w) as [[a|e'] w1]; [eauto | intros [= -> ->]; by left].
Qed.

Lemma call_encrypt_run k data w :
  call_encrypt k data w
  = (Ok (fernet_encrypt k (clock w) data), after w 1 [EvEncrypt k data]).
Proof. reflexivity. Qed.

Lemma call_decrypt_run k token w :
  call_decrypt k token w
  = (Ok (fernet_decrypt k token), after w 0 [EvDecrypt k token]).
Proof. reflexivity. Qed.

Lemma call_dumps_run v w :
  call_dumps v w = (Ok (json_dumps v), after w 0 [EvDumps v]).
Proof. reflexivity. Qed.

Lemma call_loads_run s w :
  call_loads s w
  = (match json_loads s with Some v => Ok v | None => Raise JSONDecodeError end,
     after w 0 [EvLoads s]).
Proof. unfold call_loads, bind, emit. simpl. by destruct (json_loads s). Qed.
End Monad.

(** ** The key ring *)

Section KeyRing.
Context `{Runtime}.
Import BaseEncryptedField.

Lemma _encrypt_run k rest s t w :
  bytes_decode (fernet_encrypt k (clock w) (str_encode s)) = Some t ->
  _encrypt (k :: rest) (VStr s) w
  = (Ok t, after w 1 [EvEncrypt k (str_encode s)]).
Proof.
  intros Ht. unfold _encrypt, bytes_utf8, call_encrypt, decode_utf8, bind.
  simpl. by rewrite Ht.
Qed.

Lemma _encrypt_not_str ring v w :
  isinstance_str v = false ->
  exists e, _encrypt ring v w = (Raise e, w) /\ (e = TypeError \/ e = IndexError).
Proof.
  intros Hv. destruct ring as [|k rest].
  - exists IndexError. auto.
  - exists TypeError. split; [|auto]. by destruct v.
Qed.

Lemma _decrypt_cons_reject k rest token w :
  rejects k token ->
  _decrypt (k :: rest) (VStr token) w
  = _decrypt rest (VStr token) (after w 0 [EvDecrypt k (str_encode token)]).
Proof.
  intros Hk. simpl. unfold bytes_utf8, call_decrypt, bind. simpl.
  by rewrite Hk.
Qed.

Lemma _decrypt_cons_accept k rest token plaintext w :
  fernet_decrypt k (str_encode token) = Some plaintext ->
  _decrypt (k :: rest) (VStr token) w
  = decode_utf8 plaintext (after w 0 [EvDecrypt k (str_encode token)]).
Proof.
  intros Hk. simpl. unfold bytes_utf8, call_decrypt, bind. simpl.
  by rewrite Hk.
Qed.

Lemma _decrypt_all_reject ring token w :
  Forall (fun k => rejects k token) ring ->
  _decrypt ring (VStr token) w
  = (Raise DecryptionFailed, after w 0 (attempts ring token)).
Proof.
  intros Hall. revert w. induction Hall as [|k rest Hk _ IH]; intros w.
  - simpl. unfold raise. by rewrite after_0_nil.
  - rewrite _decrypt_cons_reject by done. rewrite IH, after_after. done.
Qed.

Lemma _decrypt_first_accept pre k post token plaintext w :
  Forall (fun k' => rejects k' token) pre ->
  fernet_decrypt k (str_encode token) = Some plaintext ->
  _decrypt (pre ++ k :: post) (VStr token) w
  = decode_utf8 plaintext (after w 0 (attempts (pre ++ [k]) token)).
Proof.
  intros Hpre Hk. revert w. induction Hpre as [|k' pre' Hk' _ IH]; intros w.
  - simpl app. by rewrite (_decrypt_cons_accept _ _ _ _ _ Hk).
  - simpl app. rewrite _decrypt_cons_reject by done.
    rewrite IH. by rewrite after_after.
Qed.

Lemma _decrypt_failed_inv ring token w :
  outcome (_decrypt ring (VStr token)) w = Raise DecryptionFailed ->
  Forall (fun k => rejects k token) ring.
Proof.
  revert w. induction ring as [|k rest IH]; intros w Hout; [constructor|].
  destruct (fernet_decrypt k (str_encode token)) as [plaintext|] eqn:Hk.
  - unfold outcome in Hout. rewrite (_decrypt_cons_accept _ _ _ _ _ Hk) in Hout.
    unfold decode_utf8 in Hout. by destruct (bytes_decode plaintext).
  - constructor; [done|]. unfold outcome in Hout.
    rewrite _decrypt_cons_reject in Hout by done. by eapply IH.
Qed.

(** A key that accepts a token whose data is not UTF-8 text ends the
    search with [UnicodeDecodeError]: the later keys are not tried. *)
Lemma _decrypt_undecodable pre k post token plaintext w :
  Forall (fun k' => rejects k' token) pre ->
  fernet_decrypt k (str_encode token) = Some plaintext ->
  bytes_decode plaintext = None ->
  outcome (_decrypt (pre ++ k :: post) (VStr token)) w = Raise UnicodeDecodeError.
Proof.
  intros Hpre Hk Hd. unfold outcome.
  rewrite (_decrypt_first_accept _ _ _ _ _ _ Hpre Hk).
  unfold decode_utf8. by rewrite Hd.
Qed.

Lemma _decrypt_first_accept_run pre k post token plaintext w :
  Forall (fun k' => rejects k' token) pre ->
  fernet_decrypt k (str_encode token) = Some plaintext ->
  _decrypt (pre ++ k :: post) (VStr token) w
  = (match bytes_decode plaintext with
     | Some s => Ok s
     | None => Raise UnicodeDecodeError
     end,
     after w 0 (attempts (pre ++ [k]) token)).
Proof.
  intros Hpre Hk. rewrite (_decrypt_first_accept _ _ _ _ _ _ Hpre Hk).
  unfold decode_utf8. by destruct (bytes_decode plaintext).
Qed.

(** Either a key of the ring is the first to accept the token, or every
    key rejects it. *)
Lemma first_accepting_key ring token :
  (exists pre k post plaintext,
      ring = pre ++ k :: post
      /\ Forall (fun k' => rejects k' token) pre
      /\ fernet_decrypt k (str_encode token) = Some plaintext)
  \/ Forall (fun k => rejects k token) ring.
Proof.
  induction ring as [|k rest IH]; [right; constructor|].
  destruct (fernet_decrypt k (str_encode token)) as [plaintext|] eqn:Hk.
  - left. exists [], k, rest, plaintext. by repeat split.
  - destruct IH as [(pre & k' & post & plaintext & -> & Hpre & Hk')|Hall].
    + left. exists (k :: pre), k', post, plaintext.
      split; [done|]. split; [by constructor | done].
    + right. by constructor.
Qed.

(** A token UTF-8 does not encode stops [_decrypt] at the first key,
    before the key is tried. *)
Lemma _decrypt_unencodable ring w :
  _decrypt ring StrLoneSurrogate w
  = (Raise match ring with
           | [] => DecryptionFailed
           | _ :: _ => UnicodeEncodeError
           end, w).
Proof. by destruct ring. Qed.

(** C3, as the code has it: [_decrypt] tries the keys of the ring in
    order and stops at the first key that accepts the token, the later
    keys not being tried: it returns the text of that key's plaintext when
    the plaintext is UTF-8, and raises [UnicodeDecodeError] when it is
    not.  It raises [DecryptionFailed] exactly when every key of the ring
    rejects the token, after one attempt per key.  These are all the
    outcomes on a token UTF-8 encodes: a value comes out only as the
    plaintext of the first accepting key.  A token UTF-8 does not encode
    raises [UnicodeEncodeError] before any key is tried, unless the ring
    is empty, where [DecryptionFailed] is raised. *)
Theorem decrypt_first_key_or_DecryptionFailed :
  forall (ring : key_ring) (token : string) (w : world),
    (forall pre k post plaintext,
        ring = pre ++ k :: post ->
        Forall (fun k' => rejects k' token) pre ->
        fernet_decrypt k (str_encode token) = Some plaintext ->
        _decrypt ring (VStr token) w
        = (match bytes_decode plaintext with
           | Some s => Ok s
           | None => Raise UnicodeDecodeError
           end,
           after w 0 (attempts (pre ++ [k]) token)))
    /\ (Forall (fun k => rejects k token) ring
        <-> outcome (_decrypt ring (VStr token)) w = Raise DecryptionFailed)
    /\ (Forall (fun k => rejects k token) ring ->
        _decrypt ring (VStr token) w
        = (Raise DecryptionFailed, after w 0 (attempts ring token)))
    /\ ((exists pre k post plaintext,
            ring = pre ++ k :: post
            /\ Forall (fun k' => rejects k' token) pre
            /\ fernet_decrypt k (str_encode token) = Some plaintext)
        \/ Forall (fun k => rejects k token) ring)
    /\ _decrypt ring StrLoneSurrogate w
       = (Raise match ring with
                | [] => DecryptionFailed
                | _ :: _ => UnicodeEncodeError
                end, w).
Proof.
  intros ring token w. split; [|split; [|split; [|split]]].
  - intros pre k post plaintext -> Hpre Hk.
    by apply _decrypt_first_accept_run.
  - split.
    + intros Hall. unfold outcome. by rewrite _decrypt_all_reject.
    + apply _decrypt_failed_inv.
  - apply _decrypt_all_reject.
  - apply first_accepting_key.
  - apply _decrypt_unencodable.
Qed.
End KeyRing.

Section Rotation.
Context `{Runtime}.
Import BaseEncryptedField.

Lemma _encrypt_token k rest s w :
  token_is_text ->
  exists t,
    str_encode t = fernet_encrypt k (clock w) (str_encode s)
    /\ _encrypt (k :: rest) (VStr s) w
       = (Ok t, after w 1 [EvEncrypt k (str_encode s)]).
Proof.
  intros Htext.
  destruct (Htext k (clock w) (str_encode s)) as (t & Hdec & Henc).
  exists t. split; [done|]. by apply _encrypt_run.
Qed.

Lemma _decrypt_own_token k n s t pre post w :
  fernet_correct -> fernet_authentic -> codec_roundtrip ->
  str_encode t = fernet_encrypt k n (str_encode s) ->
  outcome (_decrypt (pre ++ k :: post) (VStr t)) w = Ok s.
Proof.
  intros Hcorrect Hauth Hcodec Ht. revert w.
  induction pre as [|k' pre IH]; intros w; simpl app.
  - unfold outcome. erewrite _decrypt_cons_accept.
    2:{ rewrite Ht. apply Hcorrect. }
    unfold decode_utf8. by rewrite Hcodec.
  - destruct (fernet_decrypt k' (str_encode t)) as [data|] eqn:Hk'.
    + unfold outcome. rewrite (_decrypt_cons_accept _ _ _ _ _ Hk').
      rewrite Ht in Hk'. apply Hauth in Hk' as ->.
      unfold decode_utf8. by rewrite Hcodec.
    + unfold outcome. rewrite _decrypt_cons_reject by done. apply IH.
Qed.

End Rotation.

(** ** The JSON field: construction and guards *)

Section JsonField.
Context `{Runtime}.
Import BaseEncryptedField EncryptedJSONField.

(** C5: [EncryptedJSONField(encrypt_all, target_fields)] raises the
    "both" [ValueError] when [encrypt_all] is true and [target_fields] is
    non-empty, the "neither" [ValueError] when [encrypt_all] is false and
    [target_fields] is [None] or empty, and builds the field when exactly
    one of the two is given. *)
Theorem init_validates_policy :
  forall (keys : key_ring) (name : string) (names : list string),
    __init__ keys true (Some (name :: names)) = Raise InvalidPolicy_both
    /\ __init__ keys false None = Raise InvalidPolicy_neither
    /\ __init__ keys false (Some []) = Raise InvalidPolicy_neither
    /\ __init__ keys true None = Ok (Field keys true None false)
    /\ __init__ keys true (Some []) = Ok (Field keys true (Some []) false)
    /\ __init__ keys false (Some (name :: names))
       = Ok (Field keys false (Some (name :: names)) false)
    /\ is_InvalidPolicy InvalidPolicy_both
    /\ is_InvalidPolicy InvalidPolicy_neither.
Proof.
  intros keys name names. unfold is_InvalidPolicy. repeat split; auto.
Qed.

(** C8: [to_python] returns an input that is [None] or not a [str] as it
    is, and makes no runtime call (the world, with its record of decrypt
    and [json.loads] calls, is the one it started in); so does the
    [to_python] of the text field; and the same holds of any input while
    [_already_decrypted] is set. *)
Theorem to_python_passes_non_strings :
  forall (self : EncryptedJSONField.t) (text : EncryptedTextField.t)
         (v : value) (w : world),
    isinstance_str v = false ->
    to_python self v w = (Ok v, w)
    /\ from_db_value self v w = (Ok v, w)
    /\ EncryptedTextField.to_python text v w = (Ok v, w)
    /\ (forall v',
          _already_decrypted self = true -> to_python self v' w = (Ok v', w))
    /\ (forall v',
          EncryptedTextField._already_decrypted text = true ->
          EncryptedTextField.to_python text v' w = (Ok v', w)).
Proof.
  intros self text v w Hv.
  unfold from_db_value, to_python, EncryptedTextField.to_python.
  rewrite Hv. simpl. rewrite !orb_true_r. simpl.
  repeat split; try done.
  - intros v' ->. by rewrite orb_true_r.
  - intros v' ->. by rewrite orb_true_r.
Qed.
End JsonField.

(** ** The traversal *)

Section Walk.
Context `{Runtime}.
Import BaseEncryptedField EncryptedJSONField.

Lemma value_dict_unfold self items encrypt :
  _encrypt_or_decrypt_value self (VDict items) encrypt
  = _encrypt_or_decrypt_dict self items encrypt.
Proof.
  unfold _encrypt_or_decrypt_dict. simpl. f_equal.
  induction items as [|[key field] rest IH]; [done|].
  simpl. by rewrite IH.
Qed.

Lemma value_list_unfold self elems encrypt :
  _encrypt_or_decrypt_value self (VList elems) encrypt
  = _encrypt_or_decrypt_list self elems encrypt.
Proof.
  unfold _encrypt_or_decrypt_list. simpl. f_equal.
  induction elems as [|item rest IH]; [done|].
  simpl. by rewrite IH.
Qed.

Lemma value_scalar_run self v encrypt w :
  is_scalar v = true ->
  _encrypt_or_decrypt_value self v encrypt w = (Ok v, w).
Proof. by destruct v. Qed.

Lemma wf_value_dict items :
  wf_value (VDict items) = true
  <-> NoDup (map fst items) /\ Forall (fun kv => wf_value (snd kv) = true) items.
Proof.
  simpl. rewrite andb_true_iff, bool_decide_eq_true.
  apply and_iff_compat_l.
  induction items as [|[key field] rest IH]; simpl.
  - split; [constructor | done].
  - rewrite andb_true_iff, IH, Forall_cons_iff. done.
Qed.

Lemma wf_value_list elems :
  wf_value (VList elems) = true <-> Forall (fun v => wf_value v = true) elems.
Proof.
  simpl. induction elems as [|item rest IH]; simpl.
  - split; [constructor | done].
  - rewrite andb_true_iff, IH, Forall_cons_iff. done.
Qed.

Lemma targets_all_dict names P items :
  targets_all names P (VDict items) = true
  <-> Forall (fun kv =>
                (if bool_decide (fst kv ∈ names) then P (snd kv)
                 else targets_all names P (snd kv)) = true) items.
Proof.
  simpl. induction items as [|[key field] rest IH]; simpl.
  - split; [constructor | done].
  - rewrite andb_true_iff, IH, Forall_cons_iff. done.
Qed.

Lemma targets_all_list names P elems :
  targets_all names P (VList elems) = true
  <-> Forall (fun v => targets_all names P v = true) elems.
Proof.
  simpl. induction elems as [|item rest IH]; simpl.
  - split; [constructor | done].
  - rewrite andb_true_iff, IH, Forall_cons_iff. done.
Qed.

Lemma is_target_run self names key w :
  target_fields self = Some names ->
  is_target self key w = (Ok (bool_decide (key ∈ names)), w).
Proof. unfold is_target. by intros ->. Qed.
End Walk.

(** ** Sealing: one token per call to [_encrypt] *)

Section Sealing.
Context `{Runtime}.
Import BaseEncryptedField EncryptedJSONField.

Lemma outcome_ok_run {A} (m : M A) w a :
  outcome m w = Ok a -> exists w1, m w = (Ok a, w1).
Proof.
  unfold outcome. destruct (m w) as [r w1]. simpl. intros ->. by exists w1.
Qed.

Lemma all_encrypt_run self k rest v w :
  token_is_text ->
  fernet_keys self = k :: rest ->
  exists t,
    str_encode t = fernet_encrypt k (clock w) (str_encode (json_dumps v))
    /\ _encrypt_or_decrypt_all self v true w
       = (Ok (VStr t),
          after w 1 [EvDumps v; EvEncrypt k (str_encode (json_dumps v))]).
Proof.
  intros Htext Hring.
  destruct (_encrypt_token k rest (json_dumps v) (after w 0 [EvDumps v]) Htext)
    as (t & Ht & Hrun).
  exists t. split; [done|].
  unfold _encrypt_or_decrypt_all.
  rewrite (bind_ok _ _ _ _ _ (call_dumps_run v w)).
  rewrite Hring, (bind_ok _ _ _ _ _ Hrun). unfold ret.
  by rewrite after_after.
Qed.

Lemma _decrypt_head_token k rest n s t w :
  fernet_correct -> codec_roundtrip ->
  str_encode t = fernet_encrypt k n (str_encode s) ->
  _decrypt (k :: rest) (VStr t) w
  = (Ok s, after w 0 [EvDecrypt k (str_encode t)]).
Proof.
  intros Hcorrect Hcodec Ht.
  erewrite _decrypt_cons_accept.
  2:{ rewrite Ht. apply Hcorrect. }
  unfold decode_utf8. by rewrite Hcodec.
Qed.

Lemma all_decrypt_head_token self k rest n v t w :
  fernet_correct -> codec_roundtrip -> json_roundtrip ->
  fernet_keys self = k :: rest ->
  wf_value v = true ->
  str_encode t = fernet_encrypt k n (str_encode (json_dumps v)) ->
  _encrypt_or_decrypt_all self (VStr t) false w
  = (Ok v, after w 0 [EvDecrypt k (str_encode t); EvLoads (json_dumps v)]).
Proof.
  intros Hcorrect Hcodec Hjson Hring Hwf Ht.
  unfold _encrypt_or_decrypt_all. rewrite Hring.
  rewrite (bind_ok _ _ _ _ _
             (_decrypt_head_token k rest n _ t w Hcorrect Hcodec Ht)).
  rewrite call_loads_run, (Hjson v Hwf). by rewrite after_after.
Qed.

(** C7: under [encrypt_all], [get_prep_value] makes one [json.dumps]
    call on the value and one [encrypt] call, with the first key, on the
    serialization, and returns that token as one string; [to_python] on a
    stored string is [_decrypt] with the key ring followed by
    [json.loads]; and it gives back a well-formed value that was
    sealed. *)
Theorem encrypt_all_is_one_token :
  token_is_text -> fernet_correct -> codec_roundtrip -> json_roundtrip ->
  forall (self : EncryptedJSONField.t) (k : Key) (rest : list Key)
         (v : value) (w : world),
    encrypt_all self = true ->
    _already_decrypted self = false ->
    fernet_keys self = k :: rest ->
    (exists t,
        str_encode t = fernet_encrypt k (clock w) (str_encode (json_dumps v))
        /\ get_prep_value self v w
           = (Ok (VStr t),
              after w 1 [EvDumps v; EvEncrypt k (str_encode (json_dumps v))])
        /\ seal self v w
           = (Ok t,
              after w 1 [EvDumps v; EvEncrypt k (str_encode (json_dumps v))])
        /\ (wf_value v = true ->
            forall w2, outcome (unseal self t) w2 = Ok v))
    /\ (forall stored w2,
          to_python self (VStr stored) w2
          = (let! s := _decrypt (fernet_keys self) (VStr stored) in
             call_loads s) w2).
Proof.
  intros Htext Hcorrect Hcodec Hjson self k rest v w Hall Hflag Hring.
  split.
  - destruct (all_encrypt_run self k rest v w Htext Hring) as (t & Ht & Hrun).
    exists t. split; [done|]. unfold seal, get_prep_value. rewrite Hall.
    split; [done|]. split.
    + by rewrite (bind_ok _ _ _ _ _ Hrun).
    + intros Hwf w2. unfold unseal, from_db_value, to_python.
      rewrite Hall, Hflag. cbn [is_None isinstance_str negb orb].
      unfold outcome.
      by rewrite (all_decrypt_head_token self k rest (clock w) v t w2).
  - intros stored w2. unfold to_python. rewrite Hall, Hflag. reflexivity.
Qed.

Lemma target_field_structure_run self k rest v w :
  token_is_text ->
  fernet_keys self = k :: rest ->
  isinstance_dict v || isinstance_list v = true ->
  exists t,
    str_encode t = fernet_encrypt k (clock w) (str_encode (json_dumps v))
    /\ _encrypt_or_decrypt_target_field self v true w
       = (Ok (VStr t),
          after w 1 [EvDumps v; EvEncrypt k (str_encode (json_dumps v))]).
Proof.
  intros Htext Hring Hv. unfold _encrypt_or_decrypt_target_field.
  rewrite Hv. by apply (all_encrypt_run self k rest).
Qed.

Lemma target_field_str_run self k rest s w :
  token_is_text ->
  fernet_keys self = k :: rest ->
  exists t,
    str_encode t = fernet_encrypt k (clock w) (str_encode s)
    /\ _encrypt_or_decrypt_target_field self (VStr s) true w
       = (Ok (VStr t), after w 1 [EvEncrypt k (str_encode s)]).
Proof.
  intros Htext Hring.
  destruct (_encrypt_token k rest s w Htext) as (t & Ht & Hrun).
  exists t. split; [done|].
  unfold _encrypt_or_decrypt_target_field. simpl.
  by rewrite Hring, (bind_ok _ _ _ _ _ Hrun).
Qed.

Lemma single_entry_run self names key v w :
  encrypt_all self = false ->
  target_fields self = Some names ->
  key ∈ names ->
  get_prep_value self (VDict [(key, v)]) w
  = (let! new := _encrypt_or_decrypt_target_field self v true in
     ret (VDict [(key, new)])) w.
Proof.
  intros Hall Hnames Hkey. unfold get_prep_value. rewrite Hall.
  rewrite value_dict_unfold. unfold _encrypt_or_decrypt_dict. simpl.
  unfold bind at 1 2. rewrite (is_target_run _ _ _ _ Hnames).
  rewrite bool_decide_eq_true_2 by done.
  unfold bind.
  by destruct (_encrypt_or_decrypt_target_field self v true w) as [[new|e] w1].
Qed.




Section SealedShape.
Hypothesis Htext : token_is_text.
Variable self : EncryptedJSONField.t.
Variable k : Key.
Variable rest : list Key.
Variable names : list string.
Hypothesis Hring : fernet_keys self = k :: rest.
Hypothesis Hnames : target_fields self = Some names.



End SealedShape.

End Sealing.

(** ** The errors of sealing *)

Lemma seal_error_not_specified e : seal_error e -> ~ specified_error e.
Proof.
  unfold seal_error, specified_error, is_InvalidPolicy.
  intros [-> | [-> | ->]] [[? | ?] | [? | ?]]; discriminate.
Qed.

Section SealErrors.
Context `{Runtime}.
Import BaseEncryptedField EncryptedJSONField.

Variable self : EncryptedJSONField.t.
Variable names : list string.
Hypothesis Hnames : target_fields self = Some names.

(** The errors of [_encrypt] on this ring all satisfy [E]. *)
Variable E : exn -> Prop.
Hypothesis encrypt_raises :
  forall (v : value) w e w',
    _encrypt (fernet_keys self) v w = (Raise e, w') -> E e.

Lemma all_raises v w e w' :
  _encrypt_or_decrypt_all self v true w = (Raise e, w') -> E e.
Proof.
  unfold _encrypt_or_decrypt_all.
  rewrite (bind_ok _ _ _ _ _ (call_dumps_run v w)).
  intros [Hr | (a & w1 & _ & Hr)]%bind_inv_raise; [eauto | discriminate].
Qed.

Lemma target_field_raises v w e w' :
  _encrypt_or_decrypt_target_field self v true w = (Raise e, w') -> E e.
Proof.
  unfold _encrypt_or_decrypt_target_field.
  destruct (isinstance_dict v || isinstance_list v); [apply all_raises|].
  intros [Hr | (a & w1 & _ & Hr)]%bind_inv_raise; [eauto | discriminate].
Qed.

Lemma dict_loop_raises items :
  Forall (fun kv => forall w e w',
            _encrypt_or_decrypt_value self (snd kv) true w = (Raise e, w') ->
            E e) items ->
  forall w e w', dict_items_loop self items true w = (Raise e, w') -> E e.
Proof.
  induction 1 as [|[key field] rest Hfield _ IH]; intros w e w'; [done|].
  simpl. unfold bind at 1. rewrite (is_target_run _ _ _ _ Hnames).
  intros [Hr | (new & w1 & _ & Hr)]%bind_inv_raise.
  - destruct (bool_decide (key ∈ names)); [by eapply target_field_raises|].
    by eapply Hfield.
  - apply bind_inv_raise in Hr as [Hr | (rest' & w2 & _ & Hr)];
      [by eapply IH | discriminate].
Qed.

Lemma list_loop_raises elems :
  Forall (fun v => forall w e w',
            _encrypt_or_decrypt_value self v true w = (Raise e, w') -> E e)
         elems ->
  forall w e w', list_items_loop self elems true w = (Raise e, w') -> E e.
Proof.
  induction 1 as [|item rest Hitem _ IH]; intros w e w'; [done|].
  simpl.
  intros [Hr | (new & w1 & _ & Hr)]%bind_inv_raise; [by eapply Hitem|].
  apply bind_inv_raise in Hr as [Hr | (rest' & w2 & _ & Hr)];
    [by eapply IH | discriminate].
Qed.

Lemma value_raises v :
  forall w e w',
    _encrypt_or_decrypt_value self v true w = (Raise e, w') -> E e.
Proof.
  induction v as [| | | | |elems IH|items IH] using value_ind;
    intros w e w'; try done.
  - rewrite value_list_unfold. unfold _encrypt_or_decrypt_list.
    intros [Hr | (a & w1 & _ & Hr)]%bind_inv_raise; [|discriminate].
    by eapply list_loop_raises.
  - rewrite value_dict_unfold. unfold _encrypt_or_decrypt_dict.
    intros [Hr | (a & w1 & _ & Hr)]%bind_inv_raise; [|discriminate].
    by eapply dict_loop_raises.
Qed.

(** A target entry holding a scalar that is not a string stops the loop
    over the items: at that entry if no earlier one did. *)
Lemma dict_loop_stops items key v :
  (key, v) ∈ items ->
  key ∈ names ->
  is_scalar v = true ->
  isinstance_str v = false ->
  forall w, exists e w',
    dict_items_loop self items true w = (Raise e, w') /\ E e.
Proof.
  intros Hin Hkey Hscalar Hstr.
  induction items as [|[key0 field0] rest IH]; intros w.
  - by apply elem_of_nil in Hin.
  - simpl. unfold bind at 1. rewrite (is_target_run _ _ _ _ Hnames).
    set (step := if bool_decide (key0 ∈ names)
                 then _encrypt_or_decrypt_target_field self field0 true
                 else _encrypt_or_decrypt_value self field0 true).
    destruct (step w) as [[new|e] w1] eqn:Hstep.
    + apply elem_of_cons in Hin as [[= <- <-] | Hin].
      * exfalso. subst step. rewrite bool_decide_eq_true_2 in Hstep by done.
        unfold _encrypt_or_decrypt_target_field in Hstep.
        replace (isinstance_dict v || isinstance_list v) with false in Hstep
          by (by destruct v).
        destruct (_encrypt_not_str (fernet_keys self) v w Hstr)
          as (e & Hrun & _).
        by rewrite (bind_raise _ _ _ _ _ Hrun) in Hstep.
      * destruct (IH Hin w1) as (e & w' & Hrun & He).
        exists e, w'. split; [|done].
        rewrite (bind_ok _ _ _ _ _ Hstep).
        by rewrite (bind_raise _ _ _ _ _ Hrun).
    + exists e, w1. split; [by rewrite (bind_raise _ _ _ _ _ Hstep)|].
      subst step. destruct (bool_decide (key0 ∈ names)).
      * by eapply target_field_raises.
      * by eapply value_raises.
Qed.
End SealErrors.

Section NonStringTargets.
Context `{Runtime}.
Import BaseEncryptedField EncryptedJSONField.

Lemma _encrypt_raises_seal_error ring (v : value) w e w' :
  _encrypt ring v w = (Raise e, w') -> seal_error e.
Proof.
  unfold seal_error, _encrypt. destruct ring as [|k rest].
  - intros [= <- _]. auto.
  - destruct v; try (intros [= <- _]; by auto).
    unfold bytes_utf8, call_encrypt, decode_utf8, bind. simpl.
    destruct (bytes_decode _); [discriminate|]. intros [= <- _]. auto.
Qed.

Lemma _encrypt_raises_TypeError k rest (v : value) w e w' :
  token_is_text ->
  _encrypt (k :: rest) v w = (Raise e, w') -> e = TypeError.
Proof.
  intros Htext. destruct v; try (by intros [= <- _]).
  destruct (_encrypt_token k rest s w Htext) as (t & _ & ->). discriminate.
Qed.

(** C10: under [target_fields], a mapping with an entry whose key is a
    target and whose value is a scalar other than a string (a number, a
    boolean, [None]) cannot be sealed: [get_prep_value] raises, and the
    exception is none of [InvalidPolicy], [DecryptionFailed] and
    [DeserializationError]; on a ring with a key it is the [TypeError] of
    [bytes(value, "utf-8")]. *)
Theorem non_string_target_raises_unspecified_error :
  forall (self : EncryptedJSONField.t) (names : list string)
         (items : list (string * value)) (key : string) (v : value)
         (w : world),
    encrypt_all self = false ->
    target_fields self = Some names ->
    (key, v) ∈ items ->
    key ∈ names ->
    is_scalar v = true ->
    isinstance_str v = false ->
    exists e,
      outcome (get_prep_value self (VDict items)) w = Raise e
      /\ ~ specified_error e
      /\ (token_is_text -> fernet_keys self <> [] -> e = TypeError).
Proof.
  intros self names items key v w Hall Hnames Hin Hkey Hscalar Hstr.
  destruct (dict_loop_stops self names Hnames seal_error
              (_encrypt_raises_seal_error (fernet_keys self))
              items key v Hin Hkey Hscalar Hstr w) as (e & w' & Hrun & He).
  exists e. unfold outcome, get_prep_value. rewrite Hall.
  rewrite value_dict_unfold. unfold _encrypt_or_decrypt_dict.
  rewrite (bind_raise _ _ _ _ _ Hrun). simpl.
  split; [done|]. split; [by apply seal_error_not_specified|].
  intros Htext Hring.
  destruct (fernet_keys self) as [|k rest] eqn:Hkeys; [done|].
  assert (Henc : forall (v0 : value) w0 e0 w0',
             _encrypt (fernet_keys self) v0 w0 = (Raise e0, w0') ->
             e0 = TypeError).
  { rewrite Hkeys. intros v0 w0 e0 w0'. by apply _encrypt_raises_TypeError. }
  destruct (dict_loop_stops self names Hnames (fun e0 => e0 = TypeError) Henc
              items key v Hin Hkey Hscalar Hstr w) as (e1 & w1 & Hrun1 & He1).
  rewrite Hrun in Hrun1. congruence.
Qed.
End NonStringTargets.

(** ** Unsealing what was sealed *)

Section Unsealing.
Context `{Runtime}.
Import BaseEncryptedField EncryptedJSONField.

Hypothesis Htext : token_is_text.
Hypothesis Hcorrect : fernet_correct.
Hypothesis Hcodec : codec_roundtrip.

Variable self : EncryptedJSONField.t.
Variable k : Key.
Variable rest : list Key.
Variable names : list string.
Hypothesis Hring : fernet_keys self = k :: rest.
Hypothesis Hnames : target_fields self = Some names.

Lemma target_field_decrypt_run n s t w :
  str_encode t = fernet_encrypt k n (str_encode s) ->
  _encrypt_or_decrypt_target_field self (VStr t) false w
  = (Ok (VStr s), after w 0 [EvDecrypt k (str_encode t)]).
Proof.
  intros Ht. unfold _encrypt_or_decrypt_target_field. simpl. rewrite Hring.
  by rewrite (bind_ok _ _ _ _ _
                (_decrypt_head_token k rest n s t w Hcorrect Hcodec Ht)).
Qed.

Lemma dict_loop_roundtrip items :
  Forall (fun kv =>
            targets_all names isinstance_str (snd kv) = true ->
            walk_roundtrips self (snd kv)) items ->
  Forall (fun kv =>
            (if bool_decide (fst kv ∈ names) then isinstance_str (snd kv)
             else targets_all names isinstance_str (snd kv)) = true) items ->
  forall w, exists items' w',
    dict_items_loop self items true w = (Ok items', w')
    /\ map fst items' = map fst items
    /\ (Forall (fun kv => wf_value (snd kv) = true) items ->
        Forall (fun kv => wf_value (snd kv) = true) items')
    /\ forall w2, exists w2',
         dict_items_loop self items' false w2 = (Ok items, w2').
Proof.
  induction 1 as [|[key field] tail Hfield _ IH]; intros Hall w.
  - exists [], w. repeat split; [done|]. intros w2. by exists w2.
  - apply Forall_cons_iff in Hall as [Hhead Htail]. simpl in Hhead, Hfield.
    specialize (IH Htail).
    assert (Hstep : exists new w1,
               (if bool_decide (key ∈ names)
                then _encrypt_or_decrypt_target_field self field true
                else _encrypt_or_decrypt_value self field true) w
               = (Ok new, w1)
               /\ (wf_value field = true -> wf_value new = true)
               /\ forall w2, exists w2',
                    (if bool_decide (key ∈ names)
                     then _encrypt_or_decrypt_target_field self new false
                     else _encrypt_or_decrypt_value self new false) w2
                    = (Ok field, w2')).
    { destruct (bool_decide (key ∈ names)).
      - destruct field as [| | | |s| |]; try discriminate.
        destruct (target_field_str_run self k rest s w Htext Hring)
          as (t & Ht & Hrun).
        exists (VStr t), (after w 1 [EvEncrypt k (str_encode s)]).
        repeat split; [done|]. intros w2. eexists.
        by apply (target_field_decrypt_run (clock w)).
      - by apply Hfield. }
    destruct Hstep as (new & w1 & Hnew & Hwf & Hback).
    destruct (IH w1) as (tail' & w' & Htail' & Hkeys & Hwfs & Hbacks).
    exists ((key, new) :: tail'), w'. repeat split.
    + simpl. unfold bind at 1. rewrite (is_target_run _ _ _ _ Hnames).
      rewrite (bind_ok _ _ _ _ _ Hnew). by rewrite (bind_ok _ _ _ _ _ Htail').
    + simpl. by rewrite Hkeys.
    + intros [Hw Hws]%Forall_cons_iff. constructor; auto.
    + intros w2. destruct (Hback w2) as [w3 Hrun].
      destruct (Hbacks w3) as [w4 Hruns]. exists w4.
      simpl. unfold bind at 1. rewrite (is_target_run _ _ _ _ Hnames).
      rewrite (bind_ok _ _ _ _ _ Hrun). by rewrite (bind_ok _ _ _ _ _ Hruns).
Qed.

Lemma list_loop_roundtrip elems :
  Forall (fun v =>
            targets_all names isinstance_str v = true -> walk_roundtrips self v)
         elems ->
  Forall (fun v => targets_all names isinstance_str v = true) elems ->
  forall w, exists elems' w',
    list_items_loop self elems true w = (Ok elems', w')
    /\ (Forall (fun v => wf_value v = true) elems ->
        Forall (fun v => wf_value v = true) elems')
    /\ forall w2, exists w2',
         list_items_loop self elems' false w2 = (Ok elems, w2').
Proof.
  induction 1 as [|item tail Hitem _ IH]; intros Hall w.
  - exists [], w. repeat split; [done|]. intros w2. by exists w2.
  - apply Forall_cons_iff in Hall as [Hhead Htail].
    destruct (Hitem Hhead w) as (new & w1 & Hnew & Hwf & Hback).
    destruct (IH Htail w1) as (tail' & w' & Htail' & Hwfs & Hbacks).
    exists (new :: tail'), w'. repeat split.
    + simpl. rewrite (bind_ok _ _ _ _ _ Hnew).
      by rewrite (bind_ok _ _ _ _ _ Htail').
    + intros [Hw Hws]%Forall_cons_iff. constructor; auto.
    + intros w2. destruct (Hback w2) as [w3 Hrun].
      destruct (Hbacks w3) as [w4 Hruns]. exists w4.
      simpl. rewrite (bind_ok _ _ _ _ _ Hrun).
      by rewrite (bind_ok _ _ _ _ _ Hruns).
Qed.

Lemma scalar_roundtrips v : is_scalar v = true -> walk_roundtrips self v.
Proof.
  intros Hs w. exists v, w. split; [by apply value_scalar_run|].
  split; [done|]. intros w2. exists w2. by apply value_scalar_run.
Qed.

Lemma walk_roundtrip v :
  targets_all names isinstance_str v = true -> walk_roundtrips self v.
Proof.
  induction v as [| | | | |elems IH|items IH] using value_ind;
    try (intros _; by apply scalar_roundtrips); intros Hv w.
  - apply targets_all_list in Hv.
    destruct (list_loop_roundtrip elems IH Hv w)
      as (elems' & w' & Hrun & Hwf & Hback).
    exists (VList elems'), w'. repeat split.
    + rewrite value_list_unfold. unfold _encrypt_or_decrypt_list.
      by rewrite (bind_ok _ _ _ _ _ Hrun).
    + rewrite !wf_value_list. apply Hwf.
    + intros w2. destruct (Hback w2) as [w2' Hrun2]. exists w2'.
      rewrite value_list_unfold. unfold _encrypt_or_decrypt_list.
      by rewrite (bind_ok _ _ _ _ _ Hrun2).
  - apply targets_all_dict in Hv.
    destruct (dict_loop_roundtrip items IH Hv w)
      as (items' & w' & Hrun & Hkeys & Hwf & Hback).
    exists (VDict items'), w'. repeat split.
    + rewrite value_dict_unfold. unfold _encrypt_or_decrypt_dict.
      by rewrite (bind_ok _ _ _ _ _ Hrun).
    + rewrite !wf_value_dict, Hkeys. intros [? ?]. auto.
    + intros w2. destruct (Hback w2) as [w2' Hrun2]. exists w2'.
      rewrite value_dict_unfold. unfold _encrypt_or_decrypt_dict.
      by rewrite (bind_ok _ _ _ _ _ Hrun2).
Qed.
End Unsealing.

(** ** Round trips through the column *)

Section RoundTrip.
Context `{Runtime}.
Import BaseEncryptedField EncryptedJSONField.

Lemma unseal_walk_run self s parsed w :
  encrypt_all self = false ->
  _already_decrypted self = false ->
  json_loads s = Some parsed ->
  unseal self s w
  = _encrypt_or_decrypt_value self parsed false (after w 0 [EvLoads s]).
Proof.
  intros Hall Hflag Hloads. unfold unseal, from_db_value, to_python.
  rewrite Hall, Hflag. cbn [is_None isinstance_str negb orb].
  unfold bind. by rewrite call_loads_run, Hloads.
Qed.

Lemma seal_walk_run self v v' w w' :
  encrypt_all self = false ->
  _encrypt_or_decrypt_value self v true w = (Ok v', w') ->
  seal self v w = (Ok (json_dumps v'), after w' 0 [EvDumps v']).
Proof.
  intros Hall Hrun. unfold seal, get_prep_value. rewrite Hall.
  by rewrite (bind_ok _ _ _ _ _ Hrun).
Qed.

(** Where the round trip holds: under [encrypt_all] for every
    well-formed value, and under [target_fields] for every well-formed
    value whose target entries, as the walk meets them, hold strings. *)
Theorem roundtrip_when_targets_are_strings :
  token_is_text -> fernet_correct -> codec_roundtrip -> json_roundtrip ->
  forall (self : EncryptedJSONField.t) (k : Key) (rest : list Key)
         (v : value) (w : world),
    fernet_keys self = k :: rest ->
    _already_decrypted self = false ->
    wf_value v = true ->
    (encrypt_all self = true
     \/ (encrypt_all self = false
         /\ exists names,
              target_fields self = Some names
              /\ targets_all names isinstance_str v = true)) ->
    exists stored w1,
      seal self v w = (Ok stored, w1)
      /\ forall w2, outcome (unseal self stored) w2 = Ok v.
Proof.
  intros Htext Hcorrect Hcodec Hjson self k rest v w Hring Hflag Hwf
    [Hall | (Hall & names & Hnames & Htargets)].
  - destruct (all_encrypt_run self k rest v w Htext Hring) as (t & Ht & Hrun).
    exists t, (after w 1 [EvDumps v; EvEncrypt k (str_encode (json_dumps v))]).
    split.
    + unfold seal, get_prep_value. rewrite Hall.
      by rewrite (bind_ok _ _ _ _ _ Hrun).
    + intros w2. unfold unseal, from_db_value, to_python, outcome.
      rewrite Hall, Hflag. cbn [is_None isinstance_str negb orb].
      by rewrite (all_decrypt_head_token self k rest (clock w) v t w2).
  - destruct (walk_roundtrip Htext Hcorrect Hcodec self k rest names
                Hring Hnames v Htargets w) as (v' & w' & Hrun & Hwf' & Hback).
    exists (json_dumps v'), (after w' 0 [EvDumps v']).
    split; [by apply seal_walk_run|].
    intros w2. unfold outcome.
    rewrite (unseal_walk_run self _ v' w2 Hall Hflag (Hjson v' (Hwf' Hwf))).
    destruct (Hback (after w2 0 [EvLoads (json_dumps v')])) as [w3 ->]. done.
Qed.

(** C1, where the round trip breaks: under [target_fields], a target
    entry holding a dict or a list [x] is sealed as the token of
    [json.dumps(x)], and unsealing gives the entry the JSON text of [x],
    a string, in place of [x]: the value read back is not the value
    stored. *)
Theorem roundtrip_loses_structured_target :
  token_is_text -> fernet_correct -> codec_roundtrip -> json_roundtrip ->
  forall (self : EncryptedJSONField.t) (k : Key) (rest : list Key)
         (names : list string) (key : string) (x : value) (w : world),
    encrypt_all self = false ->
    _already_decrypted self = false ->
    target_fields self = Some names ->
    fernet_keys self = k :: rest ->
    key ∈ names ->
    isinstance_dict x || isinstance_list x = true ->
    exists stored,
      outcome (seal self (VDict [(key, x)])) w = Ok stored
      /\ (forall w2,
            outcome (unseal self stored) w2
            = Ok (VDict [(key, VStr (json_dumps x))]))
      /\ VDict [(key, VStr (json_dumps x))] <> VDict [(key, x)].
Proof.
  intros Htext Hcorrect Hcodec Hjson self k rest names key x w
    Hall Hflag Hnames Hring Hkey Hx.
  destruct (target_field_structure_run self k rest x w Htext Hring Hx)
    as (t & Ht & Hfield).
  pose proof (single_entry_run self names key x w Hall Hnames Hkey) as Hrun.
  rewrite (bind_ok _ _ _ _ _ Hfield) in Hrun.
  unfold get_prep_value in Hrun. rewrite Hall in Hrun.
  exists (json_dumps (VDict [(key, VStr t)])). split; [|split].
  - unfold outcome. by rewrite (seal_walk_run _ _ _ _ _ Hall Hrun).
  - intros w2. unfold outcome.
    rewrite (unseal_walk_run self _ (VDict [(key, VStr t)]) w2 Hall Hflag)
      by (apply Hjson, wf_value_dict; split;
          [apply NoDup_singleton | by repeat constructor]).
    rewrite value_dict_unfold. unfold _encrypt_or_decrypt_dict. simpl.
    unfold bind at 1 2. rewrite (is_target_run _ _ _ _ Hnames).
    rewrite bool_decide_eq_true_2 by done.
    rewrite (bind_ok _ _ _ _ _
               (target_field_decrypt_run Hcorrect Hcodec self k rest Hring
                  (clock w) (json_dumps x) t _ Ht)).
    done.
  - intros [= Heq]. rewrite <- Heq in Hx. discriminate.
Qed.

(** C6: with [target_fields=["secret"]], sealing
    [{"secret": "x", "public": "y"}] makes one [encrypt] call, on ["x"];
    the prepared mapping holds the plaintext ["y"] at ["public"] and, at
    ["secret"], the token, a string other than ["x"]; unsealing the stored
    JSON text gives [{"secret": "x", "public": "y"}] back. *)
Theorem target_field_isolation :
  token_is_text -> token_expands -> fernet_correct -> codec_roundtrip ->
  json_roundtrip ->
  forall (self : EncryptedJSONField.t) (k : Key) (rest : list Key) (w : world),
    encrypt_all self = false ->
    _already_decrypted self = false ->
    target_fields self = Some ["secret"] ->
    fernet_keys self = k :: rest ->
    exists t,
      str_encode t = fernet_encrypt k (clock w) (str_encode "x")
      /\ t <> "x"
      /\ get_prep_value self
           (VDict [("secret", VStr "x"); ("public", VStr "y")]) w
         = (Ok (VDict [("secret", VStr t); ("public", VStr "y")]),
            after w 1 [EvEncrypt k (str_encode "x")])
      /\ outcome (seal self
                    (VDict [("secret", VStr "x"); ("public", VStr "y")])) w
         = Ok (json_dumps (VDict [("secret", VStr t); ("public", VStr "y")]))
      /\ forall w2,
           outcome (unseal self
                      (json_dumps
                         (VDict [("secret", VStr t); ("public", VStr "y")])))
                   w2
           = Ok (VDict [("secret", VStr "x"); ("public", VStr "y")]).
Proof.
  intros Htext Hexp Hcorrect Hcodec Hjson self k rest w Hall Hflag Hnames Hring.
  assert (Hsecret : bool_decide ("secret" ∈ ["secret"]) = true)
    by (apply bool_decide_eq_true_2, list_elem_of_here).
  assert (Hpublic : bool_decide ("public" ∈ ["secret"]) = false).
  { apply bool_decide_eq_false_2. by intros [=]%list_elem_of_singleton. }
  destruct (target_field_str_run self k rest "x" w Htext Hring)
    as (t & Ht & Hrun).
  assert (Hprep : _encrypt_or_decrypt_value self
                    (VDict [("secret", VStr "x"); ("public", VStr "y")]) true w
                  = (Ok (VDict [("secret", VStr t); ("public", VStr "y")]),
                     after w 1 [EvEncrypt k (str_encode "x")])).
  { rewrite value_dict_unfold. unfold _encrypt_or_decrypt_dict. simpl.
    unfold bind at 1 2. rewrite (is_target_run _ _ _ _ Hnames), Hsecret.
    rewrite (bind_ok _ _ _ _ _ Hrun).
    unfold bind at 1 2. rewrite (is_target_run _ _ _ _ Hnames), Hpublic.
    done. }
  exists t. split; [done|]. split; [|split; [|split]].
  - intros ->. pose proof (Hexp k (clock w) (str_encode "x")) as Hlen.
    rewrite <- Ht in Hlen. lia.
  - unfold get_prep_value. by rewrite Hall.
  - unfold outcome. by rewrite (seal_walk_run _ _ _ _ _ Hall Hprep).
  - intros w2. unfold outcome.
    rewrite (unseal_walk_run self _
               (VDict [("secret", VStr t); ("public", VStr "y")]) w2 Hall Hflag).
    2:{ apply Hjson, wf_value_dict. split; [|by repeat constructor].
        simpl. apply NoDup_cons_2; [|apply NoDup_singleton].
        by intros [=]%list_elem_of_singleton. }
    rewrite value_dict_unfold. unfold _encrypt_or_decrypt_dict. simpl.
    unfold bind at 1 2. rewrite (is_target_run _ _ _ _ Hnames), Hsecret.
    rewrite (bind_ok _ _ _ _ _
               (target_field_decrypt_run Hcorrect Hcodec self k rest Hring
                  (clock w) "x" t _ Ht)).
    unfold bind at 1 2. rewrite (is_target_run _ _ _ _ Hnames), Hpublic.
    done.
Qed.
End RoundTrip.

(** ** No object of the caller is modified *)

Section HeapFrame.
Context `{Runtime}.
Import Objects.

Lemma frames_ret {A} h0 (a : A) (Q : A -> Prop) : Q a -> frames h0 (ret a) Q.
Proof.
  intros Ha st r st' Hkeep [= <- <-]. split; [done|]. split; [done|].
  by intros a' [= <-].
Qed.

Lemma frames_raise {A} h0 e (Q : A -> Prop) : frames h0 (raise e) Q.
Proof. intros st r st' Hkeep [= <- <-]. by split. Qed.

Lemma frames_bind {A B} h0 (m : HM A) (f : A -> HM B) Q R :
  frames h0 m Q ->
  (forall a, Q a -> frames h0 (f a) R) ->
  frames h0 (bind m f) R.
Proof.
  intros Hm Hf st r st' Hkeep. unfold bind.
  destruct (m st) as [[a|e] st1] eqn:Hrun.
  - destruct (Hm _ _ _ Hkeep Hrun) as (Hkeep1 & Hkeys1 & HQ).
    intros Hrun2.
    destruct (Hf a (HQ a eq_refl) _ _ _ Hkeep1 Hrun2) as (? & Hkeys2 & ?).
    split; [done|]. split; [congruence | done].
  - destruct (Hm _ _ _ Hkeep Hrun) as (Hkeep1 & Hkeys1 & _).
    intros [= <- <-]. by split.
Qed.

Lemma frames_weaken {A} h0 (m : HM A) (Q R : A -> Prop) :
  frames h0 m Q -> (forall a, Q a -> R a) -> frames h0 m R.
Proof.
  intros Hm HQR st r st' Hkeep Hrun.
  destruct (Hm _ _ _ Hkeep Hrun) as (? & ? & HQ).
  split; [done|]. split; [done | auto].
Qed.

Lemma frames_lift {A} h0 (m : M A) : frames h0 (lift m) (fun _ => True).
Proof.
  intros st r st' Hkeep. unfold lift.
  destruct (m (the_world st)) as [r1 w1]. intros [= <- <-]. by split.
Qed.

Lemma frames_keys h0 : frames h0 h_keys (fun _ => True).
Proof. intros st r st' Hkeep [= <- <-]. by split. Qed.

Lemma frames_lookup h0 l :
  frames h0 (h_lookup l) (fun o' => forall o, h0 !! l = Some o -> o' = Some o).
Proof.
  intros st r st' Hkeep [= <- <-]. split; [done|]. split; [done|].
  intros o' [= <-] o Hl. by eapply lookup_weaken.
Qed.

Lemma frames_alloc h0 o : frames h0 (h_alloc o) (fun l => h0 !! l = None).
Proof.
  intros st r st' Hkeep [= <- <-].
  assert (Hfresh : objects st !! fresh (dom (objects st)) = None)
    by apply not_elem_of_dom, is_fresh.
  assert (Hnew : h0 !! fresh (dom (objects st)) = None)
    by (eapply lookup_weaken_None; [exact Hfresh | exact Hkeep]).
  split; [|split; [done|]].
  - unfold keeps. simpl. by apply insert_subseteq_r.
  - by intros a [= <-].
Qed.

Lemma keeps_alter h0 (f : obj -> obj) l (h : gmap nat obj) :
  h0 !! l = None -> h0 ⊆ h -> h0 ⊆ alter f l h.
Proof.
  intros Hl Hsub. apply map_subseteq_spec. intros i o Hi.
  rewrite lookup_alter_ne by congruence.
  by eapply lookup_weaken.
Qed.

Lemma frames_setitem h0 l key new :
  h0 !! l = None -> frames h0 (h_setitem l key new) (fun _ => True).
Proof.
  intros Hl st r st' Hkeep [= <- <-]. split; [|done].
  by apply keeps_alter.
Qed.

Lemma frames_append h0 l new :
  h0 !! l = None -> frames h0 (h_append l new) (fun _ => True).
Proof.
  intros Hl st r st' Hkeep [= <- <-]. split; [|done].
  by apply keeps_alter.
Qed.

Lemma frames_for {A} h0 (l : list A) (body : A -> HM unit) :
  (forall a, frames h0 (body a) (fun _ => True)) ->
  frames h0 (h_for l body) (fun _ => True).
Proof.
  intros Hbody. induction l as [|x r IH]; simpl.
  - by apply frames_ret.
  - eapply frames_bind; [apply Hbody | intros _ _; apply IH].
Qed.

Lemma frames_embed h0 v : frames h0 (h_embed v) (fun _ => True).
Proof.
  induction v as [| | | | |elems IH|items IH] using value_ind; simpl;
    try (by apply frames_ret).
  - eapply frames_bind with (Q := fun _ => True).
    + induction IH as [|x r Hx _ IHr]; [by apply frames_ret|].
      eapply frames_bind; [exact Hx|]. intros x' _.
      eapply frames_bind; [exact IHr|]. intros r' _. by apply frames_ret.
    + intros elems' _. eapply frames_bind; [apply frames_alloc|].
      intros l _. by apply frames_ret.
  - eapply frames_bind with (Q := fun _ => True).
    + induction IH as [|[key x] r Hx _ IHr]; [by apply frames_ret|].
      eapply frames_bind; [exact Hx|]. intros x' _.
      eapply frames_bind; [exact IHr|]. intros r' _. by apply frames_ret.
    + intros items' _. eapply frames_bind; [apply frames_alloc|].
      intros l _. by apply frames_ret.
Qed.

Lemma frames_encrypt h0 v : frames h0 (_encrypt v) (fun _ => True).
Proof.
  unfold _encrypt. eapply frames_bind; [apply frames_keys|]. intros keys _.
  eapply frames_bind; [apply frames_lift|]. intros token _.
  by apply frames_ret.
Qed.

Lemma frames_decrypt h0 v : frames h0 (_decrypt v) (fun _ => True).
Proof.
  unfold _decrypt. eapply frames_bind; [apply frames_keys|]. intros keys _.
  apply frames_lift.
Qed.

Lemma frames_dumps h0 fuel v : frames h0 (h_dumps fuel v) (fun _ => True).
Proof.
  intros st r st' Hkeep. unfold h_dumps.
  destruct (json_tree fuel (objects st) [] v) as [t|e].
  - by apply frames_lift.
  - intros [= <- <-]. by split.
Qed.

Lemma frames_loads h0 s : frames h0 (h_loads s) (fun _ => True).
Proof.
  unfold h_loads. eapply frames_bind; [apply frames_lift|]. intros t _.
  apply frames_embed.
Qed.

Lemma frames_all h0 fuel v encrypt :
  frames h0 (_encrypt_or_decrypt_all fuel v encrypt) (fun _ => True).
Proof.
  unfold _encrypt_or_decrypt_all. destruct encrypt.
  - eapply frames_bind; [apply frames_dumps|]. intros s _.
    apply frames_encrypt.
  - eapply frames_bind; [apply frames_decrypt|]. intros s _.
    apply frames_loads.
Qed.

Lemma frames_target_field h0 fuel v encrypt :
  frames h0 (_encrypt_or_decrypt_target_field fuel v encrypt) (fun _ => True).
Proof.
  unfold _encrypt_or_decrypt_target_field.
  eapply frames_bind with (Q := fun _ => True).
  - unfold is_structure. destruct v; try (by apply frames_ret).
    eapply frames_bind; [apply frames_lookup|]. intros o _.
    by apply frames_ret.
  - intros [|] _; [apply frames_all|]. destruct encrypt.
    + apply frames_encrypt.
    + eapply frames_bind; [apply frames_decrypt|]. intros s _.
      by apply frames_ret.
Qed.

Lemma frames_value fuel :
  forall h0 target_fields v encrypt,
    frames h0 (_encrypt_or_decrypt_value fuel target_fields v encrypt)
           (rebuilt h0 v).
Proof.
  induction fuel as [|fuel IH]; intros h0 target_fields v encrypt; simpl.
  - apply frames_raise.
  - destruct v as [| | | | |l]; try (by apply frames_ret).
    eapply frames_bind; [apply frames_lookup|].
    intros [[items|elems]|] Hl.
    + eapply frames_bind; [apply frames_alloc|]. intros return_value Hnew.
      eapply frames_bind with (Q := fun _ => True).
      2:{ intros _ _. apply frames_ret. intros l0 _ _. eauto. }
      apply frames_for. intros [key field]. simpl.
      eapply frames_bind with (Q := fun _ => True).
      { destruct target_fields; [by apply frames_ret | apply frames_raise]. }
      intros hit _. eapply frames_bind with (Q := fun _ => True).
      { destruct hit; [apply frames_target_field|].
        eapply frames_weaken; [apply IH | done]. }
      intros new _. by apply frames_setitem.
    + eapply frames_bind; [apply frames_alloc|]. intros return_value Hnew.
      eapply frames_bind with (Q := fun _ => True).
      2:{ intros _ _. apply frames_ret. intros l0 _ _. eauto. }
      apply frames_for. intros item.
      eapply frames_bind; [apply IH|]. intros new _. by apply frames_append.
    + apply frames_ret. intros l0 [= <-] [o Ho]. by specialize (Hl o Ho).
Qed.

Lemma frames_get_prep_value h0 fuel self v :
  frames h0 (get_prep_value fuel self v) (fun _ => True).
Proof.
  unfold get_prep_value. destruct (EncryptedJSONField.encrypt_all self).
  - apply frames_all.
  - eapply frames_weaken; [apply frames_value | done].
Qed.

Lemma frames_to_python h0 fuel self v :
  frames h0 (to_python fuel self v) (fun _ => True).
Proof.
  unfold to_python. destruct v; try (by apply frames_ret).
  destruct (EncryptedJSONField._already_decrypted self);
    [by apply frames_ret|].
  destruct (EncryptedJSONField.encrypt_all self); [apply frames_all|].
  eapply frames_bind; [apply frames_loads|]. intros parsed _.
  eapply frames_weaken; [apply frames_value | done].
Qed.

Lemma mapM_weaken {A B} (f g : A -> option B) (l : list A) (k : list B) :
  Forall (fun x => forall y, f x = Some y -> g x = Some y) l ->
  mapM f l = Some k -> mapM g l = Some k.
Proof.
  intros Hfg. rewrite !mapM_Some. intros Hall.
  induction Hall as [|x y l k Hxy _ IH]; [constructor|].
  apply Forall_cons_iff in Hfg as [Hx Hl]. constructor; auto.
Qed.

(** The tree a value denotes is the same in a larger heap. *)
Lemma reify_weaken fuel (h h' : gmap nat obj) :
  h ⊆ h' ->
  forall v t, reify fuel h v = Some t -> reify fuel h' v = Some t.
Proof.
  intros Hsub. induction fuel as [|fuel IH]; intros v t; [done|].
  destruct v as [| | | | |l]; try done. simpl.
  destruct (h !! l) as [o|] eqn:Hl; [|done].
  rewrite (lookup_weaken _ _ _ _ Hl Hsub).
  destruct o as [items|elems].
  - destruct (mapM _ items) as [k|] eqn:Hk; [|done].
    intros [= <-]. erewrite mapM_weaken; [done| |exact Hk].
    apply Forall_forall. intros [key field] _ y. simpl.
    destruct (reify fuel h field) as [t|] eqn:Ht; [|done].
    by rewrite (IH _ _ Ht).
  - destruct (mapM _ elems) as [k|] eqn:Hk; [|done].
    intros [= <-]. erewrite mapM_weaken; [done| |exact Hk].
    apply Forall_forall. intros item _ y. apply IH.
Qed.

(** C9: whatever [get_prep_value], [to_python] or the traversal itself
    returns or raises, every object that was in the heap when the call
    started is in it afterwards, unchanged (the dicts and lists the walk
    writes to are the ones it has just created); so the value passed in
    denotes the same tree after the call as before; the key ring is the
    one the call started with; and what the traversal returns for a dict
    or a list is a new object, not the one it was given. *)
Theorem traversal_leaves_input_and_keys_unchanged :
  forall (fuel : nat) (self : EncryptedJSONField.t) (v : pyval)
         (encrypt : bool) (st st' : store) (r : result pyval),
    get_prep_value fuel self v st = (r, st')
    \/ to_python fuel self v st = (r, st')
    \/ _encrypt_or_decrypt_value fuel (EncryptedJSONField.target_fields self)
         v encrypt st = (r, st') ->
    objects st ⊆ objects st'
    /\ (forall l o, objects st !! l = Some o -> objects st' !! l = Some o)
    /\ (forall n t,
          reify n (objects st) v = Some t -> reify n (objects st') v = Some t)
    /\ fernet_keys st' = fernet_keys st
    /\ (_encrypt_or_decrypt_value fuel (EncryptedJSONField.target_fields self)
          v encrypt st = (r, st') ->
        forall l v',
          v = PRef l -> is_Some (objects st !! l) -> r = Ok v' ->
          exists l', v' = PRef l' /\ objects st !! l' = None).
Proof.
  intros fuel self v encrypt st st' r Hrun.
  assert (Hkeep : keeps (objects st) st) by (unfold keeps; reflexivity).
  assert (Hframe : keeps (objects st) st' /\ fernet_keys st' = fernet_keys st).
  { destruct Hrun as [Hrun | [Hrun | Hrun]].
    - by destruct (frames_get_prep_value _ _ _ _ _ _ _ Hkeep Hrun) as (? & ? & _).
    - by destruct (frames_to_python _ _ _ _ _ _ _ Hkeep Hrun) as (? & ? & _).
    - by destruct (frames_value _ _ _ _ _ _ _ _ Hkeep Hrun) as (? & ? & _). }
  destruct Hframe as [Hkeep' Hkeys]. unfold keeps in Hkeep'.
  split; [done|]. split; [|split; [|split; [done|]]].
  - intros l o Hl. by eapply lookup_weaken.
  - intros n t. by apply reify_weaken.
  - intros Hwalk l v' Hv Hl ->.
    destruct (frames_value _ _ _ _ _ _ _ _ Hkeep Hwalk) as (_ & _ & Hnew).
    by apply (Hnew v' eq_refl l).
Qed.
End HeapFrame.

(** ** The heap walk computes what the tree walk computes *)

Section Refinement.
Context `{Runtime}.
Import Objects.

Variable self : EncryptedJSONField.t.

Local Abbreviation tf := (EncryptedJSONField.target_fields self).
Local Abbreviation agrees := (Simulation.agrees self).
Local Abbreviation denotes_new := Simulation.denotes_new.
Local Abbreviation sim_result := Simulation.sim_result.
Local Abbreviation sim_at := (Simulation.sim_at self).
Local Abbreviation dict_body := (Simulation.dict_body self).
Local Abbreviation list_body := (Simulation.list_body self).
Local Abbreviation pure_step := (Simulation.pure_step self).
Local Abbreviation heap_step := (Simulation.heap_step self).


Lemma reify_fuel_mono n : forall m h v t,
  n <= m -> reify n h v = Some t -> reify m h v = Some t.
Proof.
  induction n as [|n IH]; intros m h v t Hle; [done|].
  destruct m as [|m]; [lia|]. 
  destruct v as [| | | | |l]; try done. simpl.
  destruct (h !! l) as [[items|elems]|]; [| |done].
  - destruct (mapM _ items) as [k|] eqn:Hk; [|done].
    intros [= <-]. erewrite mapM_weaken; [done| |exact Hk].
    apply Forall_forall. intros [key field] _ y. simpl.
    destruct (reify n h field) as [t|] eqn:Ht; [|done].
    rewrite (IH m _ _ _ ltac:(lia) Ht). done.
  - destruct (mapM _ elems) as [k|] eqn:Hk; [|done].
    intros [= <-]. erewrite mapM_weaken; [done| |exact Hk].
    apply Forall_forall. intros item _ y. apply IH. lia.
Qed.

Lemma depth_elem elems x : x ∈ elems -> depth x < depth (VList elems).
Proof.
  simpl. induction 1 as [x r|x y r _ IH]; simpl; lia.
Qed.

Lemma depth_item items key x :
  (key, x) ∈ items -> depth x < depth (VDict items).
Proof.
  simpl. intros Hin. remember (key, x) as kv eqn:Hkv.
  induction Hin as [kv r|kv [key' y] r _ IH]; subst; simpl.
  - lia.
  - specialize (IH eq_refl). lia.
Qed.

Lemma collect_Forall2 {A B} (f : A -> result B) l ts :
  Forall2 (fun x t => f x = Ok t) l ts -> collect (map f l) = Ok ts.
Proof.
  induction 1 as [|x t l ts Hx _ IH]; [done|]. simpl. by rewrite Hx, IH.
Qed.

(** [json.dumps] reads the tree a value denotes: it meets no object
    again on the way, since a value that denotes a tree has none inside
    itself. *)
Lemma json_tree_reify n : forall h markers v t,
  reify n h v = Some t ->
  (forall l m tl,
      l ∈ markers -> reify m h (PRef l) = Some tl -> depth t < depth tl) ->
  json_tree n h markers v = Ok t.
Proof.
  induction n as [|n IH]; intros h markers v t; [done|].
  destruct v as [| | | | |l]; try (simpl; by intros [= <-]).
  intros Hreify Hmark.
  assert (Hsame : forall m tl, reify m h (PRef l) = Some tl -> tl = t).
  { intros m tl Hm.
    assert (H1 : reify (m `max` S n) h (PRef l) = Some tl)
      by (apply (reify_fuel_mono m); [lia | done]).
    assert (H2 : reify (m `max` S n) h (PRef l) = Some t)
      by (apply (reify_fuel_mono (S n)); [lia | done]).
    congruence. }
  cbn [json_tree]. rewrite bool_decide_eq_false_2.
  2:{ intros Hin. specialize (Hmark l (S n) t Hin Hreify). lia. }
  simpl in Hreify.
  destruct (h !! l) as [[items|elems]|] eqn:Hl; [| |done].
  - destruct (mapM _ items) as [its|] eqn:Hk; [|done].
    injection Hreify as <-. apply mapM_Some in Hk.
    erewrite collect_Forall2; [done|].
    apply Forall2_same_length_lookup in Hk as [Hlen Hk].
    apply Forall2_same_length_lookup. split; [done|].
    intros i [key field] kt Hi Hi'. specialize (Hk i _ _ Hi Hi').
    simpl in Hk. cbn [fst snd].
    destruct (reify n h field) as [tx|] eqn:Hx; [|done].
    injection Hk as <-.
    assert (Hdepth : depth tx < depth (VDict its))
      by (apply (depth_item _ key); by eapply list_elem_of_lookup_2).
    rewrite (IH h (l :: markers) field tx Hx); [done|].
    intros l0 m tl [->|Hin]%elem_of_cons Hm.
    + by rewrite (Hsame m tl Hm).
    + pose proof (Hmark l0 m tl Hin Hm). lia.
  - destruct (mapM _ elems) as [ts|] eqn:Hk; [|done].
    injection Hreify as <-. apply mapM_Some in Hk.
    erewrite collect_Forall2; [done|].
    apply Forall2_same_length_lookup in Hk as [Hlen Hk].
    apply Forall2_same_length_lookup. split; [done|].
    intros i item tx Hi Hi'. specialize (Hk i _ _ Hi Hi').
    assert (Hdepth : depth tx < depth (VList ts))
      by (apply depth_elem; by eapply list_elem_of_lookup_2).
    apply IH; [done|].
    intros l0 m tl [->|Hin]%elem_of_cons Hm.
    + by rewrite (Hsame m tl Hm).
    + pose proof (Hmark l0 m tl Hin Hm). lia.
Qed.

Lemma json_tree_reify_top n h v t :
  reify n h v = Some t -> json_tree n h [] v = Ok t.
Proof.
  intros Hreify. apply json_tree_reify; [done|].
  intros l m tl Hin. by apply elem_of_nil in Hin.
Qed.

Lemma reify_scalar n h v t :
  reify n h v = Some t ->
  match v with PRef _ => True | _ => t = shallow v end.
Proof. destruct n, v; simpl; try done; by intros [= <-]. Qed.

Lemma reify_ref n h l t :
  reify n h (PRef l) = Some t ->
  is_Some (h !! l) /\ isinstance_dict t || isinstance_list t = true.
Proof.
  destruct n; [done|]. simpl.
  destruct (h !! l) as [[items|elems]|]; [| |done].
  - destruct (mapM _ items); [|done]. intros [= <-]. eauto.
  - destruct (mapM _ elems); [|done]. intros [= <-]. eauto.
Qed.

Lemma _encrypt_shallow ring t1 t2 :
  isinstance_str t1 = false -> isinstance_str t2 = false ->
  BaseEncryptedField._encrypt ring t1 = BaseEncryptedField._encrypt ring t2.
Proof. destruct ring; [done|]. by destruct t1, t2. Qed.

Lemma _decrypt_shallow ring t1 t2 :
  isinstance_str t1 = false -> isinstance_str t2 = false ->
  BaseEncryptedField._decrypt ring t1 = BaseEncryptedField._decrypt ring t2.
Proof. destruct ring; [done|]. by destruct t1, t2. Qed.

Lemma denotes_new_scalar h h' v :
  match v with PRef _ => False | _ => True end ->
  denotes_new h h' v (shallow v).
Proof.
  intros Hv. exists ∅, 1. split; [apply map_empty_subseteq|].
  split; [set_solver|]. by destruct v.
Qed.

Lemma lift_run {A} (m : M A) st :
  lift m st
  = (fst (m (the_world st)),
     Store _ (objects st) (fernet_keys st) (snd (m (the_world st)))).
Proof. unfold lift. by destruct (m (the_world st)). Qed.

Lemma h_encrypt_run v st :
  Objects._encrypt v st
  = (match fst (BaseEncryptedField._encrypt (fernet_keys st) (shallow v)
                  (the_world st)) with
     | Ok token => Ok (PStr token)
     | Raise e => Raise e
     end,
     Store _ (objects st) (fernet_keys st)
       (snd (BaseEncryptedField._encrypt (fernet_keys st) (shallow v)
               (the_world st)))).
Proof.
  unfold Objects._encrypt, bind, h_keys. rewrite lift_run.
  by destruct (BaseEncryptedField._encrypt _ _ _) as [[token|e] w].
Qed.

Lemma h_decrypt_run v st :
  Objects._decrypt v st
  = (fst (BaseEncryptedField._decrypt (fernet_keys st) (shallow v)
            (the_world st)),
     Store _ (objects st) (fernet_keys st)
       (snd (BaseEncryptedField._decrypt (fernet_keys st) (shallow v)
               (the_world st)))).
Proof. unfold Objects._decrypt, bind, h_keys. by rewrite lift_run. Qed.

Lemma _decrypt_non_str_raises ring t w :
  isinstance_str t = false ->
  exists e, BaseEncryptedField._decrypt ring t w = (Raise e, w).
Proof.
  intros Ht. destruct ring as [|k rest]; [by eexists|].
  exists TypeError. by destruct t.
Qed.

Lemma sim_target_field f field tfield encrypt st :
  agrees st ->
  reify f (objects st) field = Some tfield ->
  exists r' st',
    Objects._encrypt_or_decrypt_target_field f field encrypt st = (r', st')
    /\ the_world st'
       = snd (EncryptedJSONField._encrypt_or_decrypt_target_field self tfield
                encrypt (the_world st))
    /\ objects st' = objects st
    /\ fernet_keys st' = fernet_keys st
    /\ sim_result (objects st) (objects st')
         (fst (EncryptedJSONField._encrypt_or_decrypt_target_field self tfield
                 encrypt (the_world st))) r'.
Proof.
  intros Hagree Hreify. unfold Simulation.agrees in Hagree.
  unfold Objects._encrypt_or_decrypt_target_field,
    EncryptedJSONField._encrypt_or_decrypt_target_field.
  destruct field as [| | | | |l].
  1-5: (pose proof (reify_scalar _ _ _ _ Hreify) as ->; simpl;
        unfold bind at 1; simpl; destruct encrypt;
        [ rewrite h_encrypt_run, Hagree; unfold bind; simpl;
          destruct (BaseEncryptedField._encrypt _ _ _) as [[token|e] w];
          simpl; eexists _, _; repeat split; try done;
          eexists; split; [done|]; by apply (denotes_new_scalar _ _ (PStr token))
        | unfold bind at 1; rewrite h_decrypt_run, Hagree; unfold bind; simpl;
          destruct (BaseEncryptedField._decrypt _ _ _) as [[plain|e] w];
          simpl; eexists _, _; repeat split; try done;
          eexists; split; [done|]; by apply (denotes_new_scalar _ _ (PStr plain)) ]).
  destruct (reify_ref _ _ _ _ Hreify) as [[o Ho] Hstruct].
  rewrite Hstruct. unfold is_structure, bind at 1 2, h_lookup. rewrite Ho.
  simpl.
  unfold Objects._encrypt_or_decrypt_all,
    EncryptedJSONField._encrypt_or_decrypt_all.
  destruct encrypt.
  - unfold bind at 1, h_dumps.
    rewrite (json_tree_reify_top _ _ _ _ Hreify), lift_run.
    rewrite call_dumps_run. simpl. rewrite h_encrypt_run. simpl.
    rewrite Hagree. unfold bind. rewrite call_dumps_run.
    destruct (BaseEncryptedField._encrypt _ _ _) as [[token|e] w]; simpl;
      eexists _, _; repeat split; try done.
    eexists; split; [done|]. by apply (denotes_new_scalar _ _ (PStr token)).
  - unfold bind at 1. rewrite h_decrypt_run, Hagree.
    assert (Hns : isinstance_str tfield = false) by (by destruct tfield).
    rewrite (_decrypt_shallow _ (shallow (PRef l)) tfield eq_refl Hns).
    destruct (_decrypt_non_str_raises (EncryptedJSONField.fernet_keys self)
                tfield (the_world st) Hns) as [e He].
    unfold bind. rewrite He. simpl. eexists _, _; repeat split; done.
Qed.

Lemma dict_set_middle key new x (pre rest : list (string * pyval)) :
  NoDup (map fst (pre ++ (key, x) :: rest)) ->
  dict_set key new (pre ++ (key, x) :: rest) = pre ++ (key, new) :: rest.
Proof.
  intros Hnd. unfold dict_set. rewrite map_app. simpl.
  rewrite bool_decide_eq_true_2 by done.
  rewrite map_app in Hnd. simpl in Hnd.
  apply list.NoDup_app in Hnd as (_ & Hdisj & Htail).
  apply list.NoDup_cons in Htail as [Hnotin _].
  f_equal; [|f_equal].
  - rewrite <- (map_id pre) at 2. apply map_ext_in. intros [k0 x0] Hin.
    simpl. rewrite bool_decide_eq_false_2; [done|]. intros ->.
    apply (Hdisj key).
    + apply list_elem_of_fmap. exists (key, x0). split; [done|].
      by apply list_elem_of_In.
    + apply list_elem_of_here.
  - rewrite <- (map_id rest) at 2. apply map_ext_in. intros [k0 x0] Hin.
    simpl. rewrite bool_decide_eq_false_2; [done|]. intros ->.
    apply Hnotin. apply list_elem_of_fmap. exists (key, x0). split; [done|].
    by apply list_elem_of_In.
Qed.

Lemma sim_step f encrypt (hit : bool) field tfield st :
  sim_at f ->
  agrees st ->
  reify f (objects st) field = Some tfield ->
  wf_value tfield = true ->
  exists r' st',
    heap_step f hit field encrypt st = (r', st')
    /\ the_world st' = snd (pure_step hit tfield encrypt (the_world st))
    /\ objects st ⊆ objects st'
    /\ fernet_keys st' = fernet_keys st
    /\ sim_result (objects st) (objects st')
         (fst (pure_step hit tfield encrypt (the_world st))) r'.
Proof.
  intros IH Hagree Hreify Hwf. unfold Simulation.heap_step, Simulation.pure_step. destruct hit.
  - destruct (sim_target_field f field tfield encrypt st Hagree Hreify)
      as (r' & st' & Hrun & Hw & Hobj & Hkeys & Hsim).
    exists r', st'. split; [done|]. split; [done|].
    split; [rewrite Hobj; reflexivity|]. done.
  - by apply IH.
Qed.

Lemma pure_dict_loop_cons key tfield t_rest encrypt w names :
  tf = Some names ->
  EncryptedJSONField.dict_items_loop self ((key, tfield) :: t_rest) encrypt w
  = match pure_step (bool_decide (key ∈ names)) tfield encrypt w with
    | (Ok tnew, w1) =>
        match EncryptedJSONField.dict_items_loop self t_rest encrypt w1 with
        | (Ok rest', w2) => (Ok ((key, tnew) :: rest'), w2)
        | (Raise e, w2) => (Raise e, w2)
        end
    | (Raise e, w1) => (Raise e, w1)
    end.
Proof.
  intros Htf. simpl. unfold bind at 1, EncryptedJSONField.is_target.
  rewrite Htf. simpl. unfold bind, Simulation.pure_step.
  destruct (bool_decide (key ∈ names)).
  - destruct (EncryptedJSONField._encrypt_or_decrypt_target_field self tfield
                encrypt w) as [[tnew|e] w1]; [|done].
    by destruct (EncryptedJSONField.dict_items_loop self t_rest encrypt w1)
      as [[rest'|e] w2].
  - destruct (EncryptedJSONField._encrypt_or_decrypt_value self tfield
                encrypt w) as [[tnew|e] w1]; [|done].
    by destruct (EncryptedJSONField.dict_items_loop self t_rest encrypt w1)
      as [[rest'|e] w2].
Qed.

Lemma h_dict_loop_cons f encrypt l' key field rest st names :
  tf = Some names ->
  h_for ((key, field) :: rest) (dict_body f encrypt l') st
  = match heap_step f (bool_decide (key ∈ names)) field encrypt st with
    | (Ok new, st1) =>
        h_for rest (dict_body f encrypt l')
          (Store _
             (alter (fun o =>
                       match o with
                       | ODict items => ODict (dict_set key new items)
                       | OList elems => OList elems
                       end) l' (objects st1))
             (fernet_keys st1) (the_world st1))
    | (Raise e, st1) => (Raise e, st1)
    end.
Proof.
  intros Htf. simpl. unfold bind at 1, Simulation.dict_body at 1, Simulation.heap_step.
  rewrite Htf. simpl. unfold bind at 1 2. simpl.
  destruct (bool_decide (key ∈ names)).
  - destruct (Objects._encrypt_or_decrypt_target_field f field encrypt st)
      as [[new|e] st1]; reflexivity.
  - destruct (Objects._encrypt_or_decrypt_value f (Some names) field encrypt
                st) as [[new|e] st1]; reflexivity.
Qed.

Lemma sim_dict_loop f encrypt l' h0 names :
  sim_at f ->
  tf = Some names ->
  h0 !! l' = None ->
  forall rest t_rest,
    Forall2 (fun kv kt => fst kv = fst kt
                          /\ reify f h0 (snd kv) = Some (snd kt)) rest t_rest ->
    Forall (fun kt => wf_value (snd kt) = true) t_rest ->
    forall pre st hacc,
      agrees st ->
      h0 ⊆ objects st ->
      objects st !! l' = Some (ODict (pre ++ rest)) ->
      NoDup (map fst (pre ++ rest)) ->
      hacc ⊆ objects st ->
      dom hacc ## dom h0 ->
      hacc !! l' = None ->
      exists r' st',
        h_for rest (dict_body f encrypt l') st = (r', st')
        /\ the_world st'
           = snd (EncryptedJSONField.dict_items_loop self t_rest encrypt
                    (the_world st))
        /\ agrees st'
        /\ h0 ⊆ objects st'
        /\ match fst (EncryptedJSONField.dict_items_loop self t_rest encrypt
                        (the_world st)) with
           | Ok t_rest' =>
               r' = Ok tt
               /\ exists rest' hacc',
                    objects st' !! l' = Some (ODict (pre ++ rest'))
                    /\ hacc ⊆ hacc'
                    /\ hacc' ⊆ objects st'
                    /\ dom hacc' ## dom h0
                    /\ hacc' !! l' = None
                    /\ Forall2 (fun kv kt =>
                                  fst kv = fst kt
                                  /\ exists n',
                                       reify n' hacc' (snd kv) = Some (snd kt))
                               rest' t_rest'
           | Raise e => r' = Raise e
           end.
Proof.
  intros IH Htf Hl'. induction 1 as [|[key field] [key' tfield] rest t_rest
                                       [Hkey Hfield] Hrest IHloop];
    intros Hwfs pre st hacc Hagree Hh0 Hobj Hnd Hacc Hdisj Haccl.
  - exists (Ok tt), st. simpl. repeat (split; [done|]).
    exists [], hacc. split; [done|]. split; [reflexivity|].
    repeat (split; [done|]). constructor.
  - simpl in Hkey, Hfield. subst key'.
    apply Forall_cons_iff in Hwfs as [Hwf Hwfs]. simpl in Hwf.
    rewrite (pure_dict_loop_cons _ _ _ _ _ _ Htf).
    rewrite (h_dict_loop_cons _ _ _ _ _ _ _ _ Htf).
    destruct (sim_step f encrypt (bool_decide (key ∈ names)) field tfield st
                IH Hagree (reify_weaken f h0 _ Hh0 _ _ Hfield) Hwf)
      as (r1 & st1 & Hrun1 & Hw1 & Hsub1 & Hkeys1 & Hsim1).
    rewrite Hrun1.
    destruct (pure_step (bool_decide (key ∈ names)) tfield encrypt
                (the_world st)) as [[tnew|e] w1]; simpl in Hw1, Hsim1.
    2:{ subst r1. exists (Raise e), st1. simpl.
        split; [done|]. split; [done|].
        split; [unfold Simulation.agrees in *; congruence|].
        split; [by etrans | done]. }
    destruct Hsim1 as (new & -> & hnew & n' & Hnew & Hnewdisj & Hnewreify).
    set (st2 := Store _ _ _ _).
    assert (Hnewl : hnew !! l' = None).
    { apply not_elem_of_dom. intros Hin. apply (Hnewdisj l' Hin).
      apply elem_of_dom. eauto. }
    assert (Haccnew : hacc ##ₘ hnew).
    { apply map_disjoint_dom. intros i Hi1 Hi2. apply (Hnewdisj i Hi2).
      apply elem_of_dom. apply elem_of_dom in Hi1 as [o Ho].
      exists o. by eapply lookup_weaken. }
    destruct (IHloop Hwfs (pre ++ [(key, new)]) st2 (hacc ∪ hnew))
      as (r' & st' & Hrun & Hw & Hagree' & Hh0' & Hres).
    + unfold Simulation.agrees in *. simpl. congruence.
    + simpl. apply keeps_alter; [done|]. by etrans.
    + simpl. rewrite lookup_alter_eq.
      rewrite (lookup_weaken _ _ _ _ Hobj Hsub1). simpl.
      rewrite dict_set_middle by done. by rewrite <- app_assoc.
    + rewrite <- app_assoc. simpl.
      rewrite !map_app in *. done.
    + simpl. apply keeps_alter.
      * apply lookup_union_None. done.
      * apply map_union_least; [by etrans | done].
    + rewrite dom_union. intros i [Hi|Hi]%elem_of_union Hi0.
      * by apply (Hdisj i).
      * apply (Hnewdisj i Hi). apply elem_of_dom.
        apply elem_of_dom in Hi0 as [o Ho]. exists o. by eapply lookup_weaken.
    + by apply lookup_union_None.
    + exists r', st'. split; [done|]. subst w1. simpl in Hw, Hres.
      destruct (EncryptedJSONField.dict_items_loop self t_rest encrypt
                  (the_world st1)) as [[t_rest'|e] w2]; simpl in *.
      2:{ by repeat (split; [done|]). }
      destruct Hres as (-> & rest' & hacc' & Hobj' & Hsubacc & Hacc' & Hdisj'
                        & Haccl' & Hall).
      repeat (split; [done|]).
      exists ((key, new) :: rest'), hacc'.
      split; [|split; [|repeat (split; [done|])]].
      * by rewrite <- app_assoc in Hobj'.
      * etrans; [|exact Hsubacc]. by apply map_union_subseteq_l.
      * constructor; [|done]. simpl. split; [done|]. exists n'.
        eapply reify_weaken; [|exact Hnewreify].
        etrans; [|exact Hsubacc]. by apply map_union_subseteq_r.
Qed.

Lemma pure_list_loop_cons titem t_rest encrypt w :
  EncryptedJSONField.list_items_loop self (titem :: t_rest) encrypt w
  = match EncryptedJSONField._encrypt_or_decrypt_value self titem encrypt w with
    | (Ok tnew, w1) =>
        match EncryptedJSONField.list_items_loop self t_rest encrypt w1 with
        | (Ok rest', w2) => (Ok (tnew :: rest'), w2)
        | (Raise e, w2) => (Raise e, w2)
        end
    | (Raise e, w1) => (Raise e, w1)
    end.
Proof.
  simpl. unfold bind.
  destruct (EncryptedJSONField._encrypt_or_decrypt_value self titem encrypt w)
    as [[tnew|e] w1]; [|done].
  by destruct (EncryptedJSONField.list_items_loop self t_rest encrypt w1)
    as [[rest'|e] w2].
Qed.

Lemma h_list_loop_cons f encrypt l' item rest st :
  h_for (item :: rest) (list_body f encrypt l') st
  = match Objects._encrypt_or_decrypt_value f tf item encrypt st with
    | (Ok new, st1) =>
        h_for rest (list_body f encrypt l')
          (Store _
             (alter (fun o =>
                       match o with
                       | OList elems => OList (elems ++ [new])
                       | ODict items => ODict items
                       end) l' (objects st1))
             (fernet_keys st1) (the_world st1))
    | (Raise e, st1) => (Raise e, st1)
    end.
Proof.
  simpl. unfold bind at 1, Simulation.list_body at 1. unfold bind at 1.
  destruct (Objects._encrypt_or_decrypt_value f tf item encrypt st)
    as [[new|e] st1]; reflexivity.
Qed.

Lemma sim_list_loop f encrypt l' h0 :
  sim_at f ->
  h0 !! l' = None ->
  forall rest t_rest,
    Forall2 (fun v t => reify f h0 v = Some t) rest t_rest ->
    Forall (fun t => wf_value t = true) t_rest ->
    forall pre st hacc,
      agrees st ->
      h0 ⊆ objects st ->
      objects st !! l' = Some (OList pre) ->
      hacc ⊆ objects st ->
      dom hacc ## dom h0 ->
      hacc !! l' = None ->
      exists r' st',
        h_for rest (list_body f encrypt l') st = (r', st')
        /\ the_world st'
           = snd (EncryptedJSONField.list_items_loop self t_rest encrypt
                    (the_world st))
        /\ agrees st'
        /\ h0 ⊆ objects st'
        /\ match fst (EncryptedJSONField.list_items_loop self t_rest encrypt
                        (the_world st)) with
           | Ok t_rest' =>
               r' = Ok tt
               /\ exists rest' hacc',
                    objects st' !! l' = Some (OList (pre ++ rest'))
                    /\ hacc ⊆ hacc'
                    /\ hacc' ⊆ objects st'
                    /\ dom hacc' ## dom h0
                    /\ hacc' !! l' = None
                    /\ Forall2 (fun v t =>
                                  exists n', reify n' hacc' v = Some t)
                               rest' t_rest'
           | Raise e => r' = Raise e
           end.
Proof.
  intros IH Hl'. induction 1 as [|item titem rest t_rest Hitem Hrest IHloop];
    intros Hwfs pre st hacc Hagree Hh0 Hobj Hacc Hdisj Haccl.
  - exists (Ok tt), st. simpl. repeat (split; [done|]).
    exists [], hacc. rewrite app_nil_r. split; [done|]. split; [reflexivity|].
    repeat (split; [done|]). constructor.
  - apply Forall_cons_iff in Hwfs as [Hwf Hwfs].
    rewrite pure_list_loop_cons, h_list_loop_cons.
    destruct (IH item titem encrypt st Hagree
                (reify_weaken f h0 _ Hh0 _ _ Hitem) Hwf)
      as (r1 & st1 & Hrun1 & Hw1 & Hsub1 & Hkeys1 & Hsim1).
    rewrite Hrun1.
    destruct (EncryptedJSONField._encrypt_or_decrypt_value self titem encrypt
                (the_world st)) as [[tnew|e] w1]; simpl in Hw1, Hsim1.
    2:{ subst r1. exists (Raise e), st1. simpl.
        split; [done|]. split; [done|].
        split; [unfold Simulation.agrees in *; congruence|].
        split; [by etrans | done]. }
    destruct Hsim1 as (new & -> & hnew & n' & Hnew & Hnewdisj & Hnewreify).
    set (st2 := Store _ _ _ _).
    assert (Hnewl : hnew !! l' = None).
    { apply not_elem_of_dom. intros Hin. apply (Hnewdisj l' Hin).
      apply elem_of_dom. eauto. }
    assert (Haccnew : hacc ##ₘ hnew).
    { apply map_disjoint_dom. intros i Hi1 Hi2. apply (Hnewdisj i Hi2).
      apply elem_of_dom. apply elem_of_dom in Hi1 as [o Ho].
      exists o. by eapply lookup_weaken. }
    destruct (IHloop Hwfs (pre ++ [new]) st2 (hacc ∪ hnew))
      as (r' & st' & Hrun & Hw & Hagree' & Hh0' & Hres).
    + unfold Simulation.agrees in *. simpl. congruence.
    + simpl. apply keeps_alter; [done|]. by etrans.
    + simpl. rewrite lookup_alter_eq.
      by rewrite (lookup_weaken _ _ _ _ Hobj Hsub1).
    + simpl. apply keeps_alter.
      * by apply lookup_union_None.
      * apply map_union_least; [by etrans | done].
    + rewrite dom_union. intros i [Hi|Hi]%elem_of_union Hi0.
      * by apply (Hdisj i).
      * apply (Hnewdisj i Hi). apply elem_of_dom.
        apply elem_of_dom in Hi0 as [o Ho]. exists o. by eapply lookup_weaken.
    + by apply lookup_union_None.
    + exists r', st'. split; [done|]. subst w1. simpl in Hw, Hres.
      destruct (EncryptedJSONField.list_items_loop self t_rest encrypt
                  (the_world st1)) as [[t_rest'|e] w2]; simpl in *.
      2:{ by repeat (split; [done|]). }
      destruct Hres as (-> & rest' & hacc' & Hobj' & Hsubacc & Hacc' & Hdisj'
                        & Haccl' & Hall).
      repeat (split; [done|]).
      exists (new :: rest'), hacc'.
      split; [|split; [|repeat (split; [done|])]].
      * by rewrite <- app_assoc in Hobj'.
      * etrans; [|exact Hsubacc]. by apply map_union_subseteq_l.
      * constructor; [|done]. exists n'.
        eapply reify_weaken; [|exact Hnewreify].
        etrans; [|exact Hsubacc]. by apply map_union_subseteq_r.
Qed.

Lemma common_fuel {A B} (h : gmap nat obj) (g : A -> pyval) (g' : B -> value)
    (P : A -> B -> Prop) (l : list A) (k : list B) :
  Forall2 (fun a b => P a b /\ exists n, reify n h (g a) = Some (g' b)) l k ->
  exists N, Forall2 (fun a b => P a b /\ reify N h (g a) = Some (g' b)) l k.
Proof.
  induction 1 as [|a b l k [HP [n Hn]] _ [N IH]].
  - exists 0. constructor.
  - exists (n `max` N). constructor.
    + split; [done|]. eapply reify_fuel_mono; [|exact Hn]. lia.
    + eapply Forall2_impl; [|exact IH]. intros a' b' [? Hr]. split; [done|].
      eapply reify_fuel_mono; [|exact Hr]. lia.
Qed.

Lemma h_value_dict_run f l items encrypt st :
  objects st !! l = Some (ODict items) ->
  Objects._encrypt_or_decrypt_value (S f) tf (PRef l) encrypt st
  = match h_for items (dict_body f encrypt (fresh (dom (objects st))))
            (Store _ (<[fresh (dom (objects st)) := ODict items]> (objects st))
               (fernet_keys st) (the_world st)) with
    | (Ok _, st') => (Ok (PRef (fresh (dom (objects st)))), st')
    | (Raise e, st') => (Raise e, st')
    end.
Proof.
  intros Hl. simpl. unfold bind at 1, h_lookup. rewrite Hl.
  unfold bind at 1, h_alloc. unfold bind at 1.
  change (fun kv : string * pyval => bind _ _)
    with (dict_body f encrypt (fresh (dom (objects st)))).
  by destruct (h_for items _ _) as [[[]|e] st'].
Qed.

Lemma h_value_list_run f l elems encrypt st :
  objects st !! l = Some (OList elems) ->
  Objects._encrypt_or_decrypt_value (S f) tf (PRef l) encrypt st
  = match h_for elems (list_body f encrypt (fresh (dom (objects st))))
            (Store _ (<[fresh (dom (objects st)) := OList []]> (objects st))
               (fernet_keys st) (the_world st)) with
    | (Ok _, st') => (Ok (PRef (fresh (dom (objects st)))), st')
    | (Raise e, st') => (Raise e, st')
    end.
Proof.
  intros Hl. simpl. unfold bind at 1, h_lookup. rewrite Hl.
  unfold bind at 1, h_alloc. unfold bind at 1.
  change (fun item : pyval => bind _ _)
    with (list_body f encrypt (fresh (dom (objects st)))).
  by destruct (h_for elems _ _) as [[[]|e] st'].
Qed.

Lemma sim_value names : tf = Some names -> forall f, sim_at f.
Proof.
  intros Htf. induction f as [|f IH]; intros v t encrypt st Hagree Hreify Hwf;
    [done|].
  destruct v as [| | | | |l].
  1-5: (pose proof (reify_scalar _ _ _ _ Hreify) as ->;
        eexists _, st; split; [reflexivity|]; split; [reflexivity|];
        split; [reflexivity|]; split; [reflexivity|];
        eexists; split; [reflexivity|]; by apply denotes_new_scalar).
  simpl in Hreify.
  destruct (objects st !! l) as [[items|elems]|] eqn:Hl; [| |done].
  - (* a dict *)
    destruct (mapM _ items) as [t_items|] eqn:Hm; [|done].
    injection Hreify as <-. apply mapM_Some in Hm.
    apply wf_value_dict in Hwf as [Hnd Hwfs].
    assert (Hrel : Forall2 (fun kv kt =>
                     fst kv = fst kt
                     /\ reify f (objects st) (snd kv) = Some (snd kt))
                     items t_items).
    { eapply Forall2_impl; [|exact Hm]. intros [key field] [key' tfield].
      simpl. destruct (reify f (objects st) field); [|done].
      by intros [= -> ->]. }
    assert (Hkeys : map fst items = map fst t_items).
    { clear -Hrel. induction Hrel as [|? ? ? ? [Hk _] _ IHr]; [done|].
      simpl. by rewrite Hk, IHr. }
    set (l' := fresh (dom (objects st))).
    assert (Hfresh : objects st !! l' = None)
      by apply not_elem_of_dom, is_fresh.
    rewrite (h_value_dict_run _ _ _ _ _ Hl). fold l'.
    rewrite value_dict_unfold.
    unfold EncryptedJSONField._encrypt_or_decrypt_dict, bind.
    destruct (sim_dict_loop f encrypt l' (objects st) names IH Htf Hfresh
                items t_items Hrel Hwfs []
                (Store _ (<[l' := ODict items]> (objects st)) (fernet_keys st)
                   (the_world st)) ∅)
      as (r' & st' & Hrun & Hw & Hagree' & Hsub & Hres).
    + done.
    + simpl. by apply insert_subseteq.
    + simpl. by rewrite lookup_insert_eq.
    + simpl. by rewrite Hkeys.
    + apply map_empty_subseteq.
    + rewrite dom_empty. set_solver.
    + done.
    + rewrite Hrun. simpl in Hw, Hres.
      assert (Hk' : fernet_keys st' = fernet_keys st)
        by (unfold Simulation.agrees in *; congruence).
      destruct (EncryptedJSONField.dict_items_loop self t_items encrypt
                  (the_world st)) as [[t_items'|e] w']; simpl in *.
      2:{ subst r'. exists (Raise e), st'. by repeat (split; [done|]). }
      destruct Hres as (-> & items' & hacc' & Hobj' & _ & Hacc' & Hdisj'
                        & Haccl' & Hall).
      exists (Ok (PRef l')), st'. repeat (split; [done|]).
      exists (PRef l'). split; [done|].
      destruct (common_fuel hacc' snd snd _ _ _ Hall) as [N HallN].
      exists (<[l' := ODict items']> hacc'), (S N).
      split; [by apply insert_subseteq_l|]. split.
      * rewrite dom_insert. intros i [->%elem_of_singleton|Hi]%elem_of_union.
        -- by apply not_elem_of_dom.
        -- by apply (Hdisj' i).
      * simpl. rewrite lookup_insert_eq.
        assert (Hmap : mapM (fun kv : string * pyval =>
                         pair (fst kv)
                           <$> reify N (<[l' := ODict items']> hacc') (snd kv))
                         items' = Some t_items').
        { apply mapM_Some. eapply Forall2_impl; [|exact HallN].
          intros [key new] [key' tnew] [Hk Hr]. simpl in *. subst key'.
          erewrite reify_weaken; [done| |exact Hr]. by apply insert_subseteq. }
        by rewrite Hmap.
  - (* a list *)
    destruct (mapM _ elems) as [t_elems|] eqn:Hm; [|done].
    injection Hreify as <-. apply mapM_Some in Hm.
    apply wf_value_list in Hwf.
    set (l' := fresh (dom (objects st))).
    assert (Hfresh : objects st !! l' = None)
      by apply not_elem_of_dom, is_fresh.
    rewrite (h_value_list_run _ _ _ _ _ Hl). fold l'.
    rewrite value_list_unfold.
    unfold EncryptedJSONField._encrypt_or_decrypt_list, bind.
    destruct (sim_list_loop f encrypt l' (objects st) IH Hfresh
                elems t_elems Hm Hwf []
                (Store _ (<[l' := OList []]> (objects st)) (fernet_keys st)
                   (the_world st)) ∅)
      as (r' & st' & Hrun & Hw & Hagree' & Hsub & Hres).
    + done.
    + simpl. by apply insert_subseteq.
    + simpl. by rewrite lookup_insert_eq.
    + apply map_empty_subseteq.
    + rewrite dom_empty. set_solver.
    + done.
    + rewrite Hrun. simpl in Hw, Hres.
      assert (Hk' : fernet_keys st' = fernet_keys st)
        by (unfold Simulation.agrees in *; congruence).
      destruct (EncryptedJSONField.list_items_loop self t_elems encrypt
                  (the_world st)) as [[t_elems'|e] w']; simpl in *.
      2:{ subst r'. exists (Raise e), st'. by repeat (split; [done|]). }
      destruct Hres as (-> & elems' & hacc' & Hobj' & _ & Hacc' & Hdisj'
                        & Haccl' & Hall).
      exists (Ok (PRef l')), st'. repeat (split; [done|]).
      exists (PRef l'). split; [done|].
      destruct (common_fuel hacc' id id (fun _ _ => True) elems' t_elems')
        as [N HallN].
      { eapply Forall2_impl; [|exact Hall]. intros ? ? ?. by split. }
      exists (<[l' := OList elems']> hacc'), (S N).
      split; [by apply insert_subseteq_l|]. split.
      * rewrite dom_insert. intros i [->%elem_of_singleton|Hi]%elem_of_union.
        -- by apply not_elem_of_dom.
        -- by apply (Hdisj' i).
      * simpl. rewrite lookup_insert_eq.
        assert (Hmap : mapM (reify N (<[l' := OList elems']> hacc')) elems'
                       = Some t_elems').
        { apply mapM_Some. eapply Forall2_impl; [|exact HallN].
          intros new tnew [_ Hr]. simpl in *.
          erewrite reify_weaken; [done| |exact Hr]. by apply insert_subseteq. }
        by rewrite Hmap.
Qed.

End Refinement.

(** X13: the traversal on the heap and the traversal on trees agree:
    started on a value that denotes the well-formed tree [t], with the
    same key ring and in the same world, the heap walk makes the same
    runtime calls, raises when the tree walk raises, with the same
    exception, and otherwise returns a value that denotes the tree the
    tree walk returns. *)
Theorem heap_walk_computes_tree_walk `{Runtime} :
  forall (self : EncryptedJSONField.t) (names : list string) (fuel : nat)
         (v : Objects.pyval) (t : value) (encrypt : bool) (st : Objects.store),
    EncryptedJSONField.target_fields self = Some names ->
    Objects.fernet_keys st = EncryptedJSONField.fernet_keys self ->
    Objects.reify fuel (Objects.objects st) v = Some t ->
    wf_value t = true ->
    exists r' st',
      Objects._encrypt_or_decrypt_value fuel (Some names) v encrypt st
      = (r', st')
      /\ Objects.the_world st'
         = snd (EncryptedJSONField._encrypt_or_decrypt_value self t encrypt
                  (Objects.the_world st))
      /\ match fst (EncryptedJSONField._encrypt_or_decrypt_value self t encrypt
                      (Objects.the_world st)) with
         | Ok t' =>
             exists v' n,
               r' = Ok v'
               /\ Objects.reify n (Objects.objects st') v' = Some t'
         | Raise e => r' = Raise e
         end.
Proof.
  intros self names fuel v t encrypt st Htf Hagree Hreify Hwf.
  destruct (sim_value self names Htf fuel v t encrypt st Hagree Hreify Hwf)
    as (r' & st' & Hrun & Hw & _ & _ & Hsim).
  rewrite Htf in Hrun. exists r', st'. split; [done|]. split; [done|].
  destruct (fst _) as [t'|e]; [|done].
  destruct Hsim as (v' & -> & hnew & n & Hsub & _ & Hden).
  exists v', n. split; [done|]. by eapply reify_weaken.
Qed.

(** The same of [get_prep_value] under [target_fields]. *)
Corollary heap_get_prep_value_computes_tree_get_prep_value `{Runtime} :
  forall (self : EncryptedJSONField.t) (names : list string) (fuel : nat)
         (v : Objects.pyval) (t : value) (st : Objects.store),
    EncryptedJSONField.encrypt_all self = false ->
    EncryptedJSONField.target_fields self = Some names ->
    Objects.fernet_keys st = EncryptedJSONField.fernet_keys self ->
    Objects.reify fuel (Objects.objects st) v = Some t ->
    wf_value t = true ->
    exists r' st',
      Objects.get_prep_value fuel self v st = (r', st')
      /\ Objects.the_world st'
         = snd (EncryptedJSONField.get_prep_value self t (Objects.the_world st))
      /\ match fst (EncryptedJSONField.get_prep_value self t
                      (Objects.the_world st)) with
         | Ok t' =>
             exists v' n,
               r' = Ok v'
               /\ Objects.reify n (Objects.objects st') v' = Some t'
         | Raise e => r' = Raise e
         end.
Proof.
  intros self names fuel v t st Hall Htf Hagree Hreify Hwf.
  unfold Objects.get_prep_value, EncryptedJSONField.get_prep_value.
  rewrite Hall, Htf.
  destruct (sim_value self names Htf fuel v t true st Hagree Hreify Hwf)
    as (r' & st' & Hrun & Hw & _ & _ & Hsim).
  rewrite Htf in Hrun. exists r', st'. split; [done|]. split; [done|].
  destruct (fst _) as [t'|e]; [|done].
  destruct Hsim as (v' & -> & hnew & n & Hsub & _ & Hden).
  exists v', n. split; [done|]. by eapply reify_weaken.
Qed.

(** * Further properties *)

(** ** The text field and the edges of the key ring *)

Section TextField.
Context `{Runtime}.
Import BaseEncryptedField.

(** X1: a string written through [EncryptedTextField.get_prep_value]
    while the key [k] was the first of the ring is read back by
    [to_python] under every ring that holds [k], wherever [k] stands in
    it. *)
Theorem text_roundtrip_wherever_the_key_stands :
  token_is_text -> fernet_correct -> fernet_authentic -> codec_roundtrip ->
  forall (k : Key) (rest pre post : list Key) (s : string) (w : world),
    exists token,
      EncryptedTextField.get_prep_value
        (EncryptedTextField.Field (k :: rest) false) (VStr s) w
      = (Ok (VStr token), after w 1 [EvEncrypt k (str_encode s)])
      /\ forall w2,
           outcome (EncryptedTextField.from_db_value
                      (EncryptedTextField.Field (pre ++ k :: post) false)
                      (VStr token)) w2
           = Ok (VStr s).
Proof.
  intros Htext Hcorrect Hauth Hcodec k rest pre post s w.
  destruct (_encrypt_token k rest s w Htext) as (t & Ht & Hrun).
  exists t. split.
  - unfold EncryptedTextField.get_prep_value. simpl.
    by rewrite (bind_ok _ _ _ _ _ Hrun).
  - intros w2.
    destruct (outcome_ok_run _ w2 _
                (_decrypt_own_token k (clock w) s t pre post w2
                   Hcorrect Hauth Hcodec Ht)) as [w3 Hback].
    unfold outcome, EncryptedTextField.from_db_value,
      EncryptedTextField.to_python. simpl.
    by rewrite (bind_ok _ _ _ _ _ Hback).
Qed.

(** X2: what the text field cannot write or read.  A value that is not a
    string, [None] included, is refused by [get_prep_value] with
    [TypeError] before any call to Fernet; with no key in the ring every
    write raises [IndexError] and every read of a string raises
    [DecryptionFailed], again without a call. *)
Theorem text_field_refusals :
  forall (k : Key) (rest : list Key) (flag : bool) (v : value) (s : string)
         (w : world),
    (isinstance_str v = false ->
     EncryptedTextField.get_prep_value
       (EncryptedTextField.Field (k :: rest) flag) v w
     = (Raise TypeError, w))
    /\ EncryptedTextField.get_prep_value (EncryptedTextField.Field [] flag) v w
       = (Raise IndexError, w)
    /\ EncryptedTextField.to_python (EncryptedTextField.Field [] false)
         (VStr s) w
       = (Raise DecryptionFailed, w).
Proof.
  intros k rest flag v s w. split; [|by split].
  intros Hv. by destruct v.
Qed.
End TextField.

(** ** A target entry that is not a token *)

Section StoredPlain.
Context `{Runtime}.
Import BaseEncryptedField EncryptedJSONField.

Lemma target_field_decrypt_non_str self v w :
  isinstance_str v = false ->
  exists e,
    _encrypt_or_decrypt_target_field self v false w = (Raise e, w)
    /\ (fernet_keys self <> [] -> e = TypeError)
    /\ (fernet_keys self = [] -> e = DecryptionFailed).
Proof.
  intros Hv. unfold _encrypt_or_decrypt_target_field, _encrypt_or_decrypt_all.
  destruct (fernet_keys self) as [|k rest] eqn:Hring.
  - exists DecryptionFailed.
    split; [by destruct (isinstance_dict v || isinstance_list v)|].
    by split.
  - exists TypeError.
    split; [|by split].
    destruct (isinstance_dict v || isinstance_list v); by destruct v.
Qed.

(** The loop over the items stops at an entry whose step always raises,
    if no earlier entry stopped it. *)
Lemma dict_loop_stops_at self names encrypt items key v :
  target_fields self = Some names ->
  (key, v) ∈ items ->
  key ∈ names ->
  (forall w, exists e w',
      _encrypt_or_decrypt_target_field self v encrypt w = (Raise e, w')) ->
  forall w, exists e w',
    dict_items_loop self items encrypt w = (Raise e, w').
Proof.
  intros Hnames Hin Hkey Hstep.
  induction items as [|[key0 field0] rest IH]; intros w.
  - by apply elem_of_nil in Hin.
  - simpl. unfold bind at 1. rewrite (is_target_run _ _ _ _ Hnames).
    set (step := if bool_decide (key0 ∈ names)
                 then _encrypt_or_decrypt_target_field self field0 encrypt
                 else _encrypt_or_decrypt_value self field0 encrypt).
    destruct (step w) as [[new|e] w1] eqn:Hrun.
    + apply elem_of_cons in Hin as [[= <- <-] | Hin].
      * exfalso. subst step. rewrite bool_decide_eq_true_2 in Hrun by done.
        destruct (Hstep w) as (e & w' & He). congruence.
      * destruct (IH Hin w1) as (e & w' & Hloop).
        exists e, w'. rewrite (bind_ok _ _ _ _ _ Hrun).
        by rewrite (bind_raise _ _ _ _ _ Hloop).
    + exists e, w1. by rewrite (bind_raise _ _ _ _ _ Hrun).
Qed.

(** X3: on the way back a target entry is decrypted only if it is a
    string.  [_encrypt_or_decrypt_target_field] in the decrypt direction
    raises on every other value, a dict or a list included, without a
    call to Fernet or to [json.loads]: [TypeError], or [DecryptionFailed]
    when the ring is empty.  So [to_python] never returns when the stored
    JSON is a mapping with such a target entry. *)
Theorem non_string_target_cannot_be_read :
  forall (self : EncryptedJSONField.t) (names : list string)
         (items : list (string * value)) (key : string) (v : value)
         (stored : string) (w : world),
    isinstance_str v = false ->
    (exists e,
        _encrypt_or_decrypt_target_field self v false w = (Raise e, w)
        /\ (fernet_keys self <> [] -> e = TypeError)
        /\ (fernet_keys self = [] -> e = DecryptionFailed))
    /\ (encrypt_all self = false ->
        _already_decrypted self = false ->
        target_fields self = Some names ->
        json_loads stored = Some (VDict items) ->
        (key, v) ∈ items ->
        key ∈ names ->
        exists e, outcome (to_python self (VStr stored)) w = Raise e).
Proof.
  intros self names items key v stored w Hv.
  split; [by apply target_field_decrypt_non_str|].
  intros Hall Hflag Hnames Hloads Hin Hkey.
  destruct (dict_loop_stops_at self names false items key v Hnames Hin Hkey)
    with (w := after w 0 [EvLoads stored]) as (e & w' & Hloop).
  { intros w0.
    destruct (target_field_decrypt_non_str self v w0 Hv) as (e & He & _).
    eauto. }
  exists e. unfold outcome, to_python. rewrite Hall, Hflag.
  cbn [is_None isinstance_str negb orb].
  unfold bind at 1. rewrite call_loads_run, Hloads.
  rewrite value_dict_unfold. unfold _encrypt_or_decrypt_dict.
  by rewrite (bind_raise _ _ _ _ _ Hloop).
Qed.
End StoredPlain.

(** ** The calls each direction makes *)

Section Calls.
Context `{Runtime}.
Import BaseEncryptedField EncryptedJSONField.

Lemma emits_ret {A} allowed (a : A) : emits allowed (ret a).
Proof.
  intros w r w' [= <- <-]. exists []. by rewrite after_0_nil.
Qed.

Lemma emits_raise {A} allowed e : emits allowed (raise e : M A).
Proof.
  intros w r w' [= <- <-]. exists []. by rewrite after_0_nil.
Qed.

Lemma emits_bind {A B} allowed (m : M A) (f : A -> M B) :
  emits allowed m -> (forall a, emits allowed (f a)) ->
  emits allowed (bind m f).
Proof.
  intros Hm Hf w r w'. unfold bind.
  destruct (m w) as [[a|e] w1] eqn:Hrun.
  - intros Hrun2.
    destruct (Hm _ _ _ Hrun) as (evs1 & -> & Hall1).
    destruct (Hf a _ _ _ Hrun2) as (evs2 & -> & Hall2).
    exists (evs1 ++ evs2). split.
    + rewrite after_after, list.filter_app, length_app. f_equal. lia.
    + rewrite forallb_app. by rewrite Hall1, Hall2.
  - intros [= <- <-]. by apply (Hm _ _ _ Hrun).
Qed.

Lemma emits_call_encrypt allowed k data :
  allowed (EvEncrypt k data) = true -> emits allowed (call_encrypt k data).
Proof.
  intros Hok w r w'. rewrite call_encrypt_run. intros [= <- <-].
  exists [EvEncrypt k data]. split; [done|]. simpl. by rewrite Hok.
Qed.

Lemma emits_call_decrypt allowed k token :
  allowed (EvDecrypt k token) = true -> emits allowed (call_decrypt k token).
Proof.
  intros Hok w r w'. rewrite call_decrypt_run. intros [= <- <-].
  exists [EvDecrypt k token]. split; [done|]. simpl. by rewrite Hok.
Qed.

Lemma emits_call_dumps allowed v :
  allowed (EvDumps v) = true -> emits allowed (call_dumps v).
Proof.
  intros Hok w r w'. rewrite call_dumps_run. intros [= <- <-].
  exists [EvDumps v]. split; [done|]. simpl. by rewrite Hok.
Qed.

Lemma emits_call_loads allowed s :
  allowed (EvLoads s) = true -> emits allowed (call_loads s).
Proof.
  intros Hok w r w'. rewrite call_loads_run. intros [= <- <-].
  exists [EvLoads s]. split; [done|]. simpl. by rewrite Hok.
Qed.

Lemma emits_bytes_utf8 allowed v : emits allowed (bytes_utf8 v).
Proof.
  destruct v as [[| | | | | |]|]; first [apply emits_ret | apply emits_raise].
Qed.

Lemma emits_decode_utf8 allowed data : emits allowed (decode_utf8 data).
Proof.
  unfold decode_utf8.
  destruct (bytes_decode data); [apply emits_ret | apply emits_raise].
Qed.

Lemma emits_encrypt ring v : emits seal_event (_encrypt ring v).
Proof.
  destruct ring as [|k rest]; [apply emits_raise|]. simpl.
  apply emits_bind; [apply emits_bytes_utf8|]. intros data.
  apply emits_bind; [by apply emits_call_encrypt|]. intros token.
  apply emits_decode_utf8.
Qed.

Lemma emits_decrypt ring v : emits unseal_event (_decrypt ring v).
Proof.
  induction ring as [|k rest IH]; [apply emits_raise|]. simpl.
  apply emits_bind; [apply emits_bytes_utf8|]. intros data.
  apply emits_bind; [by apply emits_call_decrypt|].
  intros [plaintext|]; [apply emits_decode_utf8 | apply IH].
Qed.

Lemma emits_all self v encrypt :
  emits (direction_event encrypt) (_encrypt_or_decrypt_all self v encrypt).
Proof.
  unfold _encrypt_or_decrypt_all. destruct encrypt; simpl.
  - apply emits_bind; [by apply emits_call_dumps|]. intros s.
    apply emits_bind; [apply emits_encrypt|]. intros token. apply emits_ret.
  - apply emits_bind; [apply emits_decrypt|]. intros s.
    by apply emits_call_loads.
Qed.

Lemma emits_target_field self v encrypt :
  emits (direction_event encrypt)
        (_encrypt_or_decrypt_target_field self v encrypt).
Proof.
  unfold _encrypt_or_decrypt_target_field.
  destruct (isinstance_dict v || isinstance_list v); [apply emits_all|].
  destruct encrypt; simpl.
  - apply emits_bind; [apply emits_encrypt|]. intros token. apply emits_ret.
  - apply emits_bind; [apply emits_decrypt|]. intros s. apply emits_ret.
Qed.

Lemma emits_is_target allowed self key : emits allowed (is_target self key).
Proof.
  unfold is_target.
  destruct (target_fields self); [apply emits_ret | apply emits_raise].
Qed.

Lemma emits_value self encrypt v :
  emits (direction_event encrypt) (_encrypt_or_decrypt_value self v encrypt).
Proof.
  induction v as [| | | | |elems IH|items IH] using value_ind;
    try apply emits_ret.
  - rewrite value_list_unfold. unfold _encrypt_or_decrypt_list.
    apply emits_bind; [|intros r; apply emits_ret].
    induction IH as [|x r Hx _ IHr]; [apply emits_ret|]. simpl.
    apply emits_bind; [exact Hx|]. intros new.
    apply emits_bind; [exact IHr|]. intros r'. apply emits_ret.
  - rewrite value_dict_unfold. unfold _encrypt_or_decrypt_dict.
    apply emits_bind; [|intros r; apply emits_ret].
    induction IH as [|[key x] r Hx _ IHr]; [apply emits_ret|]. simpl.
    apply emits_bind; [apply emits_is_target|]. intros hit.
    apply emits_bind.
    { destruct hit; [apply emits_target_field | exact Hx]. }
    intros new. apply emits_bind; [exact IHr|]. intros r'. apply emits_ret.
Qed.

Lemma no_encrypt_among_unseal_events (evs : list event) :
  forallb unseal_event evs = true ->
  filter (fun ev => is_encrypt_event ev = true) evs = [].
Proof.
  induction evs as [|ev evs IH]; [done|]. simpl.
  intros [Hev Hevs]%andb_true_iff.
  rewrite filter_cons_False; [by apply IH|]. by destruct ev.
Qed.

(** X4: the two directions make different calls.  Whatever
    [get_prep_value] returns or raises, the calls it has made are
    [json.dumps] and [encrypt] calls only, and it has issued one token per
    [encrypt] call; whatever [to_python] returns or raises, it has made
    [decrypt] and [json.loads] calls only and has issued no token. *)
Theorem each_direction_makes_its_own_calls :
  forall (self : EncryptedJSONField.t) (v : value) (w w' : world)
         (r : result value),
    (get_prep_value self v w = (r, w') ->
     exists evs,
       trace w' = trace w ++ evs
       /\ forallb seal_event evs = true
       /\ clock w'
          = length (filter (fun ev => is_encrypt_event ev = true) evs)
            + clock w)
    /\ (to_python self v w = (r, w') ->
        exists evs,
          trace w' = trace w ++ evs
          /\ forallb unseal_event evs = true
          /\ clock w' = clock w).
Proof.
  intros self v w w' r. split.
  - intros Hrun.
    assert (Hemits : emits seal_event (get_prep_value self v)).
    { unfold get_prep_value. destruct (encrypt_all self).
      - apply (emits_all self v true).
      - apply (emits_value self true). }
    destruct (Hemits _ _ _ Hrun) as (evs & -> & Hall). by exists evs.
  - intros Hrun.
    assert (Hemits : emits unseal_event (to_python self v)).
    { unfold to_python.
      destruct (is_None v || negb (isinstance_str v) || _already_decrypted self);
        [apply emits_ret|].
      destruct (encrypt_all self); [apply (emits_all self v false)|].
      destruct v; try apply emits_raise.
      apply emits_bind; [by apply emits_call_loads|]. intros parsed.
      apply (emits_value self false). }
    destruct (Hemits _ _ _ Hrun) as (evs & -> & Hall). exists evs.
    split; [done|]. split; [done|]. simpl.
    by rewrite (no_encrypt_among_unseal_events _ Hall).
Qed.
End Calls.

(** ** What the walk leaves as it is *)

Section Untouched.
Context `{Runtime}.
Import BaseEncryptedField EncryptedJSONField.

Lemma same_outside_targets_list names elems elems' :
  same_outside_targets names (VList elems) (VList elems') = true
  <-> Forall2 (fun x x' => same_outside_targets names x x' = true)
              elems elems'.
Proof.
  simpl. revert elems'.
  induction elems as [|x r IH]; intros [|x' r']; simpl.
  - split; [constructor | done].
  - split; [done | inversion 1].
  - split; [done | inversion 1].
  - rewrite andb_true_iff, IH. split.
    + intros [? ?]. by constructor.
    + by inversion 1.
Qed.

Lemma same_outside_targets_dict names items items' :
  same_outside_targets names (VDict items) (VDict items') = true
  <-> Forall2 (fun kv kv' =>
                 fst kv = fst kv'
                 /\ (fst kv ∈ names
                     \/ same_outside_targets names (snd kv) (snd kv') = true))
              items items'.
Proof.
  simpl. revert items'.
  induction items as [|[k x] r IH]; intros [|[k' x'] r']; simpl.
  - split; [constructor | done].
  - split; [done | inversion 1].
  - split; [done | inversion 1].
  - rewrite !andb_true_iff, bool_decide_eq_true, IH. split.
    + intros [[-> Hx] Hr]. constructor; [|done]. simpl. split; [done|].
      destruct (decide (k' ∈ names)) as [Hin|Hnin]; [by left|].
      right. by rewrite bool_decide_eq_false_2 in Hx.
    + inversion 1 as [|? ? ? ? [Hk Hx] Hr]; subst. simpl in *. subst.
      split; [split; [done|] | done].
      destruct (decide (k' ∈ names)) as [Hin|Hnin].
      * by rewrite bool_decide_eq_true_2.
      * rewrite bool_decide_eq_false_2 by done. by destruct Hx.
Qed.

Lemma same_outside_targets_scalar names v :
  is_scalar v = true -> same_outside_targets names v v = true.
Proof. destruct v; try done; intros _; simpl; by apply bool_decide_eq_true_2. Qed.

Lemma walk_same_outside_targets self names encrypt v :
  target_fields self = Some names ->
  forall w v' w',
    _encrypt_or_decrypt_value self v encrypt w = (Ok v', w') ->
    same_outside_targets names v v' = true.
Proof.
  intros Hnames.
  induction v as [| | | | |elems IH|items IH] using value_ind; intros w v' w';
    try (intros [= <- <-]; by apply same_outside_targets_scalar).
  - rewrite value_list_unfold. unfold _encrypt_or_decrypt_list.
    intros (elems' & w1 & Hloop & [= <- <-])%bind_inv_ok.
    apply same_outside_targets_list.
    revert w elems' Hloop.
    induction IH as [|x r Hx _ IHr]; intros w elems'; simpl.
    + intros [= <- <-]. constructor.
    + intros (new & w2 & Hnew & Hrest)%bind_inv_ok.
      apply bind_inv_ok in Hrest as (r' & w3 & Hr' & [= <- <-]).
      constructor; [by eapply Hx | by eapply IHr].
  - rewrite value_dict_unfold. unfold _encrypt_or_decrypt_dict.
    intros (items' & w1 & Hloop & [= <- <-])%bind_inv_ok.
    apply same_outside_targets_dict.
    revert w items' Hloop.
    induction IH as [|[key x] r Hx _ IHr]; intros w items'; simpl.
    + intros [= <- <-]. constructor.
    + unfold bind at 1. rewrite (is_target_run _ _ _ _ Hnames).
      intros (new & w2 & Hnew & Hrest)%bind_inv_ok.
      apply bind_inv_ok in Hrest as (r' & w3 & Hr' & [= <- <-]).
      constructor; [|by eapply IHr]. simpl. split; [done|].
      destruct (decide (key ∈ names)) as [Hin|Hnin]; [by left|].
      right. rewrite bool_decide_eq_false_2 in Hnew by done.
      by eapply Hx.
Qed.

Lemma Forall2_same_keys {A B} (P : string * A -> string * B -> Prop)
    (l : list (string * A)) (l' : list (string * B)) :
  Forall2 (fun kv kv' => fst kv = fst kv' /\ P kv kv') l l' ->
  map fst l' = map fst l.
Proof.
  induction 1 as [|? ? ? ? [Hk _] _ IH]; [done|]. simpl. by rewrite Hk, IH.
Qed.

(** X5: the walk changes nothing but the values of target entries.  When
    [_encrypt_or_decrypt_value] returns, in either direction, a dict has
    become a dict with the same keys in the same order, a list a list of
    the same length, a scalar is returned as it is, and this holds at
    every depth the walk reaches outside the values of target entries. *)
Theorem walk_changes_only_target_values :
  forall (self : EncryptedJSONField.t) (names : list string) (v v' : value)
         (encrypt : bool) (w w' : world),
    target_fields self = Some names ->
    _encrypt_or_decrypt_value self v encrypt w = (Ok v', w') ->
    same_outside_targets names v v' = true
    /\ (forall items,
          v = VDict items ->
          exists items', v' = VDict items' /\ map fst items' = map fst items)
    /\ (forall elems,
          v = VList elems ->
          exists elems', v' = VList elems' /\ length elems' = length elems)
    /\ (is_scalar v = true -> v' = v /\ w' = w).
Proof.
  intros self names v v' encrypt w w' Hnames Hrun.
  pose proof (walk_same_outside_targets self names encrypt v Hnames _ _ _ Hrun)
    as Hsame.
  split; [done|]. split; [|split].
  - intros items ->. destruct v' as [| | | | | |items']; try done.
    exists items'. split; [done|].
    apply same_outside_targets_dict in Hsame.
    exact (Forall2_same_keys
             (fun kv kv' : string * value =>
                fst kv ∈ names
                \/ same_outside_targets names (snd kv) (snd kv') = true)
             _ _ Hsame).
  - intros elems ->. destruct v' as [| | | | |elems'|]; try done.
    exists elems'. split; [done|].
    apply same_outside_targets_list in Hsame.
    symmetry. by eapply Forall2_length.
  - intros Hscalar. rewrite value_scalar_run in Hrun by done.
    by injection Hrun as <- <-.
Qed.

Lemma walk_without_targets self names encrypt v :
  target_fields self = Some names ->
  targets_all names (fun _ => false) v = true ->
  forall w, _encrypt_or_decrypt_value self v encrypt w = (Ok v, w).
Proof.
  intros Hnames.
  induction v as [| | | | |elems IH|items IH] using value_ind; intros Hv w;
    try done.
  - apply targets_all_list in Hv.
    rewrite value_list_unfold. unfold _encrypt_or_decrypt_list.
    assert (Hloop : forall w0, list_items_loop self elems encrypt w0
                               = (Ok elems, w0)).
    { induction IH as [|x r Hx _ IHr]; intros w0; [done|].
      apply Forall_cons_iff in Hv as [Hvx Hvr]. simpl.
      rewrite (bind_ok _ _ _ _ _ (Hx Hvx w0)).
      by rewrite (bind_ok _ _ _ _ _ (IHr Hvr w0)). }
    by rewrite (bind_ok _ _ _ _ _ (Hloop w)).
  - apply targets_all_dict in Hv.
    rewrite value_dict_unfold. unfold _encrypt_or_decrypt_dict.
    assert (Hloop : forall w0, dict_items_loop self items encrypt w0
                               = (Ok items, w0)).
    { induction IH as [|[key x] r Hx _ IHr]; intros w0; [done|].
      apply Forall_cons_iff in Hv as [Hvx Hvr]. simpl in Hvx, Hx. simpl.
      unfold bind at 1. rewrite (is_target_run _ _ _ _ Hnames).
      destruct (bool_decide (key ∈ names)); [done|].
      rewrite (bind_ok _ _ _ _ _ (Hx Hvx w0)).
      by rewrite (bind_ok _ _ _ _ _ (IHr Hvr w0)). }
    by rewrite (bind_ok _ _ _ _ _ (Hloop w)).
Qed.

(** X6: a value in which the walk meets no target key (no dict reached
    through lists and non-target entries has a key of [target_fields])
    goes through [get_prep_value] as it is, and so does it through the
    walk of [to_python], without any call to Fernet or to [json]: strings
    in lists and under other keys are never encrypted. *)
Theorem value_without_target_keys_is_left_alone :
  forall (self : EncryptedJSONField.t) (names : list string) (v : value)
         (w : world),
    encrypt_all self = false ->
    target_fields self = Some names ->
    targets_all names (fun _ => false) v = true ->
    get_prep_value self v w = (Ok v, w)
    /\ _encrypt_or_decrypt_value self v false w = (Ok v, w).
Proof.
  intros self names v w Hall Hnames Hv. unfold get_prep_value. rewrite Hall.
  split; by apply (walk_without_targets self names).
Qed.

(** X7: what [get_prep_value] returns has the type of the column
    [get_internal_type] names: under [encrypt_all] the column is a
    ["TextField"] and the prepared value is a string; otherwise the column
    is a ["JSONField"] and the prepared value is a dict for a dict, a list
    for a list and the scalar itself for a scalar. *)
Theorem prepared_value_fits_the_column :
  forall (self : EncryptedJSONField.t) (v v' : value) (w w' : world),
    get_prep_value self v w = (Ok v', w') ->
    (encrypt_all self = true ->
     get_internal_type self = "TextField" /\ isinstance_str v' = true)
    /\ (encrypt_all self = false ->
        get_internal_type self = "JSONField"
        /\ isinstance_dict v' = isinstance_dict v
        /\ isinstance_list v' = isinstance_list v
        /\ (is_scalar v = true -> v' = v)).
Proof.
  intros self v v' w w'. unfold get_prep_value, get_internal_type.
  destruct (encrypt_all self); intros Hrun.
  - split; [intros _ | intros [=]].
    split; [done|]. unfold _encrypt_or_decrypt_all in Hrun.
    apply bind_inv_ok in Hrun as (s & w1 & _ & Hrun).
    by apply bind_inv_ok in Hrun as (token & w2 & _ & [= <- _]).
  - split; [intros [=] | intros _].
    split; [done|]. destruct v as [| | | | |elems|items];
      try (injection Hrun as <- _; by repeat split).
    + rewrite value_list_unfold in Hrun.
      by apply bind_inv_ok in Hrun as (elems' & w1 & _ & [= <- _]).
    + rewrite value_dict_unfold in Hrun.
      by apply bind_inv_ok in Hrun as (items' & w1 & _ & [= <- _]).
Qed.
End Untouched.

(** ** Stored strings that cannot be read *)

Section Malformed.
Context `{Runtime}.
Import BaseEncryptedField EncryptedJSONField.

(** X8: the order of the checks in [to_python].  Under [target_fields]
    a stored string that is not JSON raises [JSONDecodeError] after the
    one [json.loads] call, no key being tried.  Under [encrypt_all] the
    token is decrypted first: a string every key rejects raises
    [DecryptionFailed] and [json.loads] is not called; a token whose text
    is not JSON raises [JSONDecodeError] after the [decrypt] call. *)
Theorem to_python_on_unreadable_strings :
  forall (self : EncryptedJSONField.t) (stored : string) (w : world),
    _already_decrypted self = false ->
    (encrypt_all self = false ->
     json_loads stored = None ->
     to_python self (VStr stored) w
     = (Raise JSONDecodeError, after w 0 [EvLoads stored]))
    /\ (encrypt_all self = true ->
        Forall (fun k => rejects k stored) (fernet_keys self) ->
        to_python self (VStr stored) w
        = (Raise DecryptionFailed,
           after w 0 (attempts (fernet_keys self) stored)))
    /\ (encrypt_all self = true ->
        forall k rest plaintext text,
          fernet_keys self = k :: rest ->
          fernet_decrypt k (str_encode stored) = Some plaintext ->
          bytes_decode plaintext = Some text ->
          json_loads text = None ->
          to_python self (VStr stored) w
          = (Raise JSONDecodeError,
             after w 0 [EvDecrypt k (str_encode stored); EvLoads text])).
Proof.
  intros self stored w Hflag. unfold to_python. rewrite Hflag.
  cbn [is_None isinstance_str negb orb]. split; [|split].
  - intros -> Hloads. unfold bind. by rewrite call_loads_run, Hloads.
  - intros -> Hall. unfold _encrypt_or_decrypt_all.
    by rewrite (bind_raise _ _ _ _ _ (_decrypt_all_reject _ _ w Hall)).
  - intros -> k rest plaintext text Hring Hk Hdec Hloads.
    unfold _encrypt_or_decrypt_all. rewrite Hring.
    assert (Hrun : _decrypt (k :: rest) (VStr stored) w
                   = (Ok text, after w 0 [EvDecrypt k (str_encode stored)])).
    { rewrite (_decrypt_cons_accept _ _ _ _ _ Hk). unfold decode_utf8.
      by rewrite Hdec. }
    rewrite (bind_ok _ _ _ _ _ Hrun), call_loads_run, Hloads.
    by rewrite after_after.
Qed.
End Malformed.

(** ** The JSON field after a key rotation *)

Section JsonRotation.
Context `{Runtime}.
Import BaseEncryptedField EncryptedJSONField.

Hypothesis Htext : token_is_text.
Hypothesis Hcorrect : fernet_correct.
Hypothesis Hauth : fernet_authentic.
Hypothesis Hcodec : codec_roundtrip.

Variables self self' : EncryptedJSONField.t.
Variable k : Key.
Variables rest pre post : list Key.
Variable names : list string.
Hypothesis Hring : fernet_keys self = k :: rest.
Hypothesis Hring' : fernet_keys self' = pre ++ k :: post.
Hypothesis Hnames : target_fields self = Some names.
Hypothesis Hnames' : target_fields self' = Some names.

Lemma target_field_decrypt_rotated n s t w :
  str_encode t = fernet_encrypt k n (str_encode s) ->
  exists w',
    _encrypt_or_decrypt_target_field self' (VStr t) false w
    = (Ok (VStr s), w').
Proof.
  intros Ht.
  destruct (outcome_ok_run _ w _
              (_decrypt_own_token k n s t pre post w Hcorrect Hauth Hcodec Ht))
    as [w' Hrun].
  exists w'. unfold _encrypt_or_decrypt_target_field. simpl. rewrite Hring'.
  by rewrite (bind_ok _ _ _ _ _ Hrun).
Qed.

Lemma dict_loop_roundtrip_between items :
  Forall (fun kv =>
            targets_all names isinstance_str (snd kv) = true ->
            walk_roundtrips_between self self' (snd kv)) items ->
  Forall (fun kv =>
            (if bool_decide (fst kv ∈ names) then isinstance_str (snd kv)
             else targets_all names isinstance_str (snd kv)) = true) items ->
  forall w, exists items' w',
    dict_items_loop self items true w = (Ok items', w')
    /\ map fst items' = map fst items
    /\ (Forall (fun kv => wf_value (snd kv) = true) items ->
        Forall (fun kv => wf_value (snd kv) = true) items')
    /\ forall w2, exists w2',
         dict_items_loop self' items' false w2 = (Ok items, w2').
Proof.
  induction 1 as [|[key field] tail Hfield _ IH]; intros Hall w.
  - exists [], w. repeat split; [done|]. intros w2. by exists w2.
  - apply Forall_cons_iff in Hall as [Hhead Htail]. simpl in Hhead, Hfield.
    specialize (IH Htail).
    assert (Hstep : exists new w1,
               (if bool_decide (key ∈ names)
                then _encrypt_or_decrypt_target_field self field true
                else _encrypt_or_decrypt_value self field true) w
               = (Ok new, w1)
               /\ (wf_value field = true -> wf_value new = true)
               /\ forall w2, exists w2',
                    (if bool_decide (key ∈ names)
                     then _encrypt_or_decrypt_target_field self' new false
                     else _encrypt_or_decrypt_value self' new false) w2
                    = (Ok field, w2')).
    { destruct (bool_decide (key ∈ names)).
      - destruct field as [| | | |s| |]; try discriminate.
        destruct (target_field_str_run self k rest s w Htext Hring)
          as (t & Ht & Hrun).
        exists (VStr t), (after w 1 [EvEncrypt k (str_encode s)]).
        repeat split; [done|]. intros w2.
        by apply (target_field_decrypt_rotated (clock w)).
      - by apply Hfield. }
    destruct Hstep as (new & w1 & Hnew & Hwf & Hback).
    destruct (IH w1) as (tail' & w' & Htail' & Hkeys & Hwfs & Hbacks).
    exists ((key, new) :: tail'), w'. repeat split.
    + simpl. unfold bind at 1. rewrite (is_target_run _ _ _ _ Hnames).
      rewrite (bind_ok _ _ _ _ _ Hnew). by rewrite (bind_ok _ _ _ _ _ Htail').
    + simpl. by rewrite Hkeys.
    + intros [Hw Hws]%Forall_cons_iff. constructor; auto.
    + intros w2. destruct (Hback w2) as [w3 Hrun].
      destruct (Hbacks w3) as [w4 Hruns]. exists w4.
      simpl. unfold bind at 1. rewrite (is_target_run _ _ _ _ Hnames').
      rewrite (bind_ok _ _ _ _ _ Hrun). by rewrite (bind_ok _ _ _ _ _ Hruns).
Qed.

Lemma list_loop_roundtrip_between elems :
  Forall (fun v =>
            targets_all names isinstance_str v = true ->
            walk_roundtrips_between self self' v) elems ->
  Forall (fun v => targets_all names isinstance_str v = true) elems ->
  forall w, exists elems' w',
    list_items_loop self elems true w = (Ok elems', w')
    /\ (Forall (fun v => wf_value v = true) elems ->
        Forall (fun v => wf_value v = true) elems')
    /\ forall w2, exists w2',
         list_items_loop self' elems' false w2 = (Ok elems, w2').
Proof.
  induction 1 as [|item tail Hitem _ IH]; intros Hall w.
  - exists [], w. repeat split; [done|]. intros w2. by exists w2.
  - apply Forall_cons_iff in Hall as [Hhead Htail].
    destruct (Hitem Hhead w) as (new & w1 & Hnew & Hwf & Hback).
    destruct (IH Htail w1) as (tail' & w' & Htail' & Hwfs & Hbacks).
    exists (new :: tail'), w'. repeat split.
    + simpl. rewrite (bind_ok _ _ _ _ _ Hnew).
      by rewrite (bind_ok _ _ _ _ _ Htail').
    + intros [Hw Hws]%Forall_cons_iff. constructor; auto.
    + intros w2. destruct (Hback w2) as [w3 Hrun].
      destruct (Hbacks w3) as [w4 Hruns]. exists w4.
      simpl. rewrite (bind_ok _ _ _ _ _ Hrun).
      by rewrite (bind_ok _ _ _ _ _ Hruns).
Qed.

Lemma walk_roundtrip_between v :
  targets_all names isinstance_str v = true ->
  walk_roundtrips_between self self' v.
Proof.
  induction v as [| | | | |elems IH|items IH] using value_ind;
    try (intros _ w; eexists _, w; split; [reflexivity|]; split; [done|];
         intros w2; by exists w2);
    intros Hv w.
  - apply targets_all_list in Hv.
    destruct (list_loop_roundtrip_between elems IH Hv w)
      as (elems' & w' & Hrun & Hwf & Hback).
    exists (VList elems'), w'. repeat split.
    + rewrite value_list_unfold. unfold _encrypt_or_decrypt_list.
      by rewrite (bind_ok _ _ _ _ _ Hrun).
    + rewrite !wf_value_list. apply Hwf.
    + intros w2. destruct (Hback w2) as [w2' Hrun2]. exists w2'.
      rewrite value_list_unfold. unfold _encrypt_or_decrypt_list.
      by rewrite (bind_ok _ _ _ _ _ Hrun2).
  - apply targets_all_dict in Hv.
    destruct (dict_loop_roundtrip_between items IH Hv w)
      as (items' & w' & Hrun & Hkeys & Hwf & Hback).
    exists (VDict items'), w'. repeat split.
    + rewrite value_dict_unfold. unfold _encrypt_or_decrypt_dict.
      by rewrite (bind_ok _ _ _ _ _ Hrun).
    + rewrite !wf_value_dict, Hkeys. intros [? ?]. auto.
    + intros w2. destruct (Hback w2) as [w2' Hrun2]. exists w2'.
      rewrite value_dict_unfold. unfold _encrypt_or_decrypt_dict.
      by rewrite (bind_ok _ _ _ _ _ Hrun2).
Qed.

(** What a target entry is sealed to, and what is read back for it. *)
Lemma target_field_reads_back x w :
  sealable x = true ->
  exists new w1,
    _encrypt_or_decrypt_target_field self x true w = (Ok new, w1)
    /\ wf_value new = true
    /\ forall w2, exists w2',
         _encrypt_or_decrypt_target_field self' new false w2
         = (Ok (if isinstance_dict x || isinstance_list x
                then VStr (json_dumps x) else x), w2').
Proof.
  intros Hx. destruct x as [| | | |s|elems|items]; try discriminate.
  - destruct (target_field_str_run self k rest s w Htext Hring)
      as (t & Ht & Hrun).
    exists (VStr t), (after w 1 [EvEncrypt k (str_encode s)]).
    split; [done|]. split; [done|]. intros w2.
    by apply (target_field_decrypt_rotated (clock w)).
  - destruct (target_field_structure_run self k rest (VList elems) w
                Htext Hring eq_refl) as (t & Ht & Hrun).
    eexists (VStr t), _. split; [exact Hrun|]. split; [done|]. intros w2.
    by apply (target_field_decrypt_rotated (clock w)).
  - destruct (target_field_structure_run self k rest (VDict items) w
                Htext Hring eq_refl) as (t & Ht & Hrun).
    eexists (VStr t), _. split; [exact Hrun|]. split; [done|]. intros w2.
    by apply (target_field_decrypt_rotated (clock w)).
Qed.

Lemma read_back_dict items :
  read_back names (VDict items)
  = VDict (map (fun kv =>
                  (fst kv,
                   if bool_decide (fst kv ∈ names)
                   then (if isinstance_dict (snd kv) || isinstance_list (snd kv)
                         then VStr (json_dumps (snd kv))
                         else snd kv)
                   else read_back names (snd kv))) items).
Proof.
  simpl. f_equal. induction items as [|[key x] r IH]; [done|].
  simpl. by rewrite IH.
Qed.

Lemma dict_loop_reads_back items :
  Forall (fun kv =>
            targets_all names sealable (snd kv) = true ->
            walk_reads_back self self' names (snd kv)) items ->
  Forall (fun kv =>
            (if bool_decide (fst kv ∈ names) then sealable (snd kv)
             else targets_all names sealable (snd kv)) = true) items ->
  forall w, exists items' w',
    dict_items_loop self items true w = (Ok items', w')
    /\ map fst items' = map fst items
    /\ (Forall (fun kv => wf_value (snd kv) = true) items ->
        Forall (fun kv => wf_value (snd kv) = true) items')
    /\ forall w2, exists w2',
         dict_items_loop self' items' false w2
         = (Ok (map (fun kv =>
                       (fst kv,
                        if bool_decide (fst kv ∈ names)
                        then (if isinstance_dict (snd kv)
                                 || isinstance_list (snd kv)
                              then VStr (json_dumps (snd kv))
                              else snd kv)
                        else read_back names (snd kv))) items), w2').
Proof.
  induction 1 as [|[key field] tail Hfield _ IH]; intros Hall w.
  - exists [], w. repeat split; [done|]. intros w2. by exists w2.
  - apply Forall_cons_iff in Hall as [Hhead Htail]. simpl in Hhead, Hfield.
    specialize (IH Htail).
    assert (Hstep : exists new w1,
               (if bool_decide (key ∈ names)
                then _encrypt_or_decrypt_target_field self field true
                else _encrypt_or_decrypt_value self field true) w
               = (Ok new, w1)
               /\ (wf_value field = true -> wf_value new = true)
               /\ forall w2, exists w2',
                    (if bool_decide (key ∈ names)
                     then _encrypt_or_decrypt_target_field self' new false
                     else _encrypt_or_decrypt_value self' new false) w2
                    = (Ok (if bool_decide (key ∈ names)
                           then (if isinstance_dict field
                                    || isinstance_list field
                                 then VStr (json_dumps field)
                                 else field)
                           else read_back names field), w2')).
    { destruct (bool_decide (key ∈ names)).
      - destruct (target_field_reads_back field w Hhead)
          as (new & w1 & Hrun & Hwf & Hback).
        by exists new, w1.
      - by apply Hfield. }
    destruct Hstep as (new & w1 & Hnew & Hwf & Hback).
    destruct (IH w1) as (tail' & w' & Htail' & Hkeys & Hwfs & Hbacks).
    exists ((key, new) :: tail'), w'. repeat split.
    + simpl. unfold bind at 1. rewrite (is_target_run _ _ _ _ Hnames).
      rewrite (bind_ok _ _ _ _ _ Hnew). by rewrite (bind_ok _ _ _ _ _ Htail').
    + simpl. by rewrite Hkeys.
    + intros [Hw Hws]%Forall_cons_iff. constructor; auto.
    + intros w2. destruct (Hback w2) as [w3 Hrun].
      destruct (Hbacks w3) as [w4 Hruns]. exists w4.
      simpl. unfold bind at 1. rewrite (is_target_run _ _ _ _ Hnames').
      rewrite (bind_ok _ _ _ _ _ Hrun). by rewrite (bind_ok _ _ _ _ _ Hruns).
Qed.

Lemma list_loop_reads_back elems :
  Forall (fun v =>
            targets_all names sealable v = true ->
            walk_reads_back self self' names v) elems ->
  Forall (fun v => targets_all names sealable v = true) elems ->
  forall w, exists elems' w',
    list_items_loop self elems true w = (Ok elems', w')
    /\ (Forall (fun v => wf_value v = true) elems ->
        Forall (fun v => wf_value v = true) elems')
    /\ forall w2, exists w2',
         list_items_loop self' elems' false w2
         = (Ok (map (read_back names) elems), w2').
Proof.
  induction 1 as [|item tail Hitem _ IH]; intros Hall w.
  - exists [], w. repeat split; [done|]. intros w2. by exists w2.
  - apply Forall_cons_iff in Hall as [Hhead Htail].
    destruct (Hitem Hhead w) as (new & w1 & Hnew & Hwf & Hback).
    destruct (IH Htail w1) as (tail' & w' & Htail' & Hwfs & Hbacks).
    exists (new :: tail'), w'. repeat split.
    + simpl. rewrite (bind_ok _ _ _ _ _ Hnew).
      by rewrite (bind_ok _ _ _ _ _ Htail').
    + intros [Hw Hws]%Forall_cons_iff. constructor; auto.
    + intros w2. destruct (Hback w2) as [w3 Hrun].
      destruct (Hbacks w3) as [w4 Hruns]. exists w4.
      simpl. rewrite (bind_ok _ _ _ _ _ Hrun).
      by rewrite (bind_ok _ _ _ _ _ Hruns).
Qed.

Lemma walk_reads_back_all v :
  targets_all names sealable v = true -> walk_reads_back self self' names v.
Proof.
  induction v as [| | | | |elems IH|items IH] using value_ind;
    try (intros _ w; eexists _, w; split; [reflexivity|]; split; [done|];
         intros w2; by exists w2);
    intros Hv w.
  - apply targets_all_list in Hv.
    destruct (list_loop_reads_back elems IH Hv w)
      as (elems' & w' & Hrun & Hwf & Hback).
    exists (VList elems'), w'. repeat split.
    + rewrite value_list_unfold. unfold _encrypt_or_decrypt_list.
      by rewrite (bind_ok _ _ _ _ _ Hrun).
    + rewrite !wf_value_list. apply Hwf.
    + intros w2. destruct (Hback w2) as [w2' Hrun2]. exists w2'.
      rewrite value_list_unfold. unfold _encrypt_or_decrypt_list.
      by rewrite (bind_ok _ _ _ _ _ Hrun2).
  - apply targets_all_dict in Hv.
    destruct (dict_loop_reads_back items IH Hv w)
      as (items' & w' & Hrun & Hkeys & Hwf & Hback).
    exists (VDict items'), w'. repeat split.
    + rewrite value_dict_unfold. unfold _encrypt_or_decrypt_dict.
      by rewrite (bind_ok _ _ _ _ _ Hrun).
    + rewrite !wf_value_dict, Hkeys. intros [? ?]. auto.
    + intros w2. destruct (Hback w2) as [w2' Hrun2]. exists w2'.
      rewrite value_dict_unfold, read_back_dict.
      unfold _encrypt_or_decrypt_dict.
      by rewrite (bind_ok _ _ _ _ _ Hrun2).
Qed.

(** What is read back is what was sealed exactly when the target entries
    hold strings. *)
Lemma read_back_fixed v :
  targets_all names sealable v = true ->
  read_back names v = v <-> targets_all names isinstance_str v = true.
Proof.
  induction v as [| | | | |elems IH|items IH] using value_ind; try done.
  - intros Hv. apply targets_all_list in Hv. rewrite targets_all_list.
    assert (Hlist : map (read_back names) elems = elems
                    <-> Forall (fun v => targets_all names isinstance_str v
                                         = true) elems).
    { induction elems as [|x r IHr]; [by split; [constructor|]|].
      apply Forall_cons_iff in IH as [Hx Hr].
      apply Forall_cons_iff in Hv as [Hvx Hvr].
      simpl. rewrite Forall_cons_iff, <- (Hx Hvx), <- (IHr Hr Hvr).
      split; [by intros [= H1 H2] | intros [H1 H2]; by rewrite H1, H2]. }
    simpl. rewrite <- Hlist. split; [by intros [= ?] | by intros ->].
  - intros Hv. apply targets_all_dict in Hv.
    rewrite targets_all_dict, read_back_dict.
    assert (Hlist :
              map (fun kv =>
                     (fst kv,
                      if bool_decide (fst kv ∈ names)
                      then (if isinstance_dict (snd kv)
                               || isinstance_list (snd kv)
                            then VStr (json_dumps (snd kv))
                            else snd kv)
                      else read_back names (snd kv))) items = items
              <-> Forall (fun kv =>
                            (if bool_decide (fst kv ∈ names)
                             then isinstance_str (snd kv)
                             else targets_all names isinstance_str (snd kv))
                            = true) items).
    { induction items as [|[key x] r IHr]; [by split; [constructor|]|].
      apply Forall_cons_iff in IH as [Hx Hr].
      apply Forall_cons_iff in Hv as [Hvx Hvr].
      simpl in Hx, Hvx. simpl map. rewrite Forall_cons_iff, <- (IHr Hr Hvr).
      cbn [fst snd]. destruct (bool_decide (key ∈ names)).
      - destruct x as [| | | |s|elems|items]; try discriminate; simpl.
        + split; [intros [= H2]; by split | intros [_ H2]; by rewrite H2].
        + split; [intros [=] | intros [[=] _]].
        + split; [intros [=] | intros [[=] _]].
      - rewrite <- (Hx Hvx).
        split; [by intros [= H1 H2] | intros [H1 H2]; by rewrite H1, H2]. }
    rewrite <- Hlist. split; [by intros [= ?] | by intros ->].
Qed.
End JsonRotation.

(** X9: key rotation for the JSON field.  A well-formed value sealed
    while [k] was the first key is unsealed to the same value by a field
    with the same policy under every ring that holds [k], wherever [k]
    stands in it: always under [encrypt_all], and under [target_fields]
    when the target entries the walk meets hold strings. *)
Theorem json_field_roundtrip_after_rotation `{Runtime} :
  token_is_text -> fernet_correct -> fernet_authentic -> codec_roundtrip ->
  json_roundtrip ->
  forall (self self' : EncryptedJSONField.t) (k : Key)
         (rest pre post : list Key) (v : value) (w : world),
    EncryptedJSONField.fernet_keys self = k :: rest ->
    EncryptedJSONField.fernet_keys self' = pre ++ k :: post ->
    EncryptedJSONField.encrypt_all self' = EncryptedJSONField.encrypt_all self ->
    EncryptedJSONField.target_fields self'
    = EncryptedJSONField.target_fields self ->
    EncryptedJSONField._already_decrypted self' = false ->
    wf_value v = true ->
    (EncryptedJSONField.encrypt_all self = true
     \/ (EncryptedJSONField.encrypt_all self = false
         /\ exists names,
              EncryptedJSONField.target_fields self = Some names
              /\ targets_all names isinstance_str v = true)) ->
    exists stored w1,
      seal self v w = (Ok stored, w1)
      /\ forall w2, outcome (unseal self' stored) w2 = Ok v.
Proof.
  intros Htext Hcorrect Hauth Hcodec Hjson self self' k rest pre post v w
    Hring Hring' Hsame_all Hsame_names Hflag Hwf
    [Hall | (Hall & names & Hnames & Htargets)].
  - destruct (all_encrypt_run self k rest v w Htext Hring) as (t & Ht & Hrun).
    exists t, (after w 1 [EvDumps v; EvEncrypt k (str_encode (json_dumps v))]).
    split.
    + unfold seal, EncryptedJSONField.get_prep_value. rewrite Hall.
      by rewrite (bind_ok _ _ _ _ _ Hrun).
    + intros w2.
      destruct (outcome_ok_run _ w2 _
                  (_decrypt_own_token k (clock w) (json_dumps v) t pre post w2
                     Hcorrect Hauth Hcodec Ht)) as [w3 Hback].
      unfold unseal, EncryptedJSONField.from_db_value,
        EncryptedJSONField.to_python, outcome.
      rewrite Hsame_all, Hall, Hflag. cbn [is_None isinstance_str negb orb].
      unfold EncryptedJSONField._encrypt_or_decrypt_all. rewrite Hring'.
      rewrite (bind_ok _ _ _ _ _ Hback), call_loads_run.
      by rewrite (Hjson v Hwf).
  - assert (Hnames' : EncryptedJSONField.target_fields self' = Some names)
      by congruence.
    destruct (walk_roundtrip_between Htext Hcorrect Hauth Hcodec self self'
                k rest pre post names Hring Hring' Hnames Hnames' v Htargets w)
      as (v' & w' & Hrun & Hwf' & Hback).
    exists (json_dumps v'), (after w' 0 [EvDumps v']).
    split; [by apply seal_walk_run|].
    intros w2. unfold outcome.
    rewrite (unseal_walk_run self' _ v' w2 ltac:(congruence) Hflag
               (Hjson v' (Hwf' Hwf))).
    destruct (Hback (after w2 0 [EvLoads (json_dumps v')])) as [w3 ->]. done.
Qed.

(** C4, with what the code reads back: [_encrypt] uses the first key
    of the ring, whatever follows it, and everything sealed while the ring
    was [[oldKey]] is still unsealed under the ring [[newKey; oldKey]],
    the attempt on [newKey] being followed by the one on [oldKey] when
    [newKey] rejects the token.  A string comes back as it was, through
    [_decrypt] and through the text field; under [encrypt_all] every
    well-formed value comes back as it was; under [target_fields] every
    well-formed value that can be sealed comes back as [read_back] of it,
    which is the value exactly when its target entries hold strings.  A
    dict or a list under a target key is unsealed, under the rotated ring
    as under the old one, to its JSON text: there the value that comes
    back is not the value that was sealed. *)
Theorem key_rotation_keeps_old_data `{Runtime} :
  token_is_text -> fernet_correct -> fernet_authentic -> codec_roundtrip ->
  json_roundtrip ->
  forall (oldKey newKey : Key),
    (forall k rest s w, exists t,
        str_encode t = fernet_encrypt k (clock w) (str_encode s)
        /\ BaseEncryptedField._encrypt (k :: rest) (VStr s) w
           = (Ok t, after w 1 [EvEncrypt k (str_encode s)]))
    /\ (forall s w, exists token,
          outcome (BaseEncryptedField._encrypt [oldKey] (VStr s)) w = Ok token
          /\ forall w2,
               outcome (BaseEncryptedField._decrypt [newKey; oldKey]
                          (VStr token)) w2
               = Ok s
               /\ (rejects newKey token ->
                   BaseEncryptedField._decrypt [newKey; oldKey] (VStr token) w2
                   = (Ok s, after w2 0 (attempts [newKey; oldKey] token))))
    /\ (forall s w, exists stored,
          EncryptedTextField.get_prep_value
            (EncryptedTextField.Field [oldKey] false) (VStr s) w
          = (Ok stored, after w 1 [EvEncrypt oldKey (str_encode s)])
          /\ forall w2,
               outcome (EncryptedTextField.from_db_value
                          (EncryptedTextField.Field [newKey; oldKey] false)
                          stored) w2
               = Ok (VStr s))
    /\ (forall (self self' : EncryptedJSONField.t) (v : value) (w : world),
          EncryptedJSONField.fernet_keys self = [oldKey] ->
          EncryptedJSONField.fernet_keys self' = [newKey; oldKey] ->
          EncryptedJSONField.encrypt_all self'
          = EncryptedJSONField.encrypt_all self ->
          EncryptedJSONField.target_fields self'
          = EncryptedJSONField.target_fields self ->
          EncryptedJSONField._already_decrypted self' = false ->
          wf_value v = true ->
          (EncryptedJSONField.encrypt_all self = true ->
           exists stored w1,
             seal self v w = (Ok stored, w1)
             /\ forall w2, outcome (unseal self' stored) w2 = Ok v)
          /\ (forall names,
                EncryptedJSONField.encrypt_all self = false ->
                EncryptedJSONField.target_fields self = Some names ->
                targets_all names sealable v = true ->
                exists stored w1,
                  seal self v w = (Ok stored, w1)
                  /\ (forall w2,
                        outcome (unseal self' stored) w2
                        = Ok (read_back names v))
                  /\ (read_back names v = v
                      <-> targets_all names isinstance_str v = true)))
    /\ (forall (self self' : EncryptedJSONField.t) (names : list string)
               (key : string) (x : value) (w : world),
          EncryptedJSONField.fernet_keys self = [oldKey] ->
          EncryptedJSONField.fernet_keys self' = [newKey; oldKey] ->
          EncryptedJSONField.encrypt_all self = false ->
          EncryptedJSONField.encrypt_all self' = false ->
          EncryptedJSONField.target_fields self = Some names ->
          EncryptedJSONField.target_fields self' = Some names ->
          EncryptedJSONField._already_decrypted self' = false ->
          key ∈ names ->
          isinstance_dict x || isinstance_list x = true ->
          exists stored,
            outcome (seal self (VDict [(key, x)])) w = Ok stored
            /\ (forall w2,
                  outcome (unseal self' stored) w2
                  = Ok (VDict [(key, VStr (json_dumps x))]))
            /\ VDict [(key, VStr (json_dumps x))] <> VDict [(key, x)]).
Proof.
  intros Htext Hcorrect Hauth Hcodec Hjson oldKey newKey.
  split; [|split; [|split; [|split]]].
  - intros k rest s w. by apply _encrypt_token.
  - intros s w.
    destruct (_encrypt_token oldKey [] s w Htext) as (t & Ht & Hrun).
    exists t. split; [unfold outcome; by rewrite Hrun|].
    intros w2. split.
    + by apply (_decrypt_own_token oldKey (clock w) s t [newKey] []).
    + intros Hnew.
      rewrite (_decrypt_first_accept [newKey] oldKey [] t (str_encode s)).
      * unfold decode_utf8. by rewrite Hcodec.
      * by constructor.
      * rewrite Ht. apply Hcorrect.
  - intros s w.
    destruct (_encrypt_token oldKey [] s w Htext) as (t & Ht & Hrun).
    exists (VStr t). split.
    + unfold EncryptedTextField.get_prep_value. simpl.
      by rewrite (bind_ok _ _ _ _ _ Hrun).
    + intros w2.
      destruct (outcome_ok_run _ w2 _
                  (_decrypt_own_token oldKey (clock w) s t [newKey] [] w2
                     Hcorrect Hauth Hcodec Ht)) as [w3 Hback].
      unfold outcome, EncryptedTextField.from_db_value,
        EncryptedTextField.to_python. simpl.
      simpl app in Hback. by rewrite (bind_ok _ _ _ _ _ Hback).
  - intros self self' v w Hring Hring' Hsame_all Hsame_names Hflag Hwf. split.
    + intros Hall.
      destruct (all_encrypt_run self oldKey [] v w Htext Hring)
        as (t & Ht & Hrun).
      eexists t, _. split.
      * unfold seal, EncryptedJSONField.get_prep_value. rewrite Hall.
        by rewrite (bind_ok _ _ _ _ _ Hrun).
      * intros w2.
        destruct (outcome_ok_run _ w2 _
                    (_decrypt_own_token oldKey (clock w) (json_dumps v) t
                       [newKey] [] w2 Hcorrect Hauth Hcodec Ht))
          as [w3 Hback].
        unfold unseal, EncryptedJSONField.from_db_value,
          EncryptedJSONField.to_python, outcome.
        rewrite Hsame_all, Hall, Hflag. cbn [is_None isinstance_str negb orb].
        unfold EncryptedJSONField._encrypt_or_decrypt_all. rewrite Hring'.
        simpl app in Hback.
        rewrite (bind_ok _ _ _ _ _ Hback), call_loads_run.
        by rewrite (Hjson v Hwf).
    + intros names Hall Hnames Htargets.
      assert (Hnames' : EncryptedJSONField.target_fields self' = Some names)
        by congruence.
      destruct (walk_reads_back_all Htext Hcorrect Hauth Hcodec self self'
                  oldKey [] [newKey] [] names Hring Hring' Hnames Hnames'
                  v Htargets w) as (v' & w' & Hrun & Hwf' & Hback).
      exists (json_dumps v'), (after w' 0 [EvDumps v']).
      split; [by apply seal_walk_run|]. split.
      * intros w2. unfold outcome.
        rewrite (unseal_walk_run self' _ v' w2 ltac:(congruence) Hflag
                   (Hjson v' (Hwf' Hwf))).
        destruct (Hback (after w2 0 [EvLoads (json_dumps v')])) as [w3 ->].
        done.
      * by apply read_back_fixed.
  - intros self self' names key x w Hring Hring' Hall Hall' Hnames Hnames'
      Hflag Hkey Hx.
    destruct (target_field_structure_run self oldKey [] x w Htext Hring Hx)
      as (t & Ht & Hfield).
    pose proof (single_entry_run self names key x w Hall Hnames Hkey) as Hrun.
    rewrite (bind_ok _ _ _ _ _ Hfield) in Hrun.
    unfold EncryptedJSONField.get_prep_value in Hrun. rewrite Hall in Hrun.
    exists (json_dumps (VDict [(key, VStr t)])). split; [|split].
    + unfold outcome. by rewrite (seal_walk_run _ _ _ _ _ Hall Hrun).
    + intros w2. unfold outcome.
      rewrite (unseal_walk_run self' _ (VDict [(key, VStr t)]) w2 Hall' Hflag)
        by (apply Hjson, wf_value_dict; split;
            [apply NoDup_singleton | by repeat constructor]).
      rewrite value_dict_unfold.
      unfold EncryptedJSONField._encrypt_or_decrypt_dict. simpl.
      unfold bind at 1 2. rewrite (is_target_run _ _ _ _ Hnames').
      rewrite bool_decide_eq_true_2 by done.
      destruct (target_field_decrypt_rotated Hcorrect Hauth Hcodec self'
                  oldKey [newKey] [] Hring' (clock w) (json_dumps x) t
                  (after w2 0 [EvLoads (json_dumps (VDict [(key, VStr t)]))])
                  Ht) as [w3 Hback].
      by rewrite (bind_ok _ _ _ _ _ Hback).
    + intros [= Heq]. rewrite <- Heq in Hx. discriminate.
Qed.

(** ** [clean] and the attribute it sets *)

Section Clean.
Context `{Runtime}.

Lemma json_to_python_flagged self v w :
  EncryptedJSONField.to_python (JSONFieldHooks.with_flag self true) v w
  = (Ok v, w).
Proof.
  unfold EncryptedJSONField.to_python. simpl. by rewrite !orb_true_r.
Qed.

Lemma text_to_python_flagged self v w :
  EncryptedTextField.to_python (TextFieldHooks.with_flag self true) v w
  = (Ok v, w).
Proof.
  unfold EncryptedTextField.to_python. simpl. by rewrite !orb_true_r.
Qed.

(** X10: [clean] does not decrypt.  With the [clean] of Django's [Field]
    as base method, whose validators accept the value, [clean] returns the
    value it was given, a token included, makes no other call than the
    validators', and leaves the field without the attribute
    [_already_decrypted]; this for the JSON field and for the text
    field. *)
Theorem clean_returns_the_value_as_given :
  forall (validate : value -> M unit) (v : value) (w w' : world),
    validate v w = (Ok tt, w') ->
    (forall self,
        JSONFieldHooks.clean (JSONFieldHooks.field_clean validate) v (self, w)
        = (Ok v, (JSONFieldHooks.with_flag self false, w')))
    /\ (forall self,
          TextFieldHooks.clean (TextFieldHooks.field_clean validate) v (self, w)
          = (Ok v, (TextFieldHooks.with_flag self false, w'))).
Proof.
  intros validate v w w' Hvalid. split; intros self.
  - unfold JSONFieldHooks.clean, JSONFieldHooks.field_clean.
    rewrite (bind_ok _ _ _ _ _ (json_to_python_flagged self v w)).
    by rewrite (bind_ok _ _ _ _ _ Hvalid).
  - unfold TextFieldHooks.clean, TextFieldHooks.field_clean.
    rewrite (bind_ok _ _ _ _ _ (text_to_python_flagged self v w)).
    by rewrite (bind_ok _ _ _ _ _ Hvalid).
Qed.

(** X11: [clean] deletes the attribute only when the base method
    returns.  When the base [clean] raises (a validation error), [clean]
    raises the same exception and the attribute [_already_decrypted] stays
    on the field: from then on [from_db_value], which is [to_python],
    returns every stored string as it is, undecrypted and without a call,
    until a later [clean] returns and removes the attribute. *)
Theorem clean_that_raises_leaves_the_attribute :
  forall (super_clean : EncryptedJSONField.t -> value -> M value)
         (self : EncryptedJSONField.t) (v : value) (w w' : world) (e : exn),
    super_clean (JSONFieldHooks.with_flag self true) v w = (Raise e, w') ->
    JSONFieldHooks.clean super_clean v (self, w)
    = (Raise e, (JSONFieldHooks.with_flag self true, w'))
    /\ (forall stored w2,
          EncryptedJSONField.from_db_value
            (JSONFieldHooks.with_flag self true) (VStr stored) w2
          = (Ok (VStr stored), w2))
    /\ (forall super_clean2 v2 w2 r w3,
          super_clean2 (JSONFieldHooks.with_flag self true) v2 w2 = (Ok r, w3) ->
          JSONFieldHooks.clean super_clean2 v2
            (JSONFieldHooks.with_flag self true, w2)
          = (Ok r, (JSONFieldHooks.with_flag self false, w3))).
Proof.
  intros super_clean self v w w' e Hraise. split; [|split].
  - unfold JSONFieldHooks.clean. by rewrite Hraise.
  - intros stored w2. apply json_to_python_flagged.
  - intros super_clean2 v2 w2 r w3 Hok. unfold JSONFieldHooks.clean.
    change (JSONFieldHooks.with_flag (JSONFieldHooks.with_flag self true) true)
      with (JSONFieldHooks.with_flag self true).
    by rewrite Hok.
Qed.

(** X18: the same of the text field.  When the base [clean] raises,
    [EncryptedTextField.clean] raises the same exception and leaves the
    attribute [_already_decrypted] on the field, and [from_db_value] then
    returns every stored string as it is, without a call to Fernet. *)
Theorem text_clean_that_raises_leaves_the_attribute :
  forall (super_clean : EncryptedTextField.t -> value -> M value)
         (self : EncryptedTextField.t) (v : value) (w w' : world) (e : exn),
    super_clean (TextFieldHooks.with_flag self true) v w = (Raise e, w') ->
    TextFieldHooks.clean super_clean v (self, w)
    = (Raise e, (TextFieldHooks.with_flag self true, w'))
    /\ (forall stored w2,
          EncryptedTextField.from_db_value
            (TextFieldHooks.with_flag self true) (VStr stored) w2
          = (Ok (VStr stored), w2)).
Proof.
  intros super_clean self v w w' e Hraise. split.
  - unfold TextFieldHooks.clean. by rewrite Hraise.
  - intros stored w2. apply text_to_python_flagged.
Qed.
End Clean.

(** ** [deconstruct] *)

Section Deconstruct.
Context `{Runtime}.
Import EncryptedJSONField JSONFieldHooks.

(** X12: the keyword arguments of [deconstruct] rebuild the field.  For
    a field the constructor accepted, and base keyword arguments that
    name neither [encrypt_all] nor [target_fields], the constructor
    called with the arguments [deconstruct] returns succeeds and gives a
    field with the same [encrypt_all] and the same [target_fields] (an
    empty list, which [deconstruct] leaves out, coming back as [None]),
    whose [get_prep_value] and [to_python] are those of the field; the
    other keyword arguments are passed on as they are. *)
Theorem deconstruct_rebuilds_the_field :
  forall (keys : BaseEncryptedField.key_ring) (all : bool)
         (names : option (list string)) (self : EncryptedJSONField.t)
         (kwargs : gmap string kwarg),
    __init__ keys all names = Ok self ->
    kwargs !! "encrypt_all" = None ->
    kwargs !! "target_fields" = None ->
    exists self',
      init_from_kwargs keys (deconstruct self kwargs) = Ok self'
      /\ encrypt_all self' = encrypt_all self
      /\ (target_fields self' = target_fields self
          \/ (target_fields self = Some [] /\ target_fields self' = None))
      /\ (forall v w, get_prep_value self' v w = get_prep_value self v w)
      /\ (forall v w, to_python self' v w = to_python self v w)
      /\ (forall key,
            key <> "encrypt_all" -> key <> "target_fields" ->
            deconstruct self kwargs !! key = kwargs !! key).
Proof.
  intros keys all names self kwargs Hinit Hno_all Hno_names.
  unfold __init__ in Hinit.
  destruct all, names as [[|name rest]|]; simpl in Hinit; try discriminate;
    injection Hinit as <-; unfold init_from_kwargs, deconstruct; simpl.
  - (* encrypt_all, an empty list *)
    rewrite lookup_insert_eq, lookup_insert_ne, Hno_names by done.
    eexists. split; [reflexivity|]. split; [done|]. split; [by right|].
    split; [done|]. split; [done|].
    intros key Hk _. by rewrite lookup_insert_ne.
  - (* encrypt_all, no list *)
    rewrite lookup_insert_eq, lookup_insert_ne, Hno_names by done.
    eexists. split; [reflexivity|]. split; [done|]. split; [by left|].
    split; [done|]. split; [done|].
    intros key Hk _. by rewrite lookup_insert_ne.
  - (* target_fields *)
    rewrite lookup_insert_eq, lookup_insert_ne, Hno_all by done.
    eexists. split; [reflexivity|]. split; [done|]. split; [by left|].
    split; [done|]. split; [done|].
    intros key _ Hk. by rewrite lookup_insert_ne.
Qed.
End Deconstruct.

(** ** The result of the heap walk is made of new objects *)

(** X14: the traversal returns a deep copy.  Started on a value that
    denotes a well-formed tree, when the walk on the heap returns, what
    it returns denotes its tree within objects that did not exist when
    the call started: no dict or list of the input is part of the result,
    so changing the one afterwards cannot change the other. *)
Theorem walk_result_shares_no_object_with_the_input `{Runtime} :
  forall (self : EncryptedJSONField.t) (names : list string) (fuel : nat)
         (v v' : Objects.pyval) (t : value) (encrypt : bool)
         (st st' : Objects.store),
    EncryptedJSONField.target_fields self = Some names ->
    Objects.fernet_keys st = EncryptedJSONField.fernet_keys self ->
    Objects.reify fuel (Objects.objects st) v = Some t ->
    wf_value t = true ->
    Objects._encrypt_or_decrypt_value fuel (Some names) v encrypt st
    = (Ok v', st') ->
    exists (created : gmap nat Objects.obj) (n : nat) (t' : value),
      created ⊆ Objects.objects st'
      /\ dom created ## dom (Objects.objects st)
      /\ Objects.reify n created v' = Some t'
      /\ fst (EncryptedJSONField._encrypt_or_decrypt_value self t encrypt
                (Objects.the_world st)) = Ok t'.
Proof.
  intros self names fuel v v' t encrypt st st' Htf Hagree Hreify Hwf Hrun.
  destruct (sim_value self names Htf fuel v t encrypt st Hagree Hreify Hwf)
    as (r' & st'' & Hrun' & _ & _ & _ & Hsim).
  rewrite Htf, Hrun in Hrun'. injection Hrun' as <- <-.
  destruct (fst _) as [t'|e]; [|done].
  destruct Hsim as (v'' & [= <-] & created & n & Hsub & Hdisj & Hden).
  by exists created, n, t'.
Qed.

(** ** The keys of the settings *)

Section SettingsKeys.
Context `{Runtime}.
Import Settings.

Variable fernet_new : bytes -> result Key.

Lemma fernet_all_ok ks fernets :
  fernet_all fernet_new ks = Ok fernets ->
  Forall2 (fun key fernet => fernet_new key = Ok fernet) ks fernets.
Proof.
  revert fernets. induction ks as [|key rest IH]; intros fernets; simpl.
  - intros [= <-]. constructor.
  - destruct (fernet_new key) as [fernet|e] eqn:Hkey; [|done].
    destruct (fernet_all fernet_new rest) as [fernets'|e]; [|done].
    intros [= <-]. constructor; [done | by apply IH].
Qed.

Lemma fernet_all_first_malformed good key bad e :
  Forall (fun g => exists fernet, fernet_new g = Ok fernet) good ->
  fernet_new key = Raise e ->
  fernet_all fernet_new (good ++ key :: bad) = Raise e.
Proof.
  intros Hgood Hkey. induction Hgood as [|g good [fernet Hg] _ IH]; simpl.
  - by rewrite Hkey.
  - by rewrite Hg, IH.
Qed.

(** X15: the ring follows the settings.  When [Fernet] accepts every
    key of [settings.MODEL_ENCRYPTION_KEYS], the first access to
    [fernet_keys] gives one Fernet object per configured key, in the
    order of the settings, so that the key [_encrypt] uses is the first
    configured one; and both lists are stored in the instance. *)
Theorem fernet_keys_follow_the_settings :
  forall (MODEL_ENCRYPTION_KEYS : list string) (fernets : list Key),
    fernet_all fernet_new (map str_encode MODEL_ENCRYPTION_KEYS) = Ok fernets ->
    fernet_keys fernet_new MODEL_ENCRYPTION_KEYS empty_cache
    = (Ok fernets,
       Cache (Some (map str_encode MODEL_ENCRYPTION_KEYS)) (Some fernets))
    /\ length fernets = length MODEL_ENCRYPTION_KEYS
    /\ (forall i key,
          MODEL_ENCRYPTION_KEYS !! i = Some key ->
          exists fernet,
            fernets !! i = Some fernet
            /\ fernet_new (str_encode key) = Ok fernet)
    /\ (forall v w,
          _encrypt fernet_new MODEL_ENCRYPTION_KEYS v (empty_cache, w)
          = (fst (BaseEncryptedField._encrypt fernets v w),
             (Cache (Some (map str_encode MODEL_ENCRYPTION_KEYS))
                (Some fernets),
              snd (BaseEncryptedField._encrypt fernets v w)))).
Proof.
  intros settings fernets Hall.
  assert (Hrun : fernet_keys fernet_new settings empty_cache
                 = (Ok fernets,
                    Cache (Some (map str_encode settings)) (Some fernets))).
  { unfold fernet_keys, keys, bind. simpl. by rewrite Hall. }
  pose proof (fernet_all_ok _ _ Hall) as Hrel.
  split; [done|]. split; [|split].
  - apply Forall2_length in Hrel. rewrite length_map in Hrel. by symmetry.
  - intros i key Hi.
    assert (Henc : map str_encode settings !! i = Some (str_encode key))
      by (by rewrite list_lookup_fmap, Hi).
    destruct (Forall2_lookup_l _ _ _ _ _ Hrel Henc) as (fernet & Hf & Hnew).
    by exists fernet.
  - intros v w. unfold _encrypt. rewrite Hrun.
    by destruct (BaseEncryptedField._encrypt fernets v w).
Qed.

(** X16: one malformed key stops everything.  When [Fernet] refuses a
    key of the settings, whatever its place in the list, the access to
    [fernet_keys] raises the exception of the first such key, and so does
    every [_encrypt] and every [_decrypt], before any call to Fernet and
    whatever the other keys are. *)
Theorem malformed_key_stops_every_call :
  forall (good bad : list string) (key : string) (e : exn) (v : value)
         (w : world),
    Forall (fun g => exists fernet, fernet_new (str_encode g) = Ok fernet)
           good ->
    fernet_new (str_encode key) = Raise e ->
    let settings := good ++ key :: bad in
    let c := Cache (Some (map str_encode settings)) None in
    fernet_keys fernet_new settings empty_cache = (Raise e, c)
    /\ _encrypt fernet_new settings v (empty_cache, w) = (Raise e, (c, w))
    /\ _decrypt fernet_new settings v (empty_cache, w) = (Raise e, (c, w)).
Proof.
  intros good bad key e v w Hgood Hkey settings c.
  assert (Hall : fernet_all fernet_new (map str_encode settings) = Raise e).
  { subst settings. rewrite map_app. simpl.
    apply fernet_all_first_malformed; [|done].
    by apply (proj2 (Forall_fmap _ _ _)). }
  assert (Hrun : fernet_keys fernet_new settings empty_cache = (Raise e, c)).
  { unfold fernet_keys, keys, bind. simpl. by rewrite Hall. }
  split; [done|]. split.
  - unfold _encrypt. by rewrite Hrun.
  - unfold _decrypt. by rewrite Hrun.
Qed.

End SettingsKeys.

(** * The reference runtime satisfies the laws *)

Section ReferenceLaws.
Import Reference.

Lemma reference_token_is_text : token_is_text.
Proof.
  intros k n data. exists (String.string_of_list_byte (encrypt k n data)).
  split; [done|]. apply String.list_byte_of_string_of_list_byte.
Qed.

Lemma reference_token_expands : token_expands.
Proof. intros k n data. simpl. lia. Qed.

Lemma byte_eqb_refl (b : byte) : Byte.eqb b b = true.
Proof. by apply Byte.byte_dec_lb. Qed.

Lemma reference_fernet_correct : fernet_correct.
Proof. intros k n data. simpl. by rewrite byte_eqb_refl. Qed.

Lemma reference_fernet_authentic : fernet_authentic.
Proof.
  intros k k' n data data'. simpl.
  destruct (Byte.eqb k k'); [|done]. by intros [= ->].
Qed.

Lemma reference_codec_roundtrip : codec_roundtrip.
Proof.
  intros s. simpl. f_equal. apply String.string_of_list_byte_of_string.
Qed.

Lemma pos_load_dump p : pos_load (pos_dump p) = Some p.
Proof.
  induction p as [q IH|q IH|]; simpl; [by rewrite IH..|done].
Qed.

Lemma tree_to_value_to_tree v : tree_to_value (value_to_tree v) = v.
Proof.
  induction v as [| | | | |elems IH|items IH] using value_ind; simpl;
    try done.
  - f_equal. induction IH as [|x r Hx _ IHr]; simpl; [done|].
    by rewrite Hx, IHr.
  - f_equal. induction IH as [|[key x] r Hx _ IHr]; simpl; [done|].
    simpl in Hx. by rewrite Hx, IHr.
Qed.

Lemma reference_json_roundtrip : json_roundtrip.
Proof.
  intros v _. simpl. unfold loads, dumps.
  rewrite pos_load_dump. simpl. rewrite decode_encode. simpl.
  by rewrite tree_to_value_to_tree.
Qed.

(** The laws at the runtime with UTF-8. *)

Lemma unhex_hex_byte b rest :
  unhex (hex_byte b ++ rest)
  = match unhex rest with Some r => Some (b :: r) | None => None end.
Proof. destruct b; reflexivity. Qed.

Lemma unhex_hex data : unhex (hex data) = Some data.
Proof.
  induction data as [|b r IH]; [done|].
  change (hex (b :: r)) with (hex_byte b ++ hex r).
  by rewrite unhex_hex_byte, IH.
Qed.

Lemma utf8_decode_char c rest :
  utf8_decode (utf8_char c ++ rest)
  = match utf8_decode rest with Some s => Some (String c s) | None => None end.
Proof. destruct c as [[] [] [] [] [] [] [] []]; reflexivity. Qed.

Lemma ascii_text (l : bytes) :
  forallb is_ascii l = true ->
  utf8_decode l = Some (String.string_of_list_byte l)
  /\ utf8_encode (String.string_of_list_byte l) = l.
Proof.
  induction l as [|b r IH]; [done|]. simpl forallb.
  intros [Hb Hr]%andb_true_iff. destruct (IH Hr) as [IH1 IH2].
  split.
  - simpl. unfold is_ascii in Hb. by rewrite Hb, IH1.
  - change (String.string_of_list_byte (b :: r))
      with (String (ascii_of_byte b) (String.string_of_list_byte r)).
    cbn [utf8_encode]. rewrite IH2. clear -Hb. revert Hb.
    destruct b; (discriminate || reflexivity).
Qed.

Lemma hex_ascii data : forallb is_ascii (hex data) = true.
Proof.
  induction data as [|b r IH]; [done|].
  change (hex (b :: r)) with (hex_byte b ++ hex r).
  rewrite forallb_app, IH, andb_true_r. destruct b; reflexivity.
Qed.

Lemma nonce_ascii n : is_ascii (nonce n) = true.
Proof.
  unfold nonce. pose proof (Nat.mod_upper_bound n 10 ltac:(lia)) as Hlt.
  destruct (n mod 10) as [|[|[|[|[|[|[|[|[|[|m]]]]]]]]]]; try reflexivity. lia.
Qed.

Lemma utf8_token_is_text : @token_is_text utf8_runtime.
Proof.
  intros k n data.
  exists (String.string_of_list_byte (text_encrypt k n data)).
  change (utf8_decode (text_encrypt k n data)
          = Some (String.string_of_list_byte (text_encrypt k n data))
          /\ utf8_encode (String.string_of_list_byte (text_encrypt k n data))
             = text_encrypt k n data).
  apply ascii_text. unfold text_encrypt.
  change (x47 :: hex_byte k ++ nonce n :: hex data)
    with ([x47] ++ hex_byte k ++ [nonce n] ++ hex data).
  rewrite !forallb_app, hex_ascii. simpl forallb.
  rewrite nonce_ascii, !andb_true_r. destruct k; reflexivity.
Qed.

Lemma text_decrypt_token k k' b payload :
  text_decrypt k' (x47 :: hex_byte k ++ b :: payload)
  = if Byte.eqb k k' then unhex payload else None.
Proof. destruct k; reflexivity. Qed.

Lemma text_decrypt_encrypt k k' n data :
  text_decrypt k' (text_encrypt k n data)
  = if Byte.eqb k k' then Some data else None.
Proof.
  unfold text_encrypt. by rewrite text_decrypt_token, unhex_hex.
Qed.

Lemma utf8_fernet_correct : @fernet_correct utf8_runtime.
Proof.
  intros k n data.
  change (text_decrypt k (text_encrypt k n data) = Some data).
  by rewrite text_decrypt_encrypt, byte_eqb_refl.
Qed.

Lemma utf8_fernet_authentic : @fernet_authentic utf8_runtime.
Proof.
  intros k k' n data data'.
  change (text_decrypt k' (text_encrypt k n data) = Some data' -> data' = data).
  rewrite text_decrypt_encrypt.
  destruct (Byte.eqb k k'); [|done]. by intros [= ->].
Qed.

Lemma utf8_codec_roundtrip : @codec_roundtrip utf8_runtime.
Proof.
  intros s. change (utf8_decode (utf8_encode s) = Some s).
  induction s as [|c r IH]; [done|].
  cbn [utf8_encode]. by rewrite utf8_decode_char, IH.
Qed.

Lemma utf8_json_roundtrip : @json_roundtrip utf8_runtime.
Proof. exact reference_json_roundtrip. Qed.
End ReferenceLaws.

(** * The theorems at the reference runtime *)

Section Instances.
Import Reference.
Import BaseEncryptedField.

(** [{"secret": {"a": 1}}] under [target_fields=["secret"]]. *)
Lemma roundtrip_loses_structured_target_witness :
  exists stored,
    outcome (seal (secret_field [old_key])
               (VDict [("secret", VDict [("a", VInt 1)])])) w0
    = Ok stored
    /\ (forall w2,
          outcome (unseal (secret_field [old_key]) stored) w2
          = Ok (VDict [("secret", VStr (dumps (VDict [("a", VInt 1)])))]))
    /\ VDict [("secret", VStr (dumps (VDict [("a", VInt 1)])))]
       <> VDict [("secret", VDict [("a", VInt 1)])].
Proof.
  apply (roundtrip_loses_structured_target
           reference_token_is_text reference_fernet_correct
           reference_codec_roundtrip reference_json_roundtrip
           (secret_field [old_key]) old_key [] ["secret"] "secret"
           (VDict [("a", VInt 1)]) w0);
    [reflexivity | reflexivity | reflexivity | reflexivity
    | apply list_elem_of_here | reflexivity].
Defined.

(** The failing input evaluated: the entry comes back as a string. *)
Example roundtrip_of_nested_secret :
  match outcome (seal (secret_field [old_key])
                   (VDict [("secret", VDict [("a", VInt 1)])])) w0 with
  | Ok stored => outcome (unseal (secret_field [old_key]) stored) w0
  | Raise e => Raise e
  end
  = Ok (VDict [("secret", VStr (dumps (VDict [("a", VInt 1)])))]).
Proof. vm_compute. reflexivity. Qed.

(** A value whose only target entry holds a string. *)
Lemma roundtrip_when_targets_are_strings_witness :
  exists stored w1,
    seal (secret_field [old_key])
      (VDict [("secret", VStr "x"); ("n", VList [VInt 1; VNone])]) w0
    = (Ok stored, w1)
    /\ forall w2,
         outcome (unseal (secret_field [old_key]) stored) w2
         = Ok (VDict [("secret", VStr "x"); ("n", VList [VInt 1; VNone])]).
Proof.
  apply (roundtrip_when_targets_are_strings
           reference_token_is_text reference_fernet_correct
           reference_codec_roundtrip reference_json_roundtrip
           (secret_field [old_key]) old_key []);
    [reflexivity | reflexivity | vm_compute; reflexivity |].
  right. split; [reflexivity|]. exists ["secret"].
  split; [reflexivity | vm_compute; reflexivity].
Defined.



(** C3, as the specification words it, fails.  At the runtime with
    UTF-8, the text ["G6f0ff"] is the token of the byte 0xff under
    [old_key]; the key accepts it and [_decrypt], after its one attempt,
    raises [UnicodeDecodeError], which is not [DecryptionFailed], where
    the claim has the plaintext returned.  And a token UTF-8 does not
    encode raises [UnicodeEncodeError], no key being tried. *)
Lemma decrypt_raises_other_error_kinds :
  utf8_encode token_of_xff = text_encrypt old_key 0 [xff]
  /\ text_decrypt old_key (utf8_encode token_of_xff) = Some [xff]
  /\ utf8_decode [xff] = None
  /\ @_decrypt utf8_runtime [old_key] (VStr token_of_xff)
       (World utf8_runtime 0 [])
     = (Raise UnicodeDecodeError,
        World utf8_runtime 0
          [@EvDecrypt utf8_runtime old_key (utf8_encode token_of_xff)])
  /\ UnicodeDecodeError <> DecryptionFailed
  /\ @_decrypt runtime [old_key] StrLoneSurrogate w0
     = (Raise UnicodeEncodeError, w0)
  /\ UnicodeEncodeError <> DecryptionFailed.
Proof.
  split; [vm_compute; reflexivity|]. split; [vm_compute; reflexivity|].
  split; [reflexivity|]. split; [vm_compute; reflexivity|].
  split; [discriminate|]. split; [reflexivity | discriminate].
Qed.

(** The token of ["x"] under [old_key], read under [[new_key; old_key]]:
    [new_key] rejects it and [old_key] is the first to accept it. *)
Lemma decrypt_first_key_or_DecryptionFailed_witness :
  @_decrypt runtime [new_key; old_key] (VStr "Go0x") w0
  = (Ok "x", after w0 0 (@attempts runtime [new_key; old_key] "Go0x")).
Proof.
  refine (proj1 (@decrypt_first_key_or_DecryptionFailed runtime
                   [new_key; old_key] "Go0x" w0)
            [new_key] old_key [] (String.list_byte_of_string "x") eq_refl
            _ eq_refl).
  constructor; [reflexivity | constructor].
Defined.

(** [{"secret": {"a": 1}}] sealed under [[old_key]] and unsealed under
    [[new_key; old_key]]. *)
Lemma key_rotation_keeps_old_data_witness :
  exists stored,
    outcome (seal (secret_field [old_key])
               (VDict [("secret", VDict [("a", VInt 1)])])) w0
    = Ok stored
    /\ (forall w2,
          outcome (unseal (secret_field [new_key; old_key]) stored) w2
          = Ok (VDict [("secret", VStr (dumps (VDict [("a", VInt 1)])))]))
    /\ VDict [("secret", VStr (dumps (VDict [("a", VInt 1)])))]
       <> VDict [("secret", VDict [("a", VInt 1)])].
Proof.
  apply (proj2 (proj2 (proj2 (proj2
           (@key_rotation_keeps_old_data runtime
              reference_token_is_text reference_fernet_correct
              reference_fernet_authentic reference_codec_roundtrip
              reference_json_roundtrip old_key new_key))))
           (secret_field [old_key]) (secret_field [new_key; old_key])
           ["secret"] "secret" (VDict [("a", VInt 1)]) w0);
    [reflexivity | reflexivity | reflexivity | reflexivity | reflexivity
    | reflexivity | reflexivity | apply list_elem_of_here | reflexivity].
Defined.

(** The same input evaluated: sealed under the old ring, read under the
    rotated one. *)
Example rotation_of_nested_secret :
  match outcome (seal (secret_field [old_key])
                   (VDict [("secret", VDict [("a", VInt 1)])])) w0 with
  | Ok stored => outcome (unseal (secret_field [new_key; old_key]) stored) w0
  | Raise e => Raise e
  end
  = Ok (VDict [("secret", VStr (dumps (VDict [("a", VInt 1)])))]).
Proof. vm_compute. reflexivity. Qed.

(** The mapping of the claim, sealed with [old_key]. *)
Lemma target_field_isolation_witness :
  exists t,
    String.list_byte_of_string t
    = encrypt old_key 0 (String.list_byte_of_string "x")
    /\ t <> "x"
    /\ EncryptedJSONField.get_prep_value (secret_field [old_key])
         (VDict [("secret", VStr "x"); ("public", VStr "y")]) w0
       = (Ok (VDict [("secret", VStr t); ("public", VStr "y")]),
          after w0 1 [EvEncrypt old_key (String.list_byte_of_string "x")])
    /\ outcome (seal (secret_field [old_key])
                  (VDict [("secret", VStr "x"); ("public", VStr "y")])) w0
       = Ok (dumps (VDict [("secret", VStr t); ("public", VStr "y")]))
    /\ forall w2,
         outcome (unseal (secret_field [old_key])
                    (dumps (VDict [("secret", VStr t); ("public", VStr "y")])))
                 w2
         = Ok (VDict [("secret", VStr "x"); ("public", VStr "y")]).
Proof.
  apply (target_field_isolation
           reference_token_is_text reference_token_expands
           reference_fernet_correct reference_codec_roundtrip
           reference_json_roundtrip (secret_field [old_key]) old_key [] w0);
    reflexivity.
Defined.

(** The list [[1, "two"]] under [encrypt_all]. *)
Lemma encrypt_all_is_one_token_witness :
  exists t,
    seal (blob_field [old_key]) (VList [VInt 1; VStr "two"]) w0
    = (Ok t,
       after w0 1
         [EvDumps (VList [VInt 1; VStr "two"]);
          EvEncrypt old_key
            (String.list_byte_of_string (dumps (VList [VInt 1; VStr "two"])))])
    /\ forall w2,
         outcome (unseal (blob_field [old_key]) t) w2
         = Ok (VList [VInt 1; VStr "two"]).
Proof.
  destruct (encrypt_all_is_one_token
              reference_token_is_text reference_fernet_correct
              reference_codec_roundtrip reference_json_roundtrip
              (blob_field [old_key]) old_key [] (VList [VInt 1; VStr "two"]) w0
              eq_refl eq_refl eq_refl)
    as [(t & _ & _ & Hseal & Hback) _].
  exists t. split; [exact Hseal|]. apply Hback. reflexivity.
Defined.

(** A dict and [None] handed to [to_python]. *)
Lemma to_python_passes_non_strings_witness :
  EncryptedJSONField.to_python (secret_field [old_key])
    (VDict [("secret", VStr "x")]) w0
  = (Ok (VDict [("secret", VStr "x")]), w0)
  /\ EncryptedJSONField.to_python (blob_field [old_key]) VNone w0
     = (Ok VNone, w0).
Proof.
  split.
  - exact (proj1 (to_python_passes_non_strings (secret_field [old_key])
                    (@EncryptedTextField.Field runtime [old_key] false)
                    (VDict [("secret", VStr "x")]) w0 eq_refl)).
  - exact (proj1 (to_python_passes_non_strings (blob_field [old_key])
                    (@EncryptedTextField.Field runtime [old_key] false)
                    VNone w0 eq_refl)).
Defined.

(** [{"public": "y", "secret": 5}]: the number under the target key. *)
Lemma non_string_target_raises_unspecified_error_witness :
  exists e,
    outcome (EncryptedJSONField.get_prep_value (secret_field [old_key])
               (VDict [("public", VStr "y"); ("secret", VInt 5)])) w0
    = Raise e
    /\ ~ specified_error e
    /\ (token_is_text -> [old_key] <> [] -> e = TypeError).
Proof.
  apply (non_string_target_raises_unspecified_error
           (secret_field [old_key]) ["secret"]
           [("public", VStr "y"); ("secret", VInt 5)] "secret" (VInt 5) w0);
    [reflexivity | reflexivity
    | apply list_elem_of_further, list_elem_of_here
    | apply list_elem_of_here | reflexivity | reflexivity].
Defined.

(** The walk returns a new dict and leaves the one at 0 as it was. *)
Example walk_on_heap0 :
  let run :=
    Objects.get_prep_value 5 (secret_field [old_key]) (Objects.PRef 0) store0
  in
  fst run = Ok (Objects.PRef 2)
  /\ Objects.objects (snd run) !! 2
     = Some (Objects.ODict [("secret", Objects.PStr "Go0x");
                            ("tags", Objects.PRef 3)])
  /\ Objects.objects (snd run) !! 3
     = Some (Objects.OList [Objects.PStr "a"])
  /\ Objects.objects (snd run) !! 0 = heap0 !! 0.
Proof. vm_compute. repeat split. Qed.

(** [json.dumps] of a list that holds itself. *)
Example dumps_of_a_cycle :
  Objects.json_tree 5 heap_cycle [] (Objects.PRef 0)
  = Raise (ValueError "Circular reference detected").
Proof. vm_compute. reflexivity. Qed.

(** The walk on [heap0]: the dict at 0 and the list at 1 stay as they are. *)
Lemma traversal_leaves_input_and_keys_unchanged_witness :
  let run :=
    Objects.get_prep_value 5 (secret_field [old_key]) (Objects.PRef 0) store0
  in
  heap0 ⊆ Objects.objects (snd run)
  /\ (forall n t,
        Objects.reify n heap0 (Objects.PRef 0) = Some t ->
        Objects.reify n (Objects.objects (snd run)) (Objects.PRef 0) = Some t)
  /\ Objects.fernet_keys (snd run) = [old_key].
Proof.
  intros run.
  destruct (traversal_leaves_input_and_keys_unchanged 5
              (secret_field [old_key]) (Objects.PRef 0) true store0
              (snd run) (fst run)) as (Hsub & _ & Hsame & Hkeys & _).
  - left. apply surjective_pairing.
  - split; [exact Hsub|]. split; [exact Hsame | exact Hkeys].
Defined.
End Instances.

(** * The further properties at the reference runtime *)

Section FurtherInstances.
Import Reference.

(** A string written under [[old_key]] and read under [[new_key; old_key]]. *)
Lemma text_roundtrip_wherever_the_key_stands_witness :
  exists token,
    EncryptedTextField.get_prep_value
      (@EncryptedTextField.Field runtime [old_key] false) (VStr "pin 1234") w0
    = (Ok (VStr token),
       after w0 1 [EvEncrypt old_key (String.list_byte_of_string "pin 1234")])
    /\ forall w2,
         outcome (EncryptedTextField.from_db_value
                    (@EncryptedTextField.Field runtime [new_key; old_key] false)
                    (VStr token)) w2
         = Ok (VStr "pin 1234").
Proof.
  exact (@text_roundtrip_wherever_the_key_stands runtime
           reference_token_is_text reference_fernet_correct
           reference_fernet_authentic reference_codec_roundtrip
           old_key [] [new_key] [] "pin 1234" w0).
Defined.

(** The number 5 written, with a key and without one; a string read
    without a key. *)
Lemma text_field_refusals_witness :
  EncryptedTextField.get_prep_value
    (@EncryptedTextField.Field runtime [old_key] false) (VInt 5) w0
  = (Raise TypeError, w0)
  /\ EncryptedTextField.get_prep_value
       (@EncryptedTextField.Field runtime [] false) (VInt 5) w0
     = (Raise IndexError, w0)
  /\ EncryptedTextField.to_python
       (@EncryptedTextField.Field runtime [] false) (VStr "Go0x") w0
     = (Raise DecryptionFailed, w0).
Proof.
  destruct (@text_field_refusals runtime old_key [] false (VInt 5) "Go0x" w0)
    as (Hwrite & Hempty & Hread).
  split; [exact (Hwrite eq_refl) | split; [exact Hempty | exact Hread]].
Defined.

(** The stored mapping [{"public": "y", "secret": 5}]. *)
Lemma non_string_target_cannot_be_read_witness :
  exists e,
    outcome (EncryptedJSONField.to_python (secret_field [old_key])
               (VStr (dumps (VDict [("public", VStr "y");
                                    ("secret", VInt 5)])))) w0
    = Raise e.
Proof.
  apply (proj2 (@non_string_target_cannot_be_read runtime
                  (secret_field [old_key]) ["secret"]
                  [("public", VStr "y"); ("secret", VInt 5)] "secret"
                  (VInt 5)
                  (dumps (VDict [("public", VStr "y"); ("secret", VInt 5)]))
                  w0 eq_refl));
    [reflexivity | reflexivity | reflexivity
    | by apply reference_json_roundtrip
    | apply list_elem_of_further, list_elem_of_here
    | apply list_elem_of_here].
Defined.

(** The calls of one [get_prep_value]. *)
Lemma each_direction_makes_its_own_calls_witness :
  let run :=
    EncryptedJSONField.get_prep_value (secret_field [old_key])
      (VDict [("secret", VList [VStr "a"]); ("public", VStr "y")]) w0
  in
  exists evs,
    trace (snd run) = trace w0 ++ evs
    /\ forallb seal_event evs = true
    /\ clock (snd run)
       = length (filter (fun ev => is_encrypt_event ev = true) evs) + clock w0.
Proof.
  intros run.
  exact (proj1 (@each_direction_makes_its_own_calls runtime
                  (secret_field [old_key])
                  (VDict [("secret", VList [VStr "a"]); ("public", VStr "y")])
                  w0 (snd run) (fst run))
           (surjective_pairing run)).
Defined.

(** [{"secret": "x", "tags": ["a"]}] through the walk. *)
Lemma walk_changes_only_target_values_witness :
  same_outside_targets ["secret"]
    (VDict [("secret", VStr "x"); ("tags", VList [VStr "a"])])
    (VDict [("secret", VStr "Go0x"); ("tags", VList [VStr "a"])])
  = true
  /\ exists items',
       VDict [("secret", VStr "Go0x"); ("tags", VList [VStr "a"])]
       = VDict items'
       /\ map fst items' = ["secret"; "tags"].
Proof.
  destruct (@walk_changes_only_target_values runtime
              (secret_field [old_key]) ["secret"]
              (VDict [("secret", VStr "x"); ("tags", VList [VStr "a"])])
              (VDict [("secret", VStr "Go0x"); ("tags", VList [VStr "a"])])
              true w0
              (after w0 1
                 [@EvEncrypt runtime old_key (String.list_byte_of_string "x")])
              eq_refl eq_refl)
    as (Hsame & Hdict & _).
  split; [exact Hsame | exact (Hdict _ eq_refl)].
Defined.

(** A mapping without the key ["secret"]. *)
Lemma value_without_target_keys_is_left_alone_witness :
  EncryptedJSONField.get_prep_value (secret_field [old_key])
    (VDict [("public", VStr "y"); ("tags", VList [VStr "a"])]) w0
  = (Ok (VDict [("public", VStr "y"); ("tags", VList [VStr "a"])]), w0)
  /\ EncryptedJSONField._encrypt_or_decrypt_value (secret_field [old_key])
       (VDict [("public", VStr "y"); ("tags", VList [VStr "a"])]) false w0
     = (Ok (VDict [("public", VStr "y"); ("tags", VList [VStr "a"])]), w0).
Proof.
  exact (@value_without_target_keys_is_left_alone runtime
           (secret_field [old_key]) ["secret"]
           (VDict [("public", VStr "y"); ("tags", VList [VStr "a"])]) w0
           eq_refl eq_refl eq_refl).
Defined.

(** The list [[1]] under [encrypt_all]. *)
Lemma prepared_value_fits_the_column_witness :
  EncryptedJSONField.get_internal_type (blob_field [old_key]) = "TextField"
  /\ isinstance_str
       (VStr (String.string_of_list_byte
                (encrypt old_key 0
                   (String.list_byte_of_string (dumps (VList [VInt 1]))))))
     = true.
Proof.
  apply (proj1 (@prepared_value_fits_the_column runtime
                  (blob_field [old_key]) (VList [VInt 1])
                  (VStr (String.string_of_list_byte
                           (encrypt old_key 0
                              (String.list_byte_of_string
                                 (dumps (VList [VInt 1]))))))
                  w0
                  (after w0 1
                     [@EvDumps runtime (VList [VInt 1]);
                      @EvEncrypt runtime old_key
                        (String.list_byte_of_string (dumps (VList [VInt 1])))])
                  eq_refl));
    reflexivity.
Defined.

(** A stored string that is not JSON, under [target_fields]. *)
Lemma to_python_on_unreadable_strings_witness :
  EncryptedJSONField.to_python (secret_field [old_key]) (VStr "not json") w0
  = (Raise JSONDecodeError, after w0 0 [EvLoads "not json"]).
Proof.
  exact (proj1 (@to_python_on_unreadable_strings runtime
                  (secret_field [old_key]) "not json" w0 eq_refl)
           eq_refl eq_refl).
Defined.

(** A mapping sealed under [[old_key]], unsealed under
    [[new_key; old_key]]. *)
Lemma json_field_roundtrip_after_rotation_witness :
  exists stored w1,
    seal (secret_field [old_key])
      (VDict [("secret", VStr "x"); ("n", VList [VInt 1; VNone])]) w0
    = (Ok stored, w1)
    /\ forall w2,
         outcome (unseal (secret_field [new_key; old_key]) stored) w2
         = Ok (VDict [("secret", VStr "x"); ("n", VList [VInt 1; VNone])]).
Proof.
  apply (@json_field_roundtrip_after_rotation runtime
           reference_token_is_text reference_fernet_correct
           reference_fernet_authentic reference_codec_roundtrip
           reference_json_roundtrip
           (secret_field [old_key]) (secret_field [new_key; old_key])
           old_key [] [new_key] []);
    [reflexivity | reflexivity | reflexivity | reflexivity | reflexivity
    | reflexivity |].
  right. split; [reflexivity|]. exists ["secret"].
  split; reflexivity.
Defined.

(** A token handed to [clean], validators that accept everything. *)
Lemma clean_returns_the_value_as_given_witness :
  JSONFieldHooks.clean
    (JSONFieldHooks.field_clean (fun _ w => (Ok tt, w)))
    (VStr "Go0x") (secret_field [old_key], w0)
  = (Ok (VStr "Go0x"),
     (JSONFieldHooks.with_flag (secret_field [old_key]) false, w0)).
Proof.
  exact (proj1 (@clean_returns_the_value_as_given runtime
                  (fun _ w => (Ok tt, w)) (VStr "Go0x") w0 w0 eq_refl)
           (secret_field [old_key])).
Defined.

(** Validators that refuse everything. *)
Lemma clean_that_raises_leaves_the_attribute_witness :
  JSONFieldHooks.clean
    (JSONFieldHooks.field_clean (fun _ w => (Raise (ValueError "invalid"), w)))
    (VStr "Go0x") (secret_field [old_key], w0)
  = (Raise (ValueError "invalid"),
     (JSONFieldHooks.with_flag (secret_field [old_key]) true, w0))
  /\ forall stored w2,
       EncryptedJSONField.from_db_value
         (JSONFieldHooks.with_flag (secret_field [old_key]) true)
         (VStr stored) w2
       = (Ok (VStr stored), w2).
Proof.
  destruct (@clean_that_raises_leaves_the_attribute runtime
              (JSONFieldHooks.field_clean
                 (fun _ w => (Raise (ValueError "invalid"), w)))
              (secret_field [old_key]) (VStr "Go0x") w0 w0
              (ValueError "invalid") eq_refl)
    as (Hclean & Hread & _).
  split; [exact Hclean | exact Hread].
Defined.

(** The same validators on the text field. *)
Lemma text_clean_that_raises_leaves_the_attribute_witness :
  TextFieldHooks.clean
    (TextFieldHooks.field_clean (fun _ w => (Raise (ValueError "invalid"), w)))
    (VStr "Go0x") (@EncryptedTextField.Field runtime [old_key] false, w0)
  = (Raise (ValueError "invalid"),
     (@EncryptedTextField.Field runtime [old_key] true, w0)).
Proof.
  exact (proj1 (@text_clean_that_raises_leaves_the_attribute runtime
                  (TextFieldHooks.field_clean
                     (fun _ w => (Raise (ValueError "invalid"), w)))
                  (@EncryptedTextField.Field runtime [old_key] false)
                  (VStr "Go0x") w0 w0 (ValueError "invalid") eq_refl)).
Defined.

(** The field [secret_field], deconstructed beside [null=True]. *)
Lemma deconstruct_rebuilds_the_field_witness :
  exists self',
    JSONFieldHooks.init_from_kwargs [old_key]
      (JSONFieldHooks.deconstruct (secret_field [old_key])
         {["null" := JSONFieldHooks.KBool true]})
    = Ok self'
    /\ forall v w,
         EncryptedJSONField.get_prep_value self' v w
         = EncryptedJSONField.get_prep_value (secret_field [old_key]) v w.
Proof.
  destruct (@deconstruct_rebuilds_the_field runtime [old_key] false
              (Some ["secret"]) (secret_field [old_key])
              {["null" := JSONFieldHooks.KBool true]} eq_refl)
    as (self' & Hinit & _ & _ & Hprep & _);
    [by apply lookup_singleton_ne | by apply lookup_singleton_ne |].
  exists self'. split; [exact Hinit | exact Hprep].
Defined.

(** The walk on [heap0] and the walk on the tree it denotes. *)
Lemma heap_walk_computes_tree_walk_witness :
  exists r' st',
    Objects._encrypt_or_decrypt_value 5 (Some ["secret"]) (Objects.PRef 0)
      true store0
    = (r', st')
    /\ Objects.the_world st'
       = snd (EncryptedJSONField._encrypt_or_decrypt_value
                (secret_field [old_key])
                (VDict [("secret", VStr "x"); ("tags", VList [VStr "a"])])
                true w0)
    /\ match fst (EncryptedJSONField._encrypt_or_decrypt_value
                    (secret_field [old_key])
                    (VDict [("secret", VStr "x"); ("tags", VList [VStr "a"])])
                    true w0) with
       | Ok t' =>
           exists v' n,
             r' = Ok v'
             /\ Objects.reify n (Objects.objects st') v' = Some t'
       | Raise e => r' = Raise e
       end.
Proof.
  exact (@heap_walk_computes_tree_walk runtime (secret_field [old_key])
           ["secret"] 5 (Objects.PRef 0)
           (VDict [("secret", VStr "x"); ("tags", VList [VStr "a"])])
           true store0 eq_refl eq_refl eq_refl eq_refl).
Defined.

(** The dict the walk on [heap0] returns, at address 2. *)
Lemma walk_result_shares_no_object_with_the_input_witness :
  let run :=
    Objects._encrypt_or_decrypt_value 5 (Some ["secret"]) (Objects.PRef 0)
      true store0
  in
  exists (created : gmap nat Objects.obj) (n : nat) (t' : value),
    created ⊆ Objects.objects (snd run)
    /\ dom created ## dom heap0
    /\ Objects.reify n created (Objects.PRef 2) = Some t'
    /\ fst (EncryptedJSONField._encrypt_or_decrypt_value
              (secret_field [old_key])
              (VDict [("secret", VStr "x"); ("tags", VList [VStr "a"])])
              true w0)
       = Ok t'.
Proof.
  intros run.
  apply (@walk_result_shares_no_object_with_the_input runtime
           (secret_field [old_key]) ["secret"] 5 (Objects.PRef 0)
           (Objects.PRef 2)
           (VDict [("secret", VStr "x"); ("tags", VList [VStr "a"])])
           true store0 (snd run));
    [reflexivity | reflexivity | reflexivity | reflexivity
    | vm_compute; reflexivity].
Defined.

(** The settings [["n"; "o"]]. *)
Lemma fernet_keys_follow_the_settings_witness :
  Settings.fernet_keys reference_fernet_new ["n"; "o"] Settings.empty_cache
  = (Ok [new_key; old_key],
     Settings.Cache
       (Some (map String.list_byte_of_string ["n"; "o"]))
       (Some [new_key; old_key])).
Proof.
  exact (proj1 (@fernet_keys_follow_the_settings runtime reference_fernet_new
                  ["n"; "o"] [new_key; old_key] eq_refl)).
Defined.

(** A key of eight characters between two keys of one. *)
Lemma malformed_key_stops_every_call_witness :
  Settings._encrypt reference_fernet_new ["n"; "too long"; "o"] (VStr "x")
    (Settings.empty_cache, w0)
  = (Raise (ValueError "Fernet key must be 32 url-safe base64-encoded bytes."),
     (Settings.Cache
        (Some (map String.list_byte_of_string ["n"; "too long"; "o"])) None,
      w0)).
Proof.
  refine (proj1 (proj2 (@malformed_key_stops_every_call runtime
                          reference_fernet_new ["n"] ["o"] "too long"
                          (ValueError
                             "Fernet key must be 32 url-safe base64-encoded bytes.")
                          (VStr "x") w0 _ eq_refl))).
  constructor; [by exists new_key | constructor].
Defined.

End FurtherInstances.
